(** * cf-execd: the scheduling daemon of cf-agent

    A shallow embedding of [cf-execd/cf-execd.c] (the non-Windows build)
    and the properties of its scheduler, reload controller, multiplexed
    sleep, child supervisor and option parser.

    Conventions of the embedding.
    - [time_t], [int] and [pid_t] values are integers of [Z]; the daemon
      only ever holds epoch seconds, descriptors and process ids in them.
    - A [StringSet] is a [gset string]; iterating it walks [elements].
    - The process-wide flags and everything the daemon does to the outside
      (log lines, system calls, calls into collaborators) live in a [World]
      that is threaded through the code by a small monad [M].  A call to
      [_exit] ends the computation with [Exited]; a blocking call that the
      scripted environment does not let come back ends it with [Blocked].
    - What the environment answers (results of [select], [accept], [fork],
      [time], which signal handlers ran meanwhile) is passed in as data. *)

From Stdlib Require Import ZArith List String Ascii Bool Lia.
From stdpp Require Import base decidable gmap strings list.
Import ListNotations.

Local Open Scope string_scope.
Local Open Scope Z_scope.

(* ===================================================================== *)
(** ** Logging, signals, descriptors *)
(* ===================================================================== *)

Inductive LogLevel : Type :=
| LOG_LEVEL_ERR
| LOG_LEVEL_WARNING
| LOG_LEVEL_NOTICE
| LOG_LEVEL_INFO
| LOG_LEVEL_VERBOSE
| LOG_LEVEL_DEBUG.

Inductive Signal : Type := SIGPIPE | SIGINT | SIGTERM | SIGBUS | SIGHUP | SIGUSR1 | SIGUSR2.

Inductive Disposition : Type := SIG_DFL | SIG_IGN | HandleSignalsForDaemon.

Record timeval : Type := mk_timeval { tv_sec : Z; tv_usec : Z }.

Definition EXIT_SUCCESS : Z := 0.
Definition EXIT_FAILURE : Z := 1.

(** [MAX] is a macro of a header that is not part of this tree; it is
    taken to be the usual [((a) > (b) ? (a) : (b))].  As a function of
    values it is what the macro gives for operands without effects.  Where
    an operand reads the clock the expansion is written out, the operand
    being evaluated once for the comparison and once more when it is the
    one chosen. *)
Definition MAX (a b : Z) : Z := if a >? b then a else b.

(** Modelled from the spec: [CFPULSETIME], defined in a header that is not
    part of this tree; the canonical pulse is 60 seconds. *)
Definition CFPULSETIME : Z := 60.

(* ===================================================================== *)
(** ** Path names: [ChopLastNode] and what it calls (files_names.c)

    A C string is the list of its characters before the terminator; what
    is read at and past the end of the list is the terminator.  The macro
    [IsFileSep] and the function [IsAbsoluteFileName] are not part of this
    tree and are taken as given. *)
(* ===================================================================== *)

Module files_names.

Section PathNames.

Variable IsFileSep : ascii -> bool.
Variable IsAbsoluteFileName : list ascii -> bool.

Definition NUL : ascii := Ascii.zero.

(** [str[i]] *)
Definition char_at (str : list ascii) (i : nat) : ascii := nth i str NUL.

Definition strlen (str : list ascii) : nat := length str.

(** [memmove(&str[dst], &str[src], len)] *)
Definition memmove (str : list ascii) (dst src len : nat) : list ascii :=
  (firstn dst str ++ firstn len (skipn src str) ++ skipn (dst + len) str)%list.

(** [str[pos] = '\0'] *)
Definition terminate (str : list ascii) (pos : nat) : list ascii := firstn pos str.

Definition UnixRootDirLength (f : list ascii) : nat :=
  if IsFileSep (char_at f 0) then 1%nat else 0%nat.

Definition RootDirLength (f : list ascii) : nat := UnixRootDirLength f.

(** [while (IsFileSep(str[oldpos])) oldpos++;] *)
Fixpoint skip_separators (fuel : nat) (str : list ascii) (oldpos : nat) : nat :=
  match fuel with
  | O => oldpos
  | S fuel' =>
      if IsFileSep (char_at str oldpos) then skip_separators fuel' str (S oldpos) else oldpos
  end.

(** [while (str[oldpos] != '\0' && !IsFileSep(str[oldpos])) oldpos++;] *)
Fixpoint skip_component (fuel : nat) (str : list ascii) (oldpos : nat) : nat :=
  match fuel with
  | O => oldpos
  | S fuel' =>
      if negb (Ascii.eqb (char_at str oldpos) NUL) && negb (IsFileSep (char_at str oldpos))
      then skip_component fuel' str (S oldpos)
      else oldpos
  end.

(** The [while (str[oldpos] != '\0')] loop of [DeleteRedundantSlashes];
    no loop runs for more turns than the string has characters, plus the
    one that finds the end. *)
Fixpoint DeleteRedundantSlashes_loop (fuel : nat) (str : list ascii) (oldpos newpos : nat)
  : list ascii * nat :=
  match fuel with
  | O => (str, newpos)
  | S fuel' =>
      if Ascii.eqb (char_at str oldpos) NUL then (str, newpos)
      else
        (* Skip over subsequent separators. *)
        let oldpos := skip_separators (S (strlen str)) str oldpos in
        let move_from := oldpos in
        (* And then skip over the next path component. *)
        let oldpos := skip_component (S (strlen str)) str oldpos in
        (* If next character is file separator, move past it, since we want to keep one. *)
        let oldpos := if IsFileSep (char_at str oldpos) then S oldpos else oldpos in
        let move_len := (oldpos - move_from)%nat in
        let str := memmove str newpos move_from move_len in
        let newpos := (newpos + move_len)%nat in
        DeleteRedundantSlashes_loop fuel' str oldpos newpos
  end.

Definition DeleteRedundantSlashes (str : list ascii) : list ascii :=
  (* Invariant: newpos <= oldpos *)
  let oldpos := RootDirLength str in
  let newpos := oldpos in
  let '(str, newpos) := DeleteRedundantSlashes_loop (S (strlen str)) str oldpos newpos in
  terminate str newpos.

(** The [for] loop of [FirstFileSeparator], [rest] being what [pos]
    points to. *)
Fixpoint first_separator (rest : list ascii) (pos : nat) : option nat :=
  match rest with
  | [] => None
  | c :: rest' =>
      if Ascii.eqb c NUL then None
      else if IsFileSep c then Some pos
      else first_separator rest' (S pos)
  end.

(** The offset of the separator found, [None] for [NULL];
    [strncmp(str, "\\\\", 2) == 0] says that the first two characters are
    backslashes.  The two asserts at its start hold where [ChopLastNode]
    calls it, the string having a separator then. *)
Definition FirstFileSeparator (str : list ascii) : option nat :=
  if Ascii.eqb (char_at str 0) "\" && Ascii.eqb (char_at str 1) "\"   (* windows share *)
  then Some 1%nat
  else first_separator str 0.

(** The [while (sp >= str)] loop of [LastFileSeparator]: [n] characters
    are still to be looked at, [sp] is at offset [n - 1]. *)
Fixpoint last_separator (str : list ascii) (n : nat) : option nat :=
  match n with
  | O => None
  | S sp => if IsFileSep (char_at str sp) then Some sp else last_separator str sp
  end.

Definition LastFileSeparator (str : list ascii) : option nat :=
  last_separator str (strlen str).

(** [ChopLastNode]: the value returned and the string left behind. *)
Definition ChopLastNode (str : list ascii) : bool * list ascii :=
  let str := DeleteRedundantSlashes str in
  match LastFileSeparator str with
  | None =>
      let pos := RootDirLength str in
      if Ascii.eqb (char_at str pos) NUL then (false, str)
      else (true, (firstn pos str ++ ["."%char])%list)
  | Some sp =>
      (* Don't chop the root slash in an absolute path. *)
      if IsAbsoluteFileName str && bool_decide (FirstFileSeparator str = Some sp)
      then (true, terminate str (S sp))
      else (true, terminate str sp)
  end.

(** [ReadLastNode]: what the pointer returned points to. *)
Definition ReadLastNode (str : list ascii) : list ascii :=
  match LastFileSeparator str with
  | None => str
  | Some sp => skipn (S sp) str
  end.

(** [DeleteSlash] *)
Fixpoint DeleteSlash_loop (fuel : nat) (str : list ascii) (root size : nat) : nat :=
  match fuel with
  | O => size
  | S fuel' =>
      if IsFileSep (char_at str (size - 1)) && (root <? size - 1)%nat
      then DeleteSlash_loop fuel' str root (size - 1)
      else size
  end.

Definition DeleteSlash (str : list ascii) : list ascii :=
  let size := strlen str in
  if (size =? 0)%nat then str
  else
    let root := RootDirLength str in
    let size := DeleteSlash_loop (S (strlen str)) str root size in
    terminate str size.

End PathNames.

End files_names.

(** The separator and the test for absolute names of a Unix host. *)
Definition unix_IsFileSep (c : ascii) : bool := Ascii.eqb c "/".

Definition unix_IsAbsoluteFileName (f : list ascii) : bool :=
  match f with
  | c :: _ => unix_IsFileSep c
  | [] => false
  end.

(* ===================================================================== *)
(** ** The collaborators of the daemon

    Everything cf-execd calls in libpromises, libenv and libutils whose
    body is not part of this development.  Functions that take a non-const
    pointer return the new value of what they may have changed. *)
(* ===================================================================== *)

(** [GenericAgentConfig] of [generic_agent.h], the fields the executor
    reads or writes. *)
Record GenericAgentConfig : Type := mk_config {
  input_file : string;
  ignore_locks : bool;
  ignore_preferred_augments : bool;
  heap_soft : option (gset string);
  heap_negated : option (gset string);
  color : bool;
  last_validated_at : Z        (* agent_specific.daemon.last_validated_at *)
}.

Definition set_last_validated_at (c : GenericAgentConfig) (t : Z) : GenericAgentConfig :=
  {| input_file := input_file c;
     ignore_locks := ignore_locks c;
     ignore_preferred_augments := ignore_preferred_augments c;
     heap_soft := heap_soft c;
     heap_negated := heap_negated c;
     color := color c;
     last_validated_at := t |}.

(** Modelled from the spec: the [ExecdConfig] structure, declared in a
    header that is not part of this tree; the fields are those of the
    data model (section 3) under the names cf-execd.c uses for them. *)
Record ExecdConfig : Type := mk_execd_config {
  schedule : gset string;
  splay_time : Z;
  local_run_command : option string;
  runagent_allow_users : gset string;
  log_facility : string
}.

Class Collaborators : Type := {
  EvalContext : Type;
  Policy : Type;
  ExecConfig : Type;
  (** the files the daemon looks at: policy, validation stamp, ACLs *)
  Disk : Type;

  IsDefinedClass : EvalContext -> string -> bool;
  EvalContextClear : EvalContext -> EvalContext;
  EvalContextSetPolicyServerFromFile : EvalContext -> string -> EvalContext;
  UpdateLastPolicyUpdateTime : EvalContext -> EvalContext;
  DetectEnvironment : EvalContext -> EvalContext;
  GenericAgentDiscoverContext :
    EvalContext -> GenericAgentConfig -> option string -> EvalContext * GenericAgentConfig;
  EvalContextClassPutHard : EvalContext -> string -> string -> EvalContext;
  UpdateTimeClasses : EvalContext -> Z -> EvalContext;
  GenericAgentConfigSetBundleSequence : GenericAgentConfig -> GenericAgentConfig;

  ReadTimestampFromPolicyValidatedFile : Disk -> GenericAgentConfig -> Z;
  GenericAgentArePromisesValid : Disk -> GenericAgentConfig -> bool;
  LoadPolicy : Disk -> EvalContext -> GenericAgentConfig -> Policy * EvalContext * GenericAgentConfig;
  ExecConfigNew : bool -> EvalContext -> Policy -> ExecConfig;
  ExecdConfigNew : EvalContext -> Policy -> ExecdConfig;

  AllowAccessForUsers : Disk -> string -> gset string -> bool -> bool -> bool;
  (** the macro [IsFileSep] and the function [IsAbsoluteFileName] that
      files_names.c is compiled with *)
  IsFileSep : ascii -> bool;
  IsAbsoluteFileName : list ascii -> bool;

  GetStateDir : string;
  GetWorkDir : string;
  (** [CF_AGENTTYPES[AGENT_TYPE_EXECUTOR]] *)
  CF_AGENTTYPES_EXECUTOR : string;
  (** [sizeof(sock_info.sun_path)] of the platform's [struct sockaddr_un] *)
  SUN_PATH_SIZE : nat
}.

Section Daemon.

Context `{C : Collaborators}.

(** What the process does that can be seen from outside, in the order in
    which it does it.  [EvExecdConfigDestroy] carries the
    [runagent_allow_users] set the configuration still owns when it is
    destroyed: [None] when the pointer has been set to [NULL] before. *)
Inductive Event : Type :=
| EvLog (level : LogLevel) (fmt : string)
| EvSelect (nfds : Z) (timeout : timeval)
| EvSleep (seconds : Z)
| EvAccept (listener : Z) (fd : Z)
| EvFork (ret : Z)
| EvClose (fd : Z)
| EvSignal (sig : Signal) (disp : Disposition)
| EvHandleRunagentRequest (fd : Z) (cmd : option string)
| EvLocalExec (cfg : ExecConfig)
| EvWaitpid (ret : Z)
| EvArePromisesValid (valid : bool)
| EvStrcpyVDOMAIN (domain : string)
| EvPolicyDestroy
| EvLoadPolicy
| EvExecConfigDestroy
| EvExecdConfigDestroy (allow_users : option (gset string))
| EvStringSetDestroy (s : gset string)
| EvAllowAccessForUsers (path : string) (users : gset string) (rw rx : bool)
| EvSetFacility (facility : string)
| EvUnlink (path : string)
| EvApoptosis
| EvActAsDaemon.

(** Modelled from the spec: the two flags of signals.c (section 4.8), which
    is not part of this tree.  [termination_pending] is what
    [IsPendingTermination] reads; [reload_requested] is what
    [ReloadConfigRequested] reads and [ClearRequestReloadConfig] clears. *)
Record World : Type := mk_world {
  termination_pending : bool;
  reload_requested : bool;
  sigpipe : Disposition;
  open_fds : list Z;
  trace : list Event
}.

(** Which flags the signal handlers that ran during some window raised. *)
Record Async : Type := mk_async { async_term : bool; async_hup : bool }.

Definition quiet : Async := mk_async false false.

Definition arrive (a : Async) (w : World) : World :=
  {| termination_pending := termination_pending w || async_term a;
     reload_requested := reload_requested w || async_hup a;
     sigpipe := sigpipe w;
     open_fds := open_fds w;
     trace := trace w |}.

Definition emit (e : Event) (w : World) : World :=
  {| termination_pending := termination_pending w;
     reload_requested := reload_requested w;
     sigpipe := sigpipe w;
     open_fds := open_fds w;
     trace := trace w ++ [e] |}.

(** *** The monad *)

Inductive Outcome (A : Type) : Type :=
| Ret (a : A) (w : World)
| Exited (code : Z) (w : World)
| Blocked (w : World).

Arguments Ret {A} a w.
Arguments Exited {A} code w.
Arguments Blocked {A} w.

Definition M (A : Type) : Type := World -> Outcome A.

Definition ret {A} (a : A) : M A := fun w => Ret a w.

Definition bind {A B} (m : M A) (k : A -> M B) : M B :=
  fun w =>
    match m w with
    | Ret a w' => k a w'
    | Exited code w' => Exited code w'
    | Blocked w' => Blocked w'
    end.

Notation "'do' x <- m ; k" := (bind m (fun x => k))
  (at level 10, x name, m at level 100, k at level 200).
Notation "'run' m ; k" := (bind m (fun _ => k))
  (at level 10, m at level 100, k at level 200).

Definition effect (e : Event) : M unit := fun w => Ret tt (emit e w).
Definition Log (level : LogLevel) (fmt : string) : M unit := effect (EvLog level fmt).
Definition _exit {A} (code : Z) : M A := fun w => Exited code w.

Definition IsPendingTermination : M bool := fun w => Ret (termination_pending w) w.
Definition ReloadConfigRequested : M bool := fun w => Ret (reload_requested w) w.
Definition ClearRequestReloadConfig : M unit :=
  fun w =>
    Ret tt {| termination_pending := termination_pending w;
              reload_requested := false;
              sigpipe := sigpipe w;
              open_fds := open_fds w;
              trace := trace w |}.

(** The world an outcome ends in. *)
Definition final {A} (o : Outcome A) : World :=
  match o with Ret _ w | Exited _ w | Blocked w => w end.

(* ===================================================================== *)
(** ** The reload controller: [CheckNewPromises] *)
(* ===================================================================== *)

Inductive Reload : Type := RELOAD_ENVIRONMENT | RELOAD_FULL.

Definition CheckNewPromises (disk : Disk) (config : GenericAgentConfig)
  : M (Reload * GenericAgentConfig) :=
  run Log LOG_LEVEL_DEBUG "Checking file updates for input file '%s'";
  let validated_at := ReadTimestampFromPolicyValidatedFile disk config in
  let reload_config := false in
  do reload_config <-
    (if last_validated_at config <? validated_at
     then run Log LOG_LEVEL_VERBOSE "New promises detected..."; ret true
     else ret reload_config);
  do requested <- ReloadConfigRequested;
  do reload_config <-
    (if requested
     then run Log LOG_LEVEL_VERBOSE "Force reload of inputs files..."; ret true
     else ret reload_config);
  if reload_config : bool then
    run ClearRequestReloadConfig;
    (* Rereading policies now, so update timestamp. *)
    let config := set_last_validated_at config validated_at in
    let valid := GenericAgentArePromisesValid disk config in
    run effect (EvArePromisesValid valid);
    if valid then ret (RELOAD_FULL, config)
    else
      run Log LOG_LEVEL_INFO "New promises file contains syntax errors -- ignoring";
      ret (RELOAD_ENVIRONMENT, config)
  else
    run Log LOG_LEVEL_DEBUG "No new promises found";
    ret (RELOAD_ENVIRONMENT, config).

(* ===================================================================== *)
(** ** The runagent socket: whether it is used, where it is, its ACL *)
(* ===================================================================== *)

(** The file-scope variables of cf-execd.c. *)
Record Globals : Type := mk_globals {
  PERFORM_DB_CHECK : bool;
  NO_FORK : bool;
  ONCE : bool;
  WINSERVICE : bool;
  RUNAGENT_SOCKET_DIR : option string
}.

Definition CF_EXECD_RUNAGENT_SOCKET_NAME : string := "runagent.socket".

(** Modelled from the spec: [StringEqual_IgnoreCase] of the string library,
    which is not part of this tree; it decides whether the directory given
    on the command line is the special value "no" (section 4.7), and
    compares as its name says, letter by letter without regard to case. *)
Definition ToLower (c : ascii) : ascii :=
  let n := nat_of_ascii c in
  if ((65 <=? n) && (n <=? 90))%nat then ascii_of_nat (n + 32) else c.

Fixpoint StringEqual_IgnoreCase (a b : string) : bool :=
  match a, b with
  | EmptyString, EmptyString => true
  | String x a', String y b' =>
      if Ascii.eqb (ToLower x) (ToLower y) then StringEqual_IgnoreCase a' b' else false
  | _, _ => false
  end.

Definition UsingRunagentSocket (g : Globals) : bool :=
  match RUNAGENT_SOCKET_DIR g with
  | None => true
  | Some dir => negb (StringEqual_IgnoreCase dir "no")
  end.

(** [snprintf(buf, size, ...)] into a zeroed buffer: at most [size - 1]
    characters are stored, the length of the whole text is returned. *)
Definition snprintf (size : nat) (text : string) : string * Z :=
  (substring 0 (size - 1) text, Z.of_nat (String.length text)).

Definition GetRunagentSocketInfo (g : Globals) : bool * string :=
  let size := (SUN_PATH_SIZE - 1)%nat in
  let '(sun_path, r) :=
    match RUNAGENT_SOCKET_DIR g with
    | None =>
        snprintf size (GetStateDir ++ "/cf-execd.sockets/" ++ CF_EXECD_RUNAGENT_SOCKET_NAME)
    | Some dir =>
        snprintf size (dir ++ "/" ++ CF_EXECD_RUNAGENT_SOCKET_NAME)
    end in
  ((r >? 0) && (r <=? Z.of_nat size), sun_path).

(** [ChopLastNode] of files_names.c on the buffer that holds [str]: the
    string it leaves there.  What it returns is not looked at here. *)
Definition ChopLastNode (str : string) : string :=
  string_of_list_ascii
    (snd (files_names.ChopLastNode IsFileSep IsAbsoluteFileName (list_ascii_of_string str))).

Definition SetRunagentSocketACLs (disk : Disk) (sock_path : string) (allow_users : gset string)
  : M bool :=
  (* Allow access to the socket (rw) *)
  run effect (EvAllowAccessForUsers sock_path allow_users true false);
  let success := AllowAccessForUsers disk sock_path allow_users true false in
  (* Need to ensure access to the parent folder too (rx) *)
  if success then
    let sock_path := ChopLastNode sock_path in
    run effect (EvAllowAccessForUsers sock_path allow_users false true);
    ret (AllowAccessForUsers disk sock_path allow_users false true)
  else ret success.

(* ===================================================================== *)
(** ** The scheduler: [ScheduleRun] *)
(* ===================================================================== *)

(** What [main] owns and hands to [ScheduleRun] by pointer. *)
Record Daemon : Type := mk_daemon {
  ctx : EvalContext;
  policy : Policy;
  config : GenericAgentConfig;
  execd_config : ExecdConfig;
  exec_config : ExecConfig
}.

(** What one tick finds outside: the files, and the clock that
    [SetReferenceTime] reads. *)
Record Tick : Type := mk_tick { tick_disk : Disk; tick_now : Z }.

(** The [while] over [StringSetIteratorNext], leaving [ScheduleRun] with
    [true] at the first class that is defined. *)
Fixpoint schedule_scan (ctx : EvalContext) (it : list string) : M bool :=
  match it with
  | [] => ret false
  | time_context :: it' =>
      if IsDefinedClass ctx time_context
      then run Log LOG_LEVEL_VERBOSE "Waking up the agent at %s ~ %s"; ret true
      else schedule_scan ctx it'
  end.

(** The comparison of the allow-lists and the renewal of the ACL, the
    second [#ifndef __MINGW32__] block of the full reload. *)
Definition reload_acl (g : Globals) (disk : Disk)
    (old_runagent_allow_users : gset string) (new_execd_config : ExecdConfig) : M unit :=
  if UsingRunagentSocket g then
    (* Check if the old list and the new one differ. *)
    run (if negb (bool_decide (old_runagent_allow_users = runagent_allow_users new_execd_config))
         then
           let '(ok, sun_path) := GetRunagentSocketInfo g in
           if ok then
             do success <- SetRunagentSocketACLs disk sun_path
                             (runagent_allow_users new_execd_config);
             if negb success then
               Log LOG_LEVEL_ERR
                 "Failed to allow new runagent_socket_allow_users users access the runagent socket (on policy reload)"
               (* keep going anyway *)
             else ret tt
           else Log LOG_LEVEL_ERR "Failed to get runagent.socket path"
         else ret tt);
    effect (EvStringSetDestroy old_runagent_allow_users)
  else ret tt.

(** The "Full reload" branch of [ScheduleRun]; [config] is the
    configuration as [CheckNewPromises] left it. *)
Definition full_reload (g : Globals) (tick : Tick) (d : Daemon) (config : GenericAgentConfig)
  : M Daemon :=
  let disk := tick_disk tick in
  run Log LOG_LEVEL_INFO "Re-reading promise file '%s'";
  let ctx := EvalContextClear (ctx d) in
  run effect (EvStrcpyVDOMAIN "undefined.domain");
  run effect EvPolicyDestroy;
  let ctx := EvalContextSetPolicyServerFromFile ctx GetWorkDir in
  let ctx := UpdateLastPolicyUpdateTime ctx in
  let ctx := DetectEnvironment ctx in
  let '(ctx, config) := GenericAgentDiscoverContext ctx config None in
  let ctx := EvalContextClassPutHard ctx CF_AGENTTYPES_EXECUTOR "cfe_internal,source=agent" in
  let t := tick_now tick in
  let ctx := UpdateTimeClasses ctx t in
  let config := GenericAgentConfigSetBundleSequence config in
  (* Take over the runagent_socket_allow_users set for comparison. *)
  let old_runagent_allow_users := runagent_allow_users (execd_config d) in
  let left_in_execd_config :=
    if UsingRunagentSocket g then None else Some (runagent_allow_users (execd_config d)) in
  run effect EvLoadPolicy;
  let '(policy, ctx, config) := LoadPolicy disk ctx config in
  run effect EvExecConfigDestroy;
  run effect (EvExecdConfigDestroy left_in_execd_config);
  let exec_config := ExecConfigNew (negb (ONCE g)) ctx policy in
  let execd_config := ExecdConfigNew ctx policy in
  run reload_acl g disk old_runagent_allow_users execd_config;
  run effect (EvSetFacility (log_facility execd_config));
  ret (mk_daemon ctx policy config execd_config exec_config).

(** The "Environment reload" branch of [ScheduleRun]. *)
Definition environment_reload (tick : Tick) (d : Daemon) (config : GenericAgentConfig)
  : M Daemon :=
  let ctx := EvalContextClear (ctx d) in
  let ctx := DetectEnvironment ctx in
  let t := tick_now tick in
  let ctx := UpdateTimeClasses ctx t in
  ret (mk_daemon ctx (policy d) config (execd_config d) (exec_config d)).

(** The last block of [ScheduleRun]: is any class of the schedule defined? *)
Definition schedule_decision (d : Daemon) : M (bool * Daemon) :=
  do woke <- schedule_scan (ctx d) (elements (schedule (execd_config d)));
  if woke then ret (true, d)
  else
    run Log LOG_LEVEL_VERBOSE "Nothing to do at %s";
    ret (false, d).

Definition ScheduleRun (g : Globals) (tick : Tick) (d : Daemon) : M (bool * Daemon) :=
  do chk <- CheckNewPromises (tick_disk tick) (config d);
  let '(reload, config) := chk in
  do d <-
    match reload with
    | RELOAD_FULL => full_reload g tick d config
    | RELOAD_ENVIRONMENT => environment_reload tick d config
    end;
  schedule_decision d.

(* ===================================================================== *)
(** ** The multiplexed sleep: [HandleRequestsOrSleep] *)
(* ===================================================================== *)

(** One pass through the body of the [while] loop, as the environment
    decides it: how [select] came back, what [accept] and [fork] answered,
    what the clock showed afterwards, and which signal handlers ran while
    the process was inside [select] and while it handed the request over. *)
Record Round : Type := mk_round {
  rd_async : Async;      (* handlers that ran during select() *)
  rd_ret : Z;            (* the value select() returned *)
  rd_eintr : bool;       (* errno == EINTR *)
  rd_left : timeval;     (* what select() left in its timeout argument *)
  rd_accept : Z;         (* the value accept() returned *)
  rd_fork : Z;           (* the value fork() returned in this process *)
  rd_service : Async;    (* handlers that ran between the check and time() *)
  rd_now : Z;            (* the value time(NULL) returned in the comparison of MAX *)
  rd_now2 : Z            (* the value time(NULL) returned in the result of MAX *)
}.

(** The environment of one call: the clock at entry, the passes through
    the loop, and the handlers that ran during [sleep] when there is no
    listener. *)
Record SleepEnv : Type := mk_sleep_env {
  se_started : Z;
  se_rounds : list Round;
  se_sleep : Async
}.

Definition add_fd (fd : Z) (w : World) : World :=
  {| termination_pending := termination_pending w;
     reload_requested := reload_requested w;
     sigpipe := sigpipe w;
     open_fds := if 0 <=? fd then fd :: open_fds w else open_fds w;
     trace := trace w |}.

Definition select (nfds : Z) (timeout : timeval) (r : Round) : M (Z * bool * timeval) :=
  fun w => Ret (rd_ret r, rd_eintr r, rd_left r)
               (arrive (rd_async r) (emit (EvSelect nfds timeout) w)).

Definition accept (listener : Z) (r : Round) : M Z :=
  fun w => Ret (rd_accept r) (add_fd (rd_accept r) (emit (EvAccept listener (rd_accept r)) w)).

Definition fork (answer : Z) : M Z :=
  run effect (EvFork answer); ret answer.

Definition signal (sig : Signal) (disp : Disposition) : M unit :=
  fun w =>
    Ret tt (emit (EvSignal sig disp)
      {| termination_pending := termination_pending w;
         reload_requested := reload_requested w;
         sigpipe := match sig with SIGPIPE => disp | _ => sigpipe w end;
         open_fds := open_fds w;
         trace := trace w |}).

Definition HandleRunagentRequest (fd : Z) (local_run_command : option string) : M unit :=
  effect (EvHandleRunagentRequest fd local_run_command).

(** [time(NULL)] at the end of a pass; the handlers that ran since the
    termination check have run by now. *)
Definition time_after_service (r : Round) : M Z :=
  fun w => Ret (rd_now r) (arrive (rd_service r) w).

(** [time(NULL)] when the macro evaluates its operand the second time. *)
Definition time_again (r : Round) : M Z :=
  fun w => Ret (rd_now2 r) w.

Definition sleep (seconds : Z) (a : Async) : M unit :=
  fun w => Ret tt (arrive a (emit (EvSleep seconds) w)).

(** The [while (remaining.tv_sec != 0)] loop.  [Some true] is the
    [return true] inside the loop, [None] is falling out of it. *)
Fixpoint select_loop (seconds : Z) (runagent_socket : Z) (local_run_command : option string)
    (sleep_started : Z) (remaining : timeval) (rounds : list Round) : M (option bool) :=
  if tv_sec remaining =? 0 then ret None
  else
    match rounds with
    | [] => fun w => Blocked w
    | r :: rounds' =>
        do res <- select (runagent_socket + 1) remaining r;
        let '(sel, eintr, remaining) := res in
        if (sel =? -1) && negb eintr then
          (* unexpected error *)
          run Log LOG_LEVEL_ERR "Failed to sleep for %s using select(): %s";
          select_loop seconds runagent_socket local_run_command sleep_started remaining rounds'
        else if sel =? 0 then
          (* timeout -- slept for the specified time *)
          let remaining := mk_timeval 0 (tv_usec remaining) in
          select_loop seconds runagent_socket local_run_command sleep_started remaining rounds'
        else
          (* runagent_socket ready or signal received (EINTR) *)
          do pending <- IsPendingTermination;
          if pending then ret (Some true)
          else
            run (if sel >? 0 then
                   do data_socket <- accept runagent_socket r;
                   do pid <- fork (rd_fork r);
                   if pid =? 0 then
                     (* child *)
                     run signal SIGPIPE SIG_DFL;
                     run HandleRunagentRequest data_socket local_run_command;
                     _exit EXIT_SUCCESS
                   else if pid =? -1 then
                     (* error *)
                     Log LOG_LEVEL_ERR "Failed to fork runagent request handler: %s"
                   else
                     (* parent: nothing more to do, go back to sleep *)
                     ret tt
                 else ret tt);
            (* remaining.tv_sec = MAX(0, seconds - (time(NULL) - sleep_started)),
               that is ((0) > (seconds - (time(NULL) - sleep_started))
                        ? (0) : (seconds - (time(NULL) - sleep_started))) *)
            do now <- time_after_service r;
            do sec <-
              (if 0 >? seconds - (now - sleep_started) then ret 0
               else
                 do now <- time_again r;
                 ret (seconds - (now - sleep_started)));
            let remaining := mk_timeval sec (tv_usec remaining) in
            select_loop seconds runagent_socket local_run_command sleep_started remaining rounds'
    end.

Definition HandleRequestsOrSleep (seconds : Z) (reason : string)
    (runagent_socket : Z) (local_run_command : option string) (env : SleepEnv) : M bool :=
  do pending <- IsPendingTermination;
  if pending then ret true
  else
    run Log LOG_LEVEL_VERBOSE "Sleeping for %s %ju seconds";
    do early <-
      (if runagent_socket >=? 0 then
         let sleep_started := se_started env in
         let remaining := mk_timeval seconds 0 in
         select_loop seconds runagent_socket local_run_command sleep_started remaining
                     (se_rounds env)
       else
         run sleep seconds (se_sleep env);
         ret None);
    match early with
    | Some b => ret b
    | None =>
        (* We are sleeping above, so make sure a terminating signal did not
           arrive during that time. *)
        do pending <- IsPendingTermination;
        if pending then ret true else ret false
    end.

(* ===================================================================== *)
(** ** The child supervisor and the main loop *)
(* ===================================================================== *)

(** [LocalExec] runs the agent and comes back when it is done; [a] is what
    the signal handlers did meanwhile. *)
Definition LocalExec (cfg : ExecConfig) (a : Async) : M unit :=
  fun w => Ret tt (arrive a (emit (EvLocalExec cfg) w)).

Definition LocalExecInFork (cfg : ExecConfig) (fork_answer : Z) (a : Async) : M Z :=
  run Log LOG_LEVEL_VERBOSE "Forking for exec_command execution";
  do pid <- fork fork_answer;
  if pid =? -1 then
    run Log LOG_LEVEL_ERR "Failed to fork for exec_command execution: %s";
    ret (-1)
  else if pid =? 0 then
    (* child *)
    run LocalExec cfg a;
    run Log LOG_LEVEL_VERBOSE "Finished exec_command execution, terminating the forked process";
    _exit 0
  else
    (* parent *)
    ret pid.

(** What one turn of the main loop finds outside. *)
Record TickEnv : Type := mk_tick_env {
  te_waitpid : list Z;   (* the values of the successive waitpid(-1, NULL, WNOHANG) *)
  te_tick : Tick;
  te_splay : SleepEnv;
  te_fork : Z;           (* the value fork() returned in LocalExecInFork *)
  te_exec : Async;       (* handlers that ran during LocalExec *)
  te_pulse : SleepEnv
}.

(** [while (waitpid(-1, NULL, WNOHANG) > 0)]; with no answer left there is
    no child to collect and [waitpid] returns 0. *)
Fixpoint reap (answers : list Z) : M unit :=
  match answers with
  | [] => effect (EvWaitpid 0)
  | pid :: answers' =>
      run effect (EvWaitpid pid);
      if pid >? 0 then run Log LOG_LEVEL_DEBUG "Reaped child process"; reap answers'
      else ret tt
  end.

(** The body of the [while] of [CFExecdMainLoop]; the boolean is [true]
    when the body leaves the loop with [break]. *)
Definition main_loop_body (g : Globals) (runagent_socket : Z) (te : TickEnv) (d : Daemon)
  : M (bool * Daemon) :=
  (* reap child processes (if any) *)
  run reap (te_waitpid te);
  do sr <- ScheduleRun g (te_tick te) d;
  let '(wake, d) := sr in
  do terminate <-
    (if wake : bool then
       do terminate <- HandleRequestsOrSleep (splay_time (execd_config d)) "splay time"
                         runagent_socket (local_run_command (execd_config d)) (te_splay te);
       if terminate : bool then ret true
       else
         do child_pid <- LocalExecInFork (exec_config d) (te_fork te) (te_exec te);
         run (if child_pid <? 0 then
                run Log LOG_LEVEL_INFO
                      "Unable to run agent in a fork, falling back to blocking execution";
                LocalExec (exec_config d) (te_exec te)
              else ret tt);
         ret false
     else ret false);
  if terminate : bool then ret (true, d)
  else
    (* 1 Minute resolution is enough *)
    do terminate <- HandleRequestsOrSleep CFPULSETIME "pulse time" runagent_socket
                      (local_run_command (execd_config d)) (te_pulse te);
    ret (terminate, d).

Fixpoint main_loop (g : Globals) (runagent_socket : Z) (ticks : list TickEnv) (d : Daemon)
  : M Daemon :=
  do pending <- IsPendingTermination;
  if pending then ret d
  else
    match ticks with
    | [] => fun w => Blocked w
    | te :: ticks' =>
        do r <- main_loop_body g runagent_socket te d;
        let '(stop, d) := r in
        if stop : bool then ret d else main_loop g runagent_socket ticks' d
    end.

Definition CFExecdMainLoop (g : Globals) (runagent_socket : Z) (ticks : list TickEnv) (d : Daemon)
  : M Daemon :=
  do d <- main_loop g runagent_socket ticks d;
  (* Remove the runagent socket (if any). *)
  run (if UsingRunagentSocket g then
         let '(ok, sun_path) := GetRunagentSocketInfo g in
         if ok then effect (EvUnlink sun_path) else ret tt
       else ret tt);
  ret d.

(** The start of [StartServer] on a Unix host, up to [WritePID]: killing
    earlier instances, going to the background, detaching. *)
Definition StartServer_detach (g : Globals) (fork_answer : Z) : M unit :=
  run (if negb (ONCE g)
       then (* Kill previous instances of cf-execd if those are still running *)
            effect EvApoptosis
       else ret tt);
  do leave <-
    (if negb (NO_FORK g)
     then do pid <- fork fork_answer; ret (negb (pid =? 0))
     else ret false);
  if leave : bool then
    run Log LOG_LEVEL_INFO "cf-execd starting %.24s";
    _exit EXIT_SUCCESS
  else
    if negb (NO_FORK g) then effect EvActAsDaemon else ret tt.

End Daemon.

Arguments Ret {C A} a w.
Arguments Exited {C A} code w.
Arguments Blocked {C A} w.

(* ===================================================================== *)
(** ** The command line: [CheckOpts] *)
(* ===================================================================== *)

(** What [getopt_long] hands back, one entry per call: the character of a
    short option (or of a long option that has one), or 0 together with
    the name of the long option found at [longopt_idx]. *)
Inductive Getopt : Type :=
| Short (c : ascii) (optarg : option string)
| LongOnly (name : string) (optarg : option string).

Inductive EvalMode : Type := EVAL_MODE_NORMAL | EVAL_MODE_DRY_RUN.

(** The state outside cf-execd.c that option parsing writes to. *)
Record Ambient : Type := mk_ambient {
  MINUSF : bool;
  EVAL_MODE : EvalMode;
  global_log_level : LogLevel;
  log_timestamps : bool;
  LD_LIBRARY_PATH : option string
}.

Record OptState : Type := mk_opt_state {
  os_globals : Globals;
  os_config : GenericAgentConfig;
  os_ambient : Ambient
}.

Definition with_NO_FORK (b : bool) (g : Globals) : Globals :=
  mk_globals (PERFORM_DB_CHECK g) b (ONCE g) (WINSERVICE g) (RUNAGENT_SOCKET_DIR g).
Definition with_ONCE (b : bool) (g : Globals) : Globals :=
  mk_globals (PERFORM_DB_CHECK g) (NO_FORK g) b (WINSERVICE g) (RUNAGENT_SOCKET_DIR g).
Definition with_WINSERVICE (b : bool) (g : Globals) : Globals :=
  mk_globals (PERFORM_DB_CHECK g) (NO_FORK g) (ONCE g) b (RUNAGENT_SOCKET_DIR g).
Definition with_PERFORM_DB_CHECK (b : bool) (g : Globals) : Globals :=
  mk_globals b (NO_FORK g) (ONCE g) (WINSERVICE g) (RUNAGENT_SOCKET_DIR g).
Definition with_RUNAGENT_SOCKET_DIR (d : option string) (g : Globals) : Globals :=
  mk_globals (PERFORM_DB_CHECK g) (NO_FORK g) (ONCE g) (WINSERVICE g) d.

Definition with_ignore_locks (b : bool) (c : GenericAgentConfig) : GenericAgentConfig :=
  mk_config (input_file c) b (ignore_preferred_augments c) (heap_soft c) (heap_negated c)
            (color c) (last_validated_at c).
Definition with_ignore_preferred_augments (b : bool) (c : GenericAgentConfig)
  : GenericAgentConfig :=
  mk_config (input_file c) (ignore_locks c) b (heap_soft c) (heap_negated c)
            (color c) (last_validated_at c).
Definition with_heap_soft (h : option (gset string)) (c : GenericAgentConfig)
  : GenericAgentConfig :=
  mk_config (input_file c) (ignore_locks c) (ignore_preferred_augments c) h (heap_negated c)
            (color c) (last_validated_at c).
Definition with_heap_negated (h : option (gset string)) (c : GenericAgentConfig)
  : GenericAgentConfig :=
  mk_config (input_file c) (ignore_locks c) (ignore_preferred_augments c) (heap_soft c) h
            (color c) (last_validated_at c).

Definition with_MINUSF (b : bool) (a : Ambient) : Ambient :=
  mk_ambient b (EVAL_MODE a) (global_log_level a) (log_timestamps a) (LD_LIBRARY_PATH a).
Definition with_EVAL_MODE (m : EvalMode) (a : Ambient) : Ambient :=
  mk_ambient (MINUSF a) m (global_log_level a) (log_timestamps a) (LD_LIBRARY_PATH a).
Definition LogSetGlobalLevel (l : LogLevel) (a : Ambient) : Ambient :=
  mk_ambient (MINUSF a) (EVAL_MODE a) l (log_timestamps a) (LD_LIBRARY_PATH a).
Definition LoggingEnableTimestamps (b : bool) (a : Ambient) : Ambient :=
  mk_ambient (MINUSF a) (EVAL_MODE a) (global_log_level a) b (LD_LIBRARY_PATH a).
Definition setenv_LD_LIBRARY_PATH (v : string) (a : Ambient) : Ambient :=
  mk_ambient (MINUSF a) (EVAL_MODE a) (global_log_level a) (log_timestamps a) (Some v).

Definition on_globals (f : Globals -> Globals) (st : OptState) : OptState :=
  mk_opt_state (f (os_globals st)) (os_config st) (os_ambient st).
Definition on_config (f : GenericAgentConfig -> GenericAgentConfig) (st : OptState) : OptState :=
  mk_opt_state (os_globals st) (f (os_config st)) (os_ambient st).
Definition on_ambient (f : Ambient -> Ambient) (st : OptState) : OptState :=
  mk_opt_state (os_globals st) (os_config st) (f (os_ambient st)).

(** The initializers of the file-scope variables of cf-execd.c. *)
Definition initial_globals : Globals :=
  {| PERFORM_DB_CHECK := false;
     NO_FORK := false;
     ONCE := false;
     WINSERVICE := true;
     RUNAGENT_SOCKET_DIR := None |}.

(** The argument of an option declared with [required_argument]:
    [getopt_long] never returns such an option without it. *)
Definition required (optarg : option string) : string :=
  match optarg with Some s => s | None => "" end.

Section CheckOpts.

(** What option parsing calls outside cf-execd.c. *)
Variable GenericAgentConfigNewDefault : GenericAgentConfig.
Variable GenericAgentConfigSetInputFile : GenericAgentConfig -> string -> GenericAgentConfig.
Variable StringSetFromString : string -> ascii -> gset string.
(** [LogSetGlobalLevelArgOrExit] leaves the process when the name is no level *)
Variable LogLevelFromString : string -> option LogLevel.
Variable GenericAgentConfigParseColor :
  GenericAgentConfig -> option string -> option GenericAgentConfig.
Variable GenericAgentConfigParseArguments :
  GenericAgentConfig -> list string -> option GenericAgentConfig.

(** The body of the [switch (c)]: the state after the case, or the code
    the process leaves with.  What the cases print is left out. *)
Definition CheckOpts_case (o : Getopt) (st : OptState) : OptState + Z :=
  match o with
  | Short c optarg =>
      if Ascii.eqb c "f" then
        inl (on_ambient (with_MINUSF true)
               (on_config (fun c => GenericAgentConfigSetInputFile c (required optarg)) st))
      else if Ascii.eqb c "d" then
        inl (on_ambient (LogSetGlobalLevel LOG_LEVEL_DEBUG) st)
      else if Ascii.eqb c "K" then
        inl (on_config (with_ignore_locks true) st)
      else if Ascii.eqb c "D" then
        let defined_classes := StringSetFromString (required optarg) "," in
        inl (on_config (fun c =>
               match heap_soft c with
               | None => with_heap_soft (Some defined_classes) c
               | Some h => with_heap_soft (Some (h ∪ defined_classes)) c
               end) st)
      else if Ascii.eqb c "N" then
        let negated_classes := StringSetFromString (required optarg) "," in
        inl (on_config (fun c =>
               match heap_negated c with
               | None => with_heap_negated (Some negated_classes) c
               | Some h => with_heap_negated (Some (h ∪ negated_classes)) c
               end) st)
      else if Ascii.eqb c "I" then
        inl (on_ambient (LogSetGlobalLevel LOG_LEVEL_INFO) st)
      else if Ascii.eqb c "v" then
        inl (on_globals (with_NO_FORK true)     (* TODO: really? *)
               (on_ambient (LogSetGlobalLevel LOG_LEVEL_VERBOSE) st))
      else if Ascii.eqb c "g" then
        match LogLevelFromString (required optarg) with
        | Some l => inl (on_ambient (LogSetGlobalLevel l) st)
        | None => inr EXIT_FAILURE
        end
      else if Ascii.eqb c "n" then
        inl (on_config (with_ignore_locks true)
               (on_ambient (with_EVAL_MODE EVAL_MODE_DRY_RUN) st))
      else if Ascii.eqb c "L" then
        inl (on_ambient (setenv_LD_LIBRARY_PATH (required optarg)) st)
      else if Ascii.eqb c "W" then
        inl (on_globals (with_WINSERVICE false) st)
      else if Ascii.eqb c "F" then
        inl (on_globals (with_NO_FORK true) st)
      else if Ascii.eqb c "O" then
        inl (on_globals (with_NO_FORK true) (on_globals (with_ONCE true) st))
      else if Ascii.eqb c "V" then inr EXIT_SUCCESS
      else if Ascii.eqb c "h" then inr EXIT_SUCCESS
      else if Ascii.eqb c "M" then inr EXIT_SUCCESS
      else if Ascii.eqb c "x" then inr EXIT_SUCCESS
      else if Ascii.eqb c "C" then
        match GenericAgentConfigParseColor (os_config st) optarg with
        | Some c => inl (on_config (fun _ => c) st)
        | None => inr EXIT_FAILURE
        end
      else if Ascii.eqb c "l" then
        inl (on_ambient (LoggingEnableTimestamps true) st)
      else
        (* default: *)
        inr EXIT_FAILURE
  | LongOnly option_name optarg =>
      if String.eqb option_name "ignore-preferred-augments" then
        inl (on_config (with_ignore_preferred_augments true) st)
      else if String.eqb option_name "skip-db-check" then
        match optarg with
        | None => inl (on_globals (with_PERFORM_DB_CHECK false) st)
        | Some a =>
            if StringEqual_IgnoreCase a "yes" then
              inl (on_globals (with_PERFORM_DB_CHECK false) st)
            else if StringEqual_IgnoreCase a "no" then
              inl (on_globals (with_PERFORM_DB_CHECK true) st)
            else inr EXIT_FAILURE
        end
      else if String.eqb option_name "with-runagent-socket" then
        inl (on_globals (with_RUNAGENT_SOCKET_DIR (Some (required optarg))) st)
      else inl st
  end.

(** The [while ((c = getopt_long(...)) != -1)] loop. *)
Fixpoint getopt_loop (opts : list Getopt) (st : OptState) : OptState + Z :=
  match opts with
  | [] => inl st
  | o :: opts' =>
      match CheckOpts_case o st with
      | inl st' => getopt_loop opts' st'
      | inr code => inr code
      end
  end.

(** [CheckOpts]: [opts] is what [getopt_long] finds in [argv], [operands]
    what is left from [optind] on, [a] the state of the rest of the
    program when parsing starts. *)
Definition CheckOpts (a : Ambient) (opts : list Getopt) (operands : list string)
  : OptState + Z :=
  let config := GenericAgentConfigNewDefault in
  match getopt_loop opts (mk_opt_state initial_globals config a) with
  | inl st =>
      match GenericAgentConfigParseArguments (os_config st) operands with
      | Some config => inl (on_config (fun _ => config) st)
      | None => inr EXIT_FAILURE     (* Too many arguments *)
      end
  | inr code => inr code
  end.

End CheckOpts.

(* ===================================================================== *)
(** ** A small host to run the daemon on

    Collaborators simple enough to compute with: a context is the set of
    its classes, a policy is the executor control body it yields, the disk
    says when the policy was validated, whether it is valid, what it
    contains and whether ACLs can be set. *)
(* ===================================================================== *)

Record SampleDisk : Type := mk_sample_disk {
  sd_validated_at : Z;
  sd_valid : bool;
  sd_policy : ExecdConfig;
  sd_acl_ok : bool
}.

(** The five-minute class of a time of day, [Min00_05] to [Min55_00]. *)
Definition sample_minute_class (t : Z) : string :=
  nth (Z.to_nat ((t / 60) mod 60 / 5))
      ["Min00_05"; "Min05_10"; "Min10_15"; "Min15_20"; "Min20_25"; "Min25_30";
       "Min30_35"; "Min35_40"; "Min40_45"; "Min45_50"; "Min50_55"; "Min55_00"]
      "Min00_05".

Definition sample_host : Collaborators := {|
  EvalContext := gset string;
  Policy := ExecdConfig;
  ExecConfig := bool;
  Disk := SampleDisk;
  IsDefinedClass := fun ctx c => bool_decide (c ∈ ctx);
  EvalContextClear := fun _ => ∅;
  EvalContextSetPolicyServerFromFile := fun ctx _ => ctx;
  UpdateLastPolicyUpdateTime := fun ctx => ctx;
  DetectEnvironment := fun ctx => ctx ∪ {["linux"]};
  GenericAgentDiscoverContext := fun ctx cfg _ => (ctx ∪ {["any"]}, cfg);
  EvalContextClassPutHard := fun ctx c _ => ctx ∪ {[c]};
  UpdateTimeClasses := fun ctx t => ctx ∪ {[sample_minute_class t]};
  GenericAgentConfigSetBundleSequence := fun cfg => cfg;
  ReadTimestampFromPolicyValidatedFile := fun disk _ => sd_validated_at disk;
  GenericAgentArePromisesValid := fun disk _ => sd_valid disk;
  LoadPolicy := fun disk ctx cfg => (sd_policy disk, ctx, cfg);
  ExecConfigNew := fun scheduled_run _ _ => scheduled_run;
  ExecdConfigNew := fun _ p => p;
  AllowAccessForUsers := fun disk _ _ _ _ => sd_acl_ok disk;
  IsFileSep := unix_IsFileSep;
  IsAbsoluteFileName := unix_IsAbsoluteFileName;
  GetStateDir := "/var/cfengine/state";
  GetWorkDir := "/var/cfengine";
  CF_AGENTTYPES_EXECUTOR := "executor";
  SUN_PATH_SIZE := 108
|}.

Definition sample_config : GenericAgentConfig :=
  {| input_file := "promises.cf";
     ignore_locks := false;
     ignore_preferred_augments := false;
     heap_soft := None;
     heap_negated := None;
     color := false;
     last_validated_at := 1000 |}.

Definition sample_execd (sched users : list string) (splay : Z) : ExecdConfig :=
  {| schedule := list_to_set sched;
     splay_time := splay;
     local_run_command := None;
     runagent_allow_users := list_to_set users;
     log_facility := "LOG_USER" |}.

Definition sample_daemon (sched users : list string) (splay : Z) : @Daemon sample_host :=
  let e := sample_execd sched users splay in
  @mk_daemon sample_host ∅ e sample_config e true.

Definition sample_world : @World sample_host :=
  @mk_world sample_host false false SIG_IGN [] [].

(** [w] with [evs] added at the end of its trace. *)
Definition emits `{C : Collaborators} (evs : list Event) (w : World) : World :=
  {| termination_pending := termination_pending w;
     reload_requested := reload_requested w;
     sigpipe := sigpipe w;
     open_fds := open_fds w;
     trace := trace w ++ evs |}.

(** What makes [CheckNewPromises] look at the policy again. *)
Definition reload_triggered `{C : Collaborators} (disk : Disk) (cfg : GenericAgentConfig) (w : World) : Prop :=
  last_validated_at cfg < ReadTimestampFromPolicyValidatedFile disk cfg \/
  reload_requested w = true.

(** What [GenericAgentArePromisesValid] answers when it is asked, which is
    after the timestamp has been stored. *)
Definition promises_valid `{C : Collaborators} (disk : Disk) (cfg : GenericAgentConfig) : bool :=
  GenericAgentArePromisesValid disk
    (set_last_validated_at cfg (ReadTimestampFromPolicyValidatedFile disk cfg)).

(** Events that only write to the log or ask whether the policy is valid. *)
Definition quiet_event `{C : Collaborators} (e : Event) : Prop :=
  match e with
  | EvLog _ _ | EvArePromisesValid _ => True
  | _ => False
  end.

(** Events of the renewal of the ACL: calls of [AllowAccessForUsers], log
    lines, and the release of the old allow-list. *)
Definition acl_event `{C : Collaborators} (e : Event) : Prop :=
  match e with
  | EvLog _ _ | EvAllowAccessForUsers _ _ _ _ | EvStringSetDestroy _ => True
  | _ => False
  end.

(** Some call of [AllowAccessForUsers] is among [evs]. *)
Definition acl_applied `{C : Collaborators} (evs : list Event) : Prop :=
  exists path users rw rx, In (EvAllowAccessForUsers path users rw rx) evs.

(** The value [SetRunagentSocketACLs] returns (see [SetRunagentSocketACLs_spec]). *)
Definition acl_succeeds `{C : Collaborators} (disk : Disk) (path : string) (users : gset string)
  : bool :=
  AllowAccessForUsers disk path users true false &&
  AllowAccessForUsers disk (ChopLastNode path) users false true.


(** A host started with [--with-runagent-socket] pointing at a directory
    whose name is 100 characters long, a policy on disk that was validated
    at 2000 and allows alice only, and a daemon that still runs the policy
    validated at 1000, which allowed alice and bob. *)
Definition long_socket_dir : string :=
  "/var/cfengine/state/0123456789012345678901234567890123456789012345678901234567890123456789012345678".

Definition long_dir_globals : Globals :=
  {| PERFORM_DB_CHECK := false;
     NO_FORK := true;
     ONCE := false;
     WINSERVICE := true;
     RUNAGENT_SOCKET_DIR := Some long_socket_dir |}.

Definition narrowed_disk (valid : bool) : SampleDisk :=
  {| sd_validated_at := 2000;
     sd_valid := valid;
     sd_policy := sample_execd ["Min00_05"] ["alice"] 30;
     sd_acl_ok := true |}.

Definition narrowed_tick (valid : bool) : @Tick sample_host :=
  @mk_tick sample_host (narrowed_disk valid) 120.

(** [select] came back because the socket is readable or because a signal
    handler ran: neither the error branch nor the timeout branch of the
    loop is taken. *)
Definition select_woke (r : Round) : bool :=
  negb ((rd_ret r =? -1) && negb (rd_eintr r)) && negb (rd_ret r =? 0).

(** The world of the parent after it has accepted the connection of round
    [r] and forked the handler. *)
Definition handed_over `{C : Collaborators} (runagent_socket : Z) (r : Round) (w : World)
  : World :=
  let w := emit (EvFork (rd_fork r))
             (add_fd (rd_accept r) (emit (EvAccept runagent_socket (rd_accept r)) w)) in
  if rd_fork r =? -1
  then emit (EvLog LOG_LEVEL_ERR "Failed to fork runagent request handler: %s") w
  else w.

(** The world in which the forked handler leaves with [_exit]. *)
Definition handler_exit `{C : Collaborators} (runagent_socket : Z)
    (local_run_command : option string) (r : Round) (w : World) : World :=
  let w := emit (EvFork (rd_fork r))
             (add_fd (rd_accept r) (emit (EvAccept runagent_socket (rd_accept r)) w)) in
  emit (EvHandleRunagentRequest (rd_accept r) local_run_command)
    (emit (EvSignal SIGPIPE SIG_DFL)
       {| termination_pending := termination_pending w;
          reload_requested := reload_requested w;
          sigpipe := SIG_DFL;
          open_fds := open_fds w;
          trace := trace w |}).

(** What [remaining.tv_sec] is set to at the end of a pass of round [r] in
    which [select] woke: the operand of [MAX] is evaluated with the first
    reading of the clock for the comparison and, when it is the one chosen,
    once more with the second reading. *)
Definition seconds_left (seconds sleep_started : Z) (r : Round) : Z :=
  if 0 >? seconds - (rd_now r - sleep_started) then 0
  else seconds - (rd_now2 r - sleep_started).

(** Option parsing on the small host. *)
Definition sample_ambient : Ambient :=
  {| MINUSF := false;
     EVAL_MODE := EVAL_MODE_NORMAL;
     global_log_level := LOG_LEVEL_NOTICE;
     log_timestamps := false;
     LD_LIBRARY_PATH := None |}.

Definition sample_set_input_file (c : GenericAgentConfig) (f : string) : GenericAgentConfig :=
  mk_config f (ignore_locks c) (ignore_preferred_augments c) (heap_soft c) (heap_negated c)
            (color c) (last_validated_at c).

Definition sample_log_level (name : string) : option LogLevel :=
  if String.eqb name "error" then Some LOG_LEVEL_ERR
  else if String.eqb name "warning" then Some LOG_LEVEL_WARNING
  else if String.eqb name "notice" then Some LOG_LEVEL_NOTICE
  else if String.eqb name "info" then Some LOG_LEVEL_INFO
  else if String.eqb name "verbose" then Some LOG_LEVEL_VERBOSE
  else if String.eqb name "debug" then Some LOG_LEVEL_DEBUG
  else None.

Definition sample_parse_arguments (c : GenericAgentConfig) (operands : list string)
  : option GenericAgentConfig :=
  match operands with
  | [] => Some c
  | [f] => Some (sample_set_input_file c f)
  | _ => None
  end.

Definition sample_CheckOpts : Ambient -> list Getopt -> list string -> OptState + Z :=
  CheckOpts sample_config sample_set_input_file (fun s _ => {[s]}) sample_log_level
            (fun c _ => Some c) sample_parse_arguments.

(** Two parser states that differ at most in [NO_FORK]. *)
Definition same_but_NO_FORK (st1 st2 : OptState) : Prop :=
  on_globals (with_NO_FORK true) st1 = on_globals (with_NO_FORK true) st2.

(** The process stays in the foreground: [StartServer_detach] returns
    without having forked or detached. *)
Definition stays_in_foreground `{C : Collaborators} (g : Globals) : Prop :=
  forall (fork_answer : Z) (w : World),
  exists evs,
    StartServer_detach g fork_answer w = Ret tt (emits evs w) /\
    forall e, In e evs -> e = EvApoptosis.

(** What [reload_acl] guarantees about the events [evs] it adds when the
    allow-list was [old] and the new configuration is [new]. *)
Definition acl_renewed `{C : Collaborators} (g : Globals) (disk : Disk) (old : gset string) (new : ExecdConfig)
    (evs : list Event) : Prop :=
  Forall acl_event evs /\
  (acl_applied evs <->
     UsingRunagentSocket g = true /\ old <> runagent_allow_users new /\
     fst (GetRunagentSocketInfo g) = true) /\
  (acl_applied evs ->
     In (EvAllowAccessForUsers (snd (GetRunagentSocketInfo g))
                               (runagent_allow_users new) true false) evs /\
     (acl_succeeds disk (snd (GetRunagentSocketInfo g)) (runagent_allow_users new) = false ->
      In (EvLog LOG_LEVEL_ERR
            "Failed to allow new runagent_socket_allow_users users access the runagent socket (on policy reload)")
         evs)) /\
  (UsingRunagentSocket g = true -> old <> runagent_allow_users new ->
   fst (GetRunagentSocketInfo g) = false ->
   In (EvLog LOG_LEVEL_ERR "Failed to get runagent.socket path") evs).

(** A splay sleep of 30 seconds on a listening socket 5 that starts at
    1000: a client connects three seconds in ([accept] answers 7, [fork]
    answers the pid 4242 of the handler), then [select] runs into its
    timeout. *)
Definition request_round : Round :=
  {| rd_async := quiet;
     rd_ret := 1;
     rd_eintr := false;
     rd_left := mk_timeval 26 600000;
     rd_accept := 7;
     rd_fork := 4242;
     rd_service := quiet;
     rd_now := 1003;
     rd_now2 := 1003 |}.

Definition timeout_round : Round :=
  {| rd_async := quiet;
     rd_ret := 0;
     rd_eintr := false;
     rd_left := mk_timeval 0 0;
     rd_accept := -1;
     rd_fork := -1;
     rd_service := quiet;
     rd_now := 1030;
     rd_now2 := 1030 |}.

(** [select] is interrupted by a signal whose handler raises the
    termination flag. *)
Definition terminate_round : Round :=
  {| rd_async := mk_async true false;
     rd_ret := -1;
     rd_eintr := true;
     rd_left := mk_timeval 50 0;
     rd_accept := -1;
     rd_fork := -1;
     rd_service := quiet;
     rd_now := 1010;
     rd_now2 := 1010 |}.

Definition request_env : SleepEnv :=
  {| se_started := 1000; se_rounds := [request_round; timeout_round]; se_sleep := quiet |}.

Definition quiet_env : SleepEnv :=
  {| se_started := 1000; se_rounds := [timeout_round]; se_sleep := quiet |}.

Definition terminate_env : SleepEnv :=
  {| se_started := 1000; se_rounds := [terminate_round]; se_sleep := mk_async true false |}.

(** A turn of the main loop at 00:02 with the schedule [Min00_05], no
    listener, and a [fork] that fails. *)
Definition fork_failure_turn : @TickEnv sample_host :=
  @mk_tick_env sample_host [] (@mk_tick sample_host (narrowed_disk true) 120)
               quiet_env (-1) quiet quiet_env.

Definition stale_daemon : @Daemon sample_host :=
  let e := sample_execd ["Min00_05"] ["alice"] 30 in
  @mk_daemon sample_host ∅ e
    (mk_config "promises.cf" false false None None false 2000) e true.

(** The world of the small host with the termination flag set. *)
Definition terminating_world : @World sample_host :=
  @mk_world sample_host true false SIG_IGN [] [].

(** What [cf-execd -v -K] leaves behind. *)
Definition verbose_state : OptState :=
  {| os_globals := with_NO_FORK true initial_globals;
     os_config := with_ignore_locks true sample_config;
     os_ambient := LogSetGlobalLevel LOG_LEVEL_VERBOSE sample_ambient |}.

(** The text [GetRunagentSocketInfo] asks [snprintf] to write. *)
Definition runagent_socket_text `{C : Collaborators} (g : Globals) : string :=
  match RUNAGENT_SOCKET_DIR g with
  | None => GetStateDir ++ "/cf-execd.sockets/" ++ CF_EXECD_RUNAGENT_SOCKET_NAME
  | Some dir => dir ++ "/" ++ CF_EXECD_RUNAGENT_SOCKET_NAME
  end.

(** A socket directory of 91 characters: with "/runagent.socket" the path
    is 107 characters long, one more than fits into [sun_path] before the
    terminator. *)
Definition edge_socket_dir : string :=
  "/var/cfengine/state/01234567890123456789012345678901234567890123456789012345678901234567890".

Definition edge_dir_globals : Globals :=
  {| PERFORM_DB_CHECK := false;
     NO_FORK := true;
     ONCE := false;
     WINSERVICE := true;
     RUNAGENT_SOCKET_DIR := Some edge_socket_dir |}.

(** The options whose case sets [NO_FORK]: [-v], [-F] and [-O]. *)
Definition sets_NO_FORK (o : Getopt) : bool :=
  match o with
  | Short c _ => Ascii.eqb c "v" || Ascii.eqb c "F" || Ascii.eqb c "O"
  | LongOnly _ _ => false
  end.

(** The option whose case sets [ONCE]: [-O]. *)
Definition sets_ONCE (o : Getopt) : bool :=
  match o with
  | Short c _ => Ascii.eqb c "O"
  | LongOnly _ _ => false
  end.

(** The options that print something and leave: [-V], [-h], [-M], [-x]. *)
Definition informational (o : Getopt) : bool :=
  match o with
  | Short c _ => Ascii.eqb c "V" || Ascii.eqb c "h" || Ascii.eqb c "M" || Ascii.eqb c "x"
  | LongOnly _ _ => false
  end.

(** [--skip-db-check=no], in any spelling of "no". *)
Definition asks_for_db_check (o : Getopt) : bool :=
  match o with
  | LongOnly name (Some a) => String.eqb name "skip-db-check" && StringEqual_IgnoreCase a "no"
  | _ => false
  end.

(* ===================================================================== *)
(** ** Starting up: [Apoptosis] and [SetupRunagentSocket] *)
(* ===================================================================== *)

Section Startup.

Context `{C : Collaborators}.

(** What the start of the server does that can be seen from outside: the
    events the daemon knows later on, and the calls made only here. *)
Inductive StartupEvent : Type :=
| EvDaemon (e : Event)
| EvMakeParentDirectory (path : string) (force : bool)
| EvChmod (path : string) (mode : Z)
| EvSocket (ret : Z)
| EvBind (fd : Z) (path : string) (ret : Z)
| EvListen (fd : Z) (backlog : Z) (ret : Z)
| EvLoadProcessTable (ret : bool)
| EvKill (pid : Z) (sig : Signal) (ret : Z)
| EvClearProcessTable.

(** *** [Apoptosis] *)

(** An entry of the list [SelectProcesses] hands back, with what [kill]
    answers should it be called for it: its return value and whether
    [errno] is [ESRCH]. *)
Record KillEntry : Type := mk_kill_entry {
  ke_pid : Z;
  ke_kill : Z;
  ke_esrch : bool
}.

(** The process table as [Apoptosis] finds it: whether it can be loaded,
    the processes named cf-execd of the same owner, and the own pid. *)
Record ProcessTable : Type := mk_process_table {
  pt_load : bool;
  pt_killlist : list KillEntry;
  pt_getpid : Z
}.

(** The [for (Item *ip = killlist; ip != NULL; ip = ip->next)] loop. *)
Fixpoint kill_loop (getpid : Z) (killlist : list KillEntry) : list StartupEvent :=
  match killlist with
  | [] => []
  | ip :: next =>
      let pid := ke_pid ip in
      ((if negb (pid =? getpid) then
         EvKill pid SIGTERM (ke_kill ip) ::
         (if ke_kill ip <? 0 then
            if ke_esrch ip then
              (* That's ok, process exited voluntarily *)
              []
            else
              [EvDaemon (EvLog LOG_LEVEL_ERR
                           "Unable to kill stale cf-execd process pid=%d. (kill: %s)")]
          else [])
       else [])
      ++ kill_loop getpid next)%list
  end.

Definition Apoptosis (pt : ProcessTable) : list StartupEvent :=
  (EvLoadProcessTable (pt_load pt) ::
   (if pt_load pt then kill_loop (pt_getpid pt) (pt_killlist pt) else [])
   ++ [EvClearProcessTable; EvDaemon (EvLog LOG_LEVEL_VERBOSE "Pruning complete")])%list.

(** *** [SetupRunagentSocket] *)

(** A computation that adds to the events and either has a value or has
    stopped the process: a failed [assert], a write through a null
    pointer, or the ways a function of the daemon does not return. *)
Inductive Stop : Type := AssertionFailed | NullPointer | Left (code : Z) | Waiting.

Definition Setup (A : Type) : Type := list StartupEvent * (A + Stop).

Definition sret {A} (a : A) : Setup A := ([], inl a).

Definition sbind {A B} (m : Setup A) (k : A -> Setup B) : Setup B :=
  match m with
  | (evs, inl a) => let '(evs', r) := k a in ((evs ++ evs')%list, r)
  | (evs, inr stop) => (evs, inr stop)
  end.

Notation "'do' x <- m ; k" := (sbind m (fun x => k))
  (at level 10, x name, m at level 100, k at level 200).
Notation "'run' m ; k" := (sbind m (fun _ => k))
  (at level 10, m at level 100, k at level 200).

Definition call (e : StartupEvent) : Setup unit := ([e], inl tt).
Definition slog (level : LogLevel) (fmt : string) : Setup unit := call (EvDaemon (EvLog level fmt)).
Definition stop {A} (s : Stop) : Setup A := ([], inr s).

(** [assert(e)]: nothing when it holds or when [NDEBUG] is defined. *)
Definition assert (NDEBUG : bool) (e : bool) : Setup unit :=
  if NDEBUG || e then sret tt else stop AssertionFailed.

(** A function of the daemon run at the start, before any signal has
    been caught and any descriptor opened. *)
Definition daemon {A} (m : M A) : Setup A :=
  match m (mk_world false false SIG_DFL [] []) with
  | Ret a w => (map EvDaemon (trace w), inl a)
  | Exited code w => (map EvDaemon (trace w), inr (Left code))
  | Blocked w => (map EvDaemon (trace w), inr Waiting)
  end.

(** [strrchr(s, c)] as the offset of the last [c] in [s]. *)
Fixpoint strrchr (s : string) (c : ascii) : option nat :=
  match s with
  | EmptyString => None
  | String x s' =>
      match strrchr s' c with
      | Some i => Some (S i)
      | None => if Ascii.eqb x c then Some 0%nat else None
      end
  end.

Definition CF_EXECD_RUNAGENT_SOCKET_LISTEN_QUEUE : Z := 5.

(** What [SetupRunagentSocket] finds outside. *)
Record SocketEnv : Type := mk_socket_env {
  so_disk : Disk;
  so_created : bool;     (* what MakeParentDirectory() stores in created *)
  so_socket : Z;         (* the value socket() returns *)
  so_bind : Z;           (* the value bind() returns *)
  so_listen : Z;         (* the value listen() returns *)
  so_NDEBUG : bool       (* whether the asserts are compiled out *)
}.

Definition SetupRunagentSocket (g : Globals) (env : SocketEnv) (execd_config : ExecdConfig)
  : Setup Z :=
  let runagent_socket := -1 in
  let '(ok, sun_path) := GetRunagentSocketInfo g in
  do runagent_socket <-
    (if ok then
       run call (EvMakeParentDirectory sun_path true);
       (* Make sure the permissions are correct if the directory was created *)
       run (if so_created env then
              match strrchr sun_path "/" with
              | Some last_slash => call (EvChmod (substring 0 last_slash sun_path) 488)
              | None => stop NullPointer
              end
            else sret tt);
       (* Remove potential left-overs from old processes. *)
       run call (EvDaemon (EvUnlink sun_path));
       let runagent_socket := so_socket env in
       run call (EvSocket runagent_socket);
       run assert (so_NDEBUG env) (runagent_socket >=? 0);
       sret runagent_socket
     else sret runagent_socket);
  if runagent_socket <? 0 then
    run slog LOG_LEVEL_ERR "Failed to create socket for runagent requests";
    sret runagent_socket
  else
    let ret := so_bind env in
    run call (EvBind runagent_socket sun_path ret);
    run assert (so_NDEBUG env) (ret =? 0);
    do runagent_socket <-
      (if ret =? -1 then
         run slog LOG_LEVEL_ERR "Failed to bind the runagent socket: %s";
         run call (EvDaemon (EvClose runagent_socket));
         sret (-1)
       else
         let ret := so_listen env in
         run call (EvListen runagent_socket CF_EXECD_RUNAGENT_SOCKET_LISTEN_QUEUE ret);
         run assert (so_NDEBUG env) (ret =? 0);
         if ret =? -1 then
           run slog LOG_LEVEL_ERR "Failed to listen on runagent socket: %s";
           run call (EvDaemon (EvClose runagent_socket));
           sret (-1)
         else sret runagent_socket);
    run (if (0 <? size (runagent_allow_users execd_config))%nat then
           do success <- daemon (SetRunagentSocketACLs (so_disk env) sun_path
                                   (runagent_allow_users execd_config));
           if negb success then
             slog LOG_LEVEL_ERR
               "Failed to allow runagent_socket_allow_users users access the runagent socket"
             (* keep going anyway *)
           else sret tt
         else sret tt);
    sret runagent_socket.

End Startup.

(** The pids [kill] was called for, in the order of the calls. *)
Definition signalled `{C : Collaborators} (evs : list StartupEvent) : list Z :=
  flat_map (fun e => match e with EvKill pid _ _ => [pid] | _ => [] end) evs.

(** The error lines among the events. *)
Definition error_lines `{C : Collaborators} (evs : list StartupEvent) : list string :=
  flat_map (fun e => match e with EvDaemon (EvLog LOG_LEVEL_ERR fmt) => [fmt] | _ => [] end)
           evs.

(** The entries for which [kill] fails for a reason other than the
    process being gone already. *)
Definition kill_refused (getpid : Z) (ip : KillEntry) : bool :=
  negb (ke_pid ip =? getpid) && (ke_kill ip <? 0) && negb (ke_esrch ip).

(** The calls of [AllowAccessForUsers] among the events. *)
Definition startup_acl_calls `{C : Collaborators} (evs : list StartupEvent) : list Event :=
  flat_map (fun e => match e with
                     | EvDaemon (EvAllowAccessForUsers p u rw rx) =>
                         [EvAllowAccessForUsers p u rw rx]
                     | _ => []
                     end) evs.

(** The calls that touch the file system or make a socket. *)
Definition touches_system `{C : Collaborators} (e : StartupEvent) : bool :=
  match e with
  | EvDaemon (EvLog _ _) => false
  | _ => true
  end.

(** The directory the runagent socket is in. *)
Definition runagent_socket_directory `{C : Collaborators} (g : Globals) : string :=
  match RUNAGENT_SOCKET_DIR g with
  | None => GetStateDir ++ "/cf-execd.sockets"
  | Some dir => dir
  end.

(** A string that holds no terminator. *)
Definition c_string (s : list ascii) : Prop := ~ In files_names.NUL s.

(** No separator of [s] follows a separator. *)
Fixpoint no_redundant_separators (IsFileSep : ascii -> bool) (s : list ascii) : Prop :=
  match s with
  | [] => True
  | c :: s' =>
      match s' with
      | [] => True
      | c' :: _ => ~ (IsFileSep c = true /\ IsFileSep c' = true)
      end /\ no_redundant_separators IsFileSep s'
  end.

(** [s] without the separators that follow a separator; [prev] says
    whether a separator comes right before [s]. *)
Fixpoint squeeze (IsFileSep : ascii -> bool) (prev : bool) (s : list ascii) : list ascii :=
  match s with
  | [] => []
  | c :: s' =>
      if IsFileSep c
      then if prev then squeeze IsFileSep true s' else c :: squeeze IsFileSep true s'
      else c :: squeeze IsFileSep false s'
  end.

(** The number of characters at the start of [l] that satisfy [P]. *)
Fixpoint leading (P : ascii -> bool) (l : list ascii) : nat :=
  match l with
  | c :: l' => if P c then S (leading P l') else O
  | [] => O
  end.

(** [select] fails with an error that is not [EINTR] and leaves the
    timeout as it was, while a handler raises the termination flag. *)
Definition failing_round : Round :=
  {| rd_async := mk_async true false;
     rd_ret := -1;
     rd_eintr := false;
     rd_left := mk_timeval 60 0;
     rd_accept := -1;
     rd_fork := -1;
     rd_service := quiet;
     rd_now := 1000;
     rd_now2 := 1000 |}.

(** A client connects and this process is the forked handler. *)
Definition child_round : Round :=
  {| rd_async := quiet;
     rd_ret := 1;
     rd_eintr := false;
     rd_left := mk_timeval 26 600000;
     rd_accept := 7;
     rd_fork := 0;
     rd_service := quiet;
     rd_now := 1003;
     rd_now2 := 1003 |}.

(** Turns of the main loop at 00:02 with the schedule [Min00_05] and no
    listener: one in which the termination signal comes during the splay
    wait, one seen from the forked child, one seen from the parent. *)
Definition splay_terminate_turn : @TickEnv sample_host :=
  @mk_tick_env sample_host [] (@mk_tick sample_host (narrowed_disk true) 120)
               terminate_env 4243 quiet quiet_env.

Definition forked_child_turn : @TickEnv sample_host :=
  @mk_tick_env sample_host [] (@mk_tick sample_host (narrowed_disk true) 120)
               quiet_env 0 quiet quiet_env.

Definition parent_turn : @TickEnv sample_host :=
  @mk_tick_env sample_host [] (@mk_tick sample_host (narrowed_disk true) 120)
               quiet_env 4243 quiet quiet_env.

(** The daemon [stale_daemon] is after the tick at 00:02. *)
Definition ticked_daemon : @Daemon sample_host :=
  @mk_daemon sample_host (∅ ∪ {["linux"]} ∪ {["Min00_05"]})
             (policy stale_daemon) (config stale_daemon) (execd_config stale_daemon) true.

(** What [SetupRunagentSocket] can find: everything going well in a build
    with the assertions on, and a [bind] that fails in a build without
    them. *)
Definition sample_socket_env : @SocketEnv sample_host :=
  @mk_socket_env sample_host (narrowed_disk true) true 5 0 0 false.

Definition bind_failure_env : @SocketEnv sample_host :=
  @mk_socket_env sample_host (narrowed_disk true) false 5 (-1) 0 true.

(** Path names on a Unix host. *)
Definition socket_path_dir : list ascii :=
  list_ascii_of_string "/var/cfengine/state/cf-execd.sockets".

Definition socket_path_leaf : list ascii := list_ascii_of_string "runagent.socket".

Definition doubled_path : list ascii := list_ascii_of_string "/var//cfengine///state/".

(** *** The passes of the multiplexed sleep *)

(** A round in which the loop goes round as the parent: [select] came back
    ready or interrupted, no handler has raised the termination flag, and
    the process is not the forked handler. *)
Definition parent_round (r : Round) : bool :=
  select_woke r
  && negb (async_term (rd_async r)) && negb (async_term (rd_service r))
  && negb ((rd_ret r >? 0) && (rd_fork r =? 0)).

(** The timeout the loop goes on with after a round in which [select]
    woke: the seconds are set anew, the microseconds are what [select]
    left. *)
Definition next_timeout (seconds sleep_started : Z) (r : Round) : timeval :=
  mk_timeval (seconds_left seconds sleep_started r) (tv_usec (rd_left r)).

(** The timeout and the world the parent goes on with after the pass of
    round [r], started with the timeout and in the world of [st]. *)
Definition pass `{C : Collaborators} (seconds runagent_socket sleep_started : Z)
    (st : timeval * World) (r : Round) : timeval * World :=
  let w1 := arrive (rd_async r) (emit (EvSelect (runagent_socket + 1) (fst st)) (snd st)) in
  (next_timeout seconds sleep_started r,
   arrive (rd_service r) (if rd_ret r >? 0 then handed_over runagent_socket r w1 else w1)).

Definition passes `{C : Collaborators} (seconds runagent_socket sleep_started : Z)
    (rounds : list Round) (st : timeval * World) : timeval * World :=
  fold_left (pass seconds runagent_socket sleep_started) rounds st.

(** The timeouts [select] was called with, in the order of the calls. *)
Definition select_timeouts `{C : Collaborators} (evs : list Event) : list timeval :=
  flat_map (fun e => match e with EvSelect _ tv => [tv] | _ => [] end) evs.

(** A pulse sleep of 60 seconds on the listening socket 5 that starts at
    1000: a client connects 3.4 seconds in, and the termination signal
    arrives while the parent hands the connection over, after it has
    looked at the flag; the next [select] runs into its timeout. *)
Definition late_signal_round : Round :=
  {| rd_async := quiet;
     rd_ret := 1;
     rd_eintr := false;
     rd_left := mk_timeval 56 600000;
     rd_accept := 7;
     rd_fork := 4242;
     rd_service := mk_async true false;
     rd_now := 1003;
     rd_now2 := 1003 |}.

Definition late_signal_env : SleepEnv :=
  {| se_started := 1000; se_rounds := [late_signal_round; timeout_round]; se_sleep := quiet |}.

(** [select] is interrupted by a handler that raises the termination flag
    after two clients have been served. *)
Definition busy_terminate_env : SleepEnv :=
  {| se_started := 1000;
     se_rounds := [request_round; request_round; terminate_round; timeout_round];
     se_sleep := quiet |}.





(** A daemon on the small host with nothing in its schedule. *)
Definition idle_daemon : @Daemon sample_host :=
  let e := sample_execd [] ["alice"] 30 in
  @mk_daemon sample_host ∅ e
    (mk_config "promises.cf" false false None None false 2000) e true.

(** A turn of the main loop at 00:02 with the schedule [Min00_05] in which
    the agent is launched and the termination signal comes during the
    pulse sleep. *)
Definition pulse_terminate_turn : @TickEnv sample_host :=
  @mk_tick_env sample_host [] (@mk_tick sample_host (narrowed_disk true) 120)
               quiet_env 4243 quiet terminate_env.



(* ===================================================================== *)
(** ** Properties *)
(* ===================================================================== *)

Section Properties.

Context `{C : Collaborators}.

Lemma emit_emits (e : Event) (w : World) : emit e w = emits [e] w.
Proof. reflexivity. Qed.

Lemma emits_emits (evs1 evs2 : list Event) (w : World) :
  emits evs2 (emits evs1 w) = emits (evs1 ++ evs2) w.
Proof. unfold emits; simpl. now rewrite <- app_assoc. Qed.

Lemma emits_nil (w : World) : emits [] w = w.
Proof. destruct w; unfold emits; simpl. now rewrite app_nil_r. Qed.

Lemma emits_inj (evs1 evs2 : list Event) (w : World) :
  emits evs1 w = emits evs2 w -> evs1 = evs2.
Proof. intros H. apply (f_equal trace) in H. simpl in H. now apply app_inv_head in H. Qed.

Lemma emits_inj_nil (evs : list Event) (w : World) : w = emits evs w -> evs = [].
Proof. intros H. rewrite <- (emits_nil w) in H at 1. symmetry. now apply emits_inj in H. Qed.

(** *** Tactics for running the monad *)

Ltac unfold_m :=
  unfold Log, fork, HandleRunagentRequest in *;
  unfold bind, ret, effect, _exit, IsPendingTermination, ReloadConfigRequested,
    ClearRequestReloadConfig, signal, accept, select, sleep,
    time_after_service, time_again, LocalExec in *.

(** Closes [trace w' = trace w ++ ?evs] once [w'] is an explicit world. *)
Ltac trace_eq :=
  simpl; rewrite <- ?app_assoc; simpl; reflexivity.

(** *** The scan of the schedule *)

Lemma schedule_scan_spec (c : EvalContext) (it : list string) (w : World) :
  schedule_scan c it w
  = Ret (existsb (IsDefinedClass c) it)
        (emits (if existsb (IsDefinedClass c) it
                then [EvLog LOG_LEVEL_VERBOSE "Waking up the agent at %s ~ %s"] else []) w).
Proof.
  induction it as [|tc it IH]; simpl.
  - unfold ret. now rewrite emits_nil.
  - destruct (IsDefinedClass c tc); simpl; [reflexivity | exact IH].
Qed.

(** *** The reload controller *)

Lemma Ret_inj {A} (a a' : A) (w w' : World) : Ret a w = Ret a' w' -> a = a' /\ w = w'.
Proof. intros H. injection H as -> ->. now split. Qed.

Lemma bind_Ret {A B} (m : M A) (k : A -> M B) (w w' : World) (a : A) :
  m w = Ret a w' -> bind m k w = k a w'.
Proof. intros H. unfold bind. now rewrite H. Qed.

Lemma CheckNewPromises_returns (disk : Disk) (cfg : GenericAgentConfig) (w : World) :
  exists r cfg' w' evs,
    CheckNewPromises disk cfg w = Ret (r, cfg') w' /\
    trace w' = (trace w ++ evs)%list /\
    termination_pending w' = termination_pending w /\
    Forall quiet_event evs /\
    (reload_triggered disk cfg w ->
       r = (if promises_valid disk cfg then RELOAD_FULL else RELOAD_ENVIRONMENT) /\
       cfg' = set_last_validated_at cfg (ReadTimestampFromPolicyValidatedFile disk cfg) /\
       reload_requested w' = false /\
       In (EvArePromisesValid (promises_valid disk cfg)) evs /\
       (promises_valid disk cfg = false ->
        In (EvLog LOG_LEVEL_INFO "New promises file contains syntax errors -- ignoring") evs)) /\
    (~ reload_triggered disk cfg w ->
       r = RELOAD_ENVIRONMENT /\ cfg' = cfg /\ reload_requested w' = reload_requested w /\
       forall v, ~ In (EvArePromisesValid v) evs).
Proof.
  unfold CheckNewPromises, reload_triggered, promises_valid. unfold_m. simpl.
  destruct (Z.ltb_spec (last_validated_at cfg) (ReadTimestampFromPolicyValidatedFile disk cfg));
    simpl; destruct (reload_requested w) eqn:Hreq; simpl;
    try destruct (GenericAgentArePromisesValid disk _) eqn:Hv; simpl;
    do 4 eexists; (split; [reflexivity|]); (split; [trace_eq|]); (split; [reflexivity|]);
    (split; [repeat constructor|]);
    (split; [intros Ht|intros Hn]);
    try (exfalso; apply Hn; auto; fail);
    try (exfalso; destruct Ht; [lia|discriminate]);
    simpl; repeat split; auto; try discriminate;
    try (intros v Hin; intuition discriminate);
    try (intros _; tauto).
Qed.

(** *** The ACL of the runagent socket *)

Lemma SetRunagentSocketACLs_spec (disk : Disk) (path : string) (users : gset string)
    (w : World) :
  SetRunagentSocketACLs disk path users w
  = Ret (acl_succeeds disk path users)
        (emits (EvAllowAccessForUsers path users true false ::
                if AllowAccessForUsers disk path users true false
                then [EvAllowAccessForUsers (ChopLastNode path) users false true] else []) w).
Proof.
  unfold SetRunagentSocketACLs, acl_succeeds. unfold_m.
  destruct (AllowAccessForUsers disk path users true false); simpl.
  - rewrite !emit_emits, emits_emits. reflexivity.
  - reflexivity.
Qed.

Lemma reload_acl_returns (g : Globals) (disk : Disk) (old : gset string)
    (new : ExecdConfig) (w : World) :
  exists evs,
    reload_acl g disk old new w = Ret tt (emits evs w) /\
    Forall acl_event evs /\
    (acl_applied evs <->
       UsingRunagentSocket g = true /\ old <> runagent_allow_users new /\
       fst (GetRunagentSocketInfo g) = true) /\
    (acl_applied evs ->
       In (EvAllowAccessForUsers (snd (GetRunagentSocketInfo g))
                                 (runagent_allow_users new) true false) evs /\
       (acl_succeeds disk (snd (GetRunagentSocketInfo g)) (runagent_allow_users new) = false ->
        In (EvLog LOG_LEVEL_ERR
              "Failed to allow new runagent_socket_allow_users users access the runagent socket (on policy reload)")
           evs)) /\
    (UsingRunagentSocket g = true -> old <> runagent_allow_users new ->
     fst (GetRunagentSocketInfo g) = false ->
     In (EvLog LOG_LEVEL_ERR "Failed to get runagent.socket path") evs).
Proof.
  unfold reload_acl, acl_applied.
  destruct (UsingRunagentSocket g) eqn:Hu.
  2:{ exists []. unfold ret. rewrite emits_nil.
      repeat split; try constructor; simpl; intros; try tauto; try discriminate;
        try (destruct H as (? & ? & ? & ? & [])); intuition discriminate. }
  destruct (GetRunagentSocketInfo g) as [ok sun_path] eqn:Hg. simpl.
  case_bool_decide as Hd; simpl.
  - exists [EvStringSetDestroy old]. unfold_m. simpl.
    repeat split; try (repeat constructor; fail); simpl; intros;
      try (destruct H as (? & ? & ? & ? & [H|[]]); discriminate);
      try tauto; intuition congruence.
  - destruct ok; simpl.
    + unfold bind at 1. unfold bind at 1. rewrite SetRunagentSocketACLs_spec.
      destruct (acl_succeeds disk sun_path (runagent_allow_users new)) eqn:Hs; simpl;
        unfold_m; simpl; rewrite ?emit_emits, ?emits_emits;
        eexists; (split; [reflexivity|]);
        (split; [destruct (AllowAccessForUsers disk sun_path _ true false);
                 repeat constructor|]);
        repeat split; simpl; intros; auto; try discriminate;
        try (do 4 eexists; left; reflexivity);
        try (rewrite in_app_iff; simpl; tauto).
    + unfold_m. simpl. rewrite !emit_emits, emits_emits. simpl.
      eexists; (split; [reflexivity|]). 
      repeat split; try (repeat constructor; fail); simpl; intros; auto;
        try (destruct H as (? & ? & ? & ? & [H|[H|[]]]); discriminate);
        try tauto; intuition discriminate.
Qed.

(** *** One call of [ScheduleRun] *)

Lemma not_In_of_Forall {A} (P : A -> Prop) (l : list A) (x : A) :
  Forall P l -> ~ P x -> ~ In x l.
Proof.
  intros HF Hx Hin. rewrite Forall_forall in HF. apply Hx, HF. now apply list_elem_of_In.
Qed.

Lemma schedule_decision_returns (d : Daemon) (w : World) :
  exists e,
    schedule_decision d w
    = Ret (existsb (IsDefinedClass (ctx d)) (elements (schedule (execd_config d))), d)
          (emits [e] w) /\
    quiet_event e.
Proof.
  unfold schedule_decision.
  rewrite (bind_Ret _ _ _ _ _ (schedule_scan_spec _ _ _)).
  destruct (existsb _ _); unfold_m; simpl.
  - eexists; split; [reflexivity | exact I].
  - rewrite emits_nil. eexists; split; [reflexivity | exact I].
Qed.

Lemma environment_reload_returns (tick : Tick) (d : Daemon) (cfg : GenericAgentConfig)
    (w : World) :
  environment_reload tick d cfg w
  = Ret (mk_daemon (UpdateTimeClasses (DetectEnvironment (EvalContextClear (ctx d)))
                                      (tick_now tick))
                   (policy d) cfg (execd_config d) (exec_config d)) w.
Proof. reflexivity. Qed.

Lemma full_reload_returns (g : Globals) (tick : Tick) (d : Daemon) (cfg : GenericAgentConfig)
    (w : World) :
  exists d' evs_acl,
    full_reload g tick d cfg w
    = Ret d' (emits ([EvLog LOG_LEVEL_INFO "Re-reading promise file '%s'";
                      EvStrcpyVDOMAIN "undefined.domain"; EvPolicyDestroy; EvLoadPolicy;
                      EvExecConfigDestroy;
                      EvExecdConfigDestroy
                        (if UsingRunagentSocket g then None
                         else Some (runagent_allow_users (execd_config d)))]
                     ++ evs_acl ++ [EvSetFacility (log_facility (execd_config d'))]) w) /\
    acl_renewed g (tick_disk tick) (runagent_allow_users (execd_config d)) (execd_config d')
                evs_acl.
Proof.
  unfold full_reload.
  destruct (GenericAgentDiscoverContext _ _ _) as [c1 cfg1].
  destruct (LoadPolicy _ _ _) as [[p c2] cfg2].
  unfold_m. simpl. rewrite !emit_emits, !emits_emits. simpl.
  match goal with
  | |- context [reload_acl ?a ?b ?c ?e ?v] =>
      destruct (reload_acl_returns a b c e v) as (evs & Heq & Hacl)
  end.
  rewrite Heq. simpl. rewrite !emit_emits, !emits_emits.
  exists (mk_daemon c2 p cfg2 (ExecdConfigNew c2 p) (ExecConfigNew (negb (ONCE g)) c2 p)).
  exists evs. split; [reflexivity|]. exact Hacl.
Qed.

(** [ScheduleRun] always comes back: after [CheckNewPromises] and the
    reload it chose, the answer is the scan of the schedule that is
    current then, in the context that is current then. *)
Lemma ScheduleRun_returns (g : Globals) (tick : Tick) (d : Daemon) (w : World) :
  exists r cfg1 w1 d' evs2 e,
    CheckNewPromises (tick_disk tick) (config d) w = Ret (r, cfg1) w1 /\
    (match r with
     | RELOAD_FULL => full_reload g tick d cfg1
     | RELOAD_ENVIRONMENT => environment_reload tick d cfg1
     end) w1 = Ret d' (emits evs2 w1) /\
    ScheduleRun g tick d w
    = Ret (existsb (IsDefinedClass (ctx d')) (elements (schedule (execd_config d'))), d')
          (emits (evs2 ++ [e]) w1) /\
    quiet_event e.
Proof.
  destruct (CheckNewPromises_returns (tick_disk tick) (config d) w)
    as (r & cfg1 & w1 & evs1 & Hchk & _).
  exists r, cfg1, w1.
  assert (Hreload : exists d' evs2,
             (match r with
              | RELOAD_FULL => full_reload g tick d cfg1
              | RELOAD_ENVIRONMENT => environment_reload tick d cfg1
              end) w1 = Ret d' (emits evs2 w1)).
  { destruct r.
    - eexists; exists []. rewrite emits_nil. apply environment_reload_returns.
    - destruct (full_reload_returns g tick d cfg1 w1) as (d' & evs & H & _).
      eexists; eexists; exact H. }
  destruct Hreload as (d' & evs2 & Hreload).
  destruct (schedule_decision_returns d' (emits evs2 w1)) as (e & Hdec & He).
  exists d', evs2, e. repeat split; auto.
  unfold ScheduleRun. rewrite (bind_Ret _ _ _ _ _ Hchk). cbv beta iota.
  rewrite (bind_Ret _ _ _ _ _ Hreload). rewrite Hdec, emits_emits. reflexivity.
Qed.

Lemma reload_triggered_dec (disk : Disk) (cfg : GenericAgentConfig) (w : World) :
  {reload_triggered disk cfg w} + {~ reload_triggered disk cfg w}.
Proof.
  unfold reload_triggered.
  destruct (Z_lt_dec (last_validated_at cfg) (ReadTimestampFromPolicyValidatedFile disk cfg));
    [left; now left|].
  destruct (reload_requested w); [left; now right|].
  right. intros [H|H]; [contradiction | discriminate].
Qed.

Lemma CheckNewPromises_result (disk : Disk) (cfg cfg' : GenericAgentConfig)
    (r : Reload) (w w' : World) :
  CheckNewPromises disk cfg w = Ret (r, cfg') w' ->
  (r = RELOAD_FULL <-> reload_triggered disk cfg w /\ promises_valid disk cfg = true) /\
  (r = RELOAD_ENVIRONMENT <->
   ~ (reload_triggered disk cfg w /\ promises_valid disk cfg = true)).
Proof.
  intros Heq.
  destruct (CheckNewPromises_returns disk cfg w)
    as (r0 & cfg0 & w0 & evs & Hchk & _ & _ & _ & Htrig & Hntrig).
  rewrite Heq in Hchk. injection Hchk as -> -> ->.
  destruct (reload_triggered_dec disk cfg w) as [Ht|Hn].
  - destruct (Htrig Ht) as (-> & _).
    destruct (promises_valid disk cfg); intuition (try discriminate; try congruence).
  - destruct (Hntrig Hn) as (-> & _). intuition (try discriminate; try congruence).
Qed.

(** The daemon a full reload leaves behind. *)
Lemma full_reload_daemon (g : Globals) (tick : Tick) (d d1 : Daemon)
    (cfg0 : GenericAgentConfig) (w w1 : World) :
  full_reload g tick d cfg0 w = Ret d1 w1 ->
  d1 = (let '(c, cfg) :=
          GenericAgentDiscoverContext
            (DetectEnvironment
               (UpdateLastPolicyUpdateTime
                  (EvalContextSetPolicyServerFromFile (EvalContextClear (ctx d)) GetWorkDir)))
            cfg0 None in
        let c := UpdateTimeClasses
                   (EvalContextClassPutHard c CF_AGENTTYPES_EXECUTOR
                      "cfe_internal,source=agent")
                   (tick_now tick) in
        let '(p, c, cfg) :=
          LoadPolicy (tick_disk tick) c (GenericAgentConfigSetBundleSequence cfg) in
        mk_daemon c p cfg (ExecdConfigNew c p) (ExecConfigNew (negb (ONCE g)) c p)).
Proof.
  unfold full_reload.
  destruct (GenericAgentDiscoverContext _ _ _) as [c1 cfg1].
  destruct (LoadPolicy _ _ _) as [[p c2] cfg2].
  unfold_m. simpl.
  match goal with
  | |- context [reload_acl ?a ?b ?c ?e ?v] =>
      destruct (reload_acl_returns a b c e v) as (evs & Heq & _)
  end.
  rewrite Heq. intros H. apply Ret_inj in H. now destruct H as [<- _].
Qed.

Lemma schedule_decision_spec (d : Daemon) (w : World) :
  let b := existsb (IsDefinedClass (ctx d)) (elements (schedule (execd_config d))) in
  schedule_decision d w
  = Ret (b, d)
        (emit (EvLog LOG_LEVEL_VERBOSE
                 (if b then "Waking up the agent at %s ~ %s" else "Nothing to do at %s")) w).
Proof.
  cbv zeta. unfold schedule_decision.
  rewrite (bind_Ret _ _ _ _ _ (schedule_scan_spec _ _ _)).
  destruct (existsb _ _); unfold_m; simpl; [reflexivity|].
  now rewrite emits_nil.
Qed.

(** C1.  [ScheduleRun] returns, and returns [true] exactly when some
    member of the schedule that is current after the reload of this tick
    is a defined class in the context that is current then; with an empty
    schedule it returns [false] whatever the context.  The daemon [d'] it
    answers about is the one the tick makes of the daemon it is given:
    after a full reload the context rebuilt for the clock of the tick, the
    policy loaded from the disk and the executor configuration made from
    it; otherwise the schedule it had, with the context cleared and set up
    for the clock of the tick. *)
Theorem C1_schedule_decision_existential
    (g : Globals) (tick : Tick) (d : Daemon) (w : World) :
  let disk := tick_disk tick in
  let validated_at := ReadTimestampFromPolicyValidatedFile disk (config d) in
  let looked_at := (last_validated_at (config d) <? validated_at) || reload_requested w in
  let cfg0 := set_last_validated_at (config d) validated_at in
  let d' :=
    if looked_at && GenericAgentArePromisesValid disk cfg0 then
      let '(c, cfg) :=
        GenericAgentDiscoverContext
          (DetectEnvironment
             (UpdateLastPolicyUpdateTime
                (EvalContextSetPolicyServerFromFile (EvalContextClear (ctx d)) GetWorkDir)))
          cfg0 None in
      let c := UpdateTimeClasses
                 (EvalContextClassPutHard c CF_AGENTTYPES_EXECUTOR "cfe_internal,source=agent")
                 (tick_now tick) in
      let '(p, c, cfg) := LoadPolicy disk c (GenericAgentConfigSetBundleSequence cfg) in
      mk_daemon c p cfg (ExecdConfigNew c p) (ExecConfigNew (negb (ONCE g)) c p)
    else
      mk_daemon (UpdateTimeClasses (DetectEnvironment (EvalContextClear (ctx d)))
                                   (tick_now tick))
                (policy d) (if looked_at then cfg0 else config d)
                (execd_config d) (exec_config d) in
  exists b w',
    ScheduleRun g tick d w = Ret (b, d') w' /\
    (b = true <->
     exists c, c ∈ schedule (execd_config d') /\ IsDefinedClass (ctx d') c = true) /\
    (schedule (execd_config d') = ∅ -> b = false) /\
    exists evs,
      trace w' = (trace w ++ evs)%list /\
      List.last evs (EvLog LOG_LEVEL_VERBOSE "")
      = EvLog LOG_LEVEL_VERBOSE
          (if b then "Waking up the agent at %s ~ %s" else "Nothing to do at %s").
Proof.
  intros disk validated_at looked_at cfg0 d'.
  destruct (CheckNewPromises_returns disk (config d) w)
    as (r & cfg1 & w1 & evs1 & Hchk & Htr1 & _ & _ & Htrig & Hntrig).
  assert (Hd' : exists w2 evs2,
             (match r with
              | RELOAD_FULL => full_reload g tick d cfg1
              | RELOAD_ENVIRONMENT => environment_reload tick d cfg1
              end) w1 = Ret d' w2 /\ trace w2 = (trace w1 ++ evs2)%list).
  { destruct (reload_triggered_dec disk (config d) w) as [Ht|Hn].
    - assert (Hl : looked_at = true).
      { unfold looked_at. destruct Ht as [Ht|Ht]; [|now rewrite Ht, orb_true_r].
        apply Z.ltb_lt in Ht. fold validated_at in Ht. now rewrite Ht. }
      destruct (Htrig Ht) as (-> & -> & _). fold validated_at. fold cfg0.
      unfold promises_valid. fold validated_at. fold cfg0.
      subst d'. rewrite Hl. cbn [andb].
      destruct (GenericAgentArePromisesValid disk cfg0).
      + destruct (full_reload_returns g tick d cfg0 w1) as (d1 & evs_acl & Hfr & _).
        rewrite (full_reload_daemon _ _ _ _ _ _ _ Hfr) in Hfr. fold disk in Hfr.
        do 2 eexists. split; [exact Hfr | reflexivity].
      + exists w1, []. rewrite app_nil_r. split; reflexivity.
    - assert (Hl : looked_at = false).
      { unfold looked_at. apply orb_false_iff. split.
        - apply Z.ltb_ge. fold validated_at.
          destruct (Z_lt_dec (last_validated_at (config d)) validated_at) as [H|H]; [|lia].
          exfalso. apply Hn. now left.
        - destruct (reload_requested w) eqn:Hreq; [|reflexivity].
          exfalso. apply Hn. now right. }
      destruct (Hntrig Hn) as (-> & -> & _). subst d'. rewrite Hl. cbn [andb].
      exists w1, []. rewrite app_nil_r. split; reflexivity. }
  destruct Hd' as (w2 & evs2 & Hreload & Htr2).
  pose proof (schedule_decision_spec d' w2) as Hdec. cbv zeta in Hdec.
  do 2 eexists. split; [|split; [|split]].
  - unfold ScheduleRun. fold disk. rewrite (bind_Ret _ _ _ _ _ Hchk). cbv beta iota.
    rewrite (bind_Ret _ _ _ _ _ Hreload). exact Hdec.
  - rewrite existsb_exists. split.
    + intros (c & Hin & Hc). exists c. split; [|exact Hc].
      apply elem_of_elements, list_elem_of_In, Hin.
    + intros (c & Hin & Hc). exists c. split; [|exact Hc].
      apply list_elem_of_In, elem_of_elements, Hin.
  - intros Hempty. rewrite Hempty, elements_empty. reflexivity.
  - eexists. split.
    + cbn [trace emit]. rewrite Htr2, Htr1, <- !app_assoc. reflexivity.
    + rewrite app_assoc. apply List.last_last.
Qed.

(** C2.  [CheckNewPromises] answers [RELOAD_FULL] exactly when the stored
    [last_validated_at] is strictly below the timestamp of the
    policy-validated file or a reload has been requested, and
    [GenericAgentArePromisesValid] says yes; in every other case it answers
    [RELOAD_ENVIRONMENT].  [ScheduleRun] reloads the policy on the tick
    under exactly the same condition. *)
Theorem C2_full_reload_iff (g : Globals) (tick : Tick) (d : Daemon) (w : World) :
  let disk := tick_disk tick in
  let full :=
    (last_validated_at (config d) < ReadTimestampFromPolicyValidatedFile disk (config d) \/
     reload_requested w = true) /\
    promises_valid disk (config d) = true in
  exists r cfg1 w1 b d' w' evs,
    CheckNewPromises disk (config d) w = Ret (r, cfg1) w1 /\
    (r = RELOAD_FULL <-> full) /\
    (r = RELOAD_ENVIRONMENT <-> ~ full) /\
    ScheduleRun g tick d w = Ret (b, d') w' /\
    trace w' = (trace w ++ evs)%list /\
    (In EvLoadPolicy evs <-> full).
Proof.
  intros disk full.
  destruct (ScheduleRun_returns g tick d w)
    as (r & cfg1 & w1 & d' & evs2 & e & Hchk & Hreload & Hrun & He).
  destruct (CheckNewPromises_result _ _ _ _ _ _ Hchk) as [Hfull Henv].
  fold disk in Hfull, Henv. change (reload_triggered disk (config d) w /\ _) with full in *.
  destruct (CheckNewPromises_returns disk (config d) w)
    as (r0 & cfg0 & w0 & evs1 & Hchk' & Htr1 & _ & Hq1 & _).
  fold disk in Hchk. rewrite Hchk in Hchk'. injection Hchk' as <- <- <-.
  exists r, cfg1, w1. do 3 eexists. exists (evs1 ++ evs2 ++ [e])%list.
  split; [exact Hchk|]. split; [exact Hfull|]. split; [exact Henv|].
  split; [exact Hrun|]. split; [|split].
  - simpl. rewrite Htr1, <- app_assoc. reflexivity.
  - intros Hin. apply Hfull. destruct r; [exfalso | reflexivity].
    rewrite environment_reload_returns in Hreload.
    assert (evs2 = []) as ->.
    { apply (emits_inj_nil _ w1). now apply Ret_inj in Hreload. }
    rewrite !in_app_iff in Hin. destruct Hin as [Hin|[[]|[Hin|[]]]].
    + revert Hin. now apply (not_In_of_Forall quiet_event).
    + subst e. exact He.
  - intros Hf. apply Hfull in Hf. subst r.
    destruct (full_reload_returns g tick d cfg1 w1) as (d1 & evs_acl & Hfr & _).
    rewrite Hfr in Hreload.
    apply Ret_inj in Hreload. destruct Hreload as [_ Hw].
    apply emits_inj in Hw. rewrite !in_app_iff. right; left. rewrite <- Hw. simpl. tauto.
Qed.

(** C3.  When a reload is triggered and the policy on disk is not valid,
    [ScheduleRun] writes the info line about the syntax errors and comes
    back with the policy, the executor configuration and the run
    configuration it was given; the context is the one of an environment
    reload; nothing is destroyed or loaded, the only events being log lines
    and the question to [GenericAgentArePromisesValid]. *)
Theorem C3_rejected_reload_keeps_policy (g : Globals) (tick : Tick) (d : Daemon) (w : World) :
  reload_triggered (tick_disk tick) (config d) w ->
  promises_valid (tick_disk tick) (config d) = false ->
  exists b d' w' evs,
    ScheduleRun g tick d w = Ret (b, d') w' /\
    trace w' = (trace w ++ evs)%list /\
    In (EvLog LOG_LEVEL_INFO "New promises file contains syntax errors -- ignoring") evs /\
    Forall quiet_event evs /\
    policy d' = policy d /\
    execd_config d' = execd_config d /\
    exec_config d' = exec_config d /\
    ctx d' = UpdateTimeClasses (DetectEnvironment (EvalContextClear (ctx d))) (tick_now tick).
Proof.
  intros Ht Hv.
  destruct (ScheduleRun_returns g tick d w)
    as (r & cfg1 & w1 & d' & evs2 & e & Hchk & Hreload & Hrun & He).
  destruct (CheckNewPromises_returns (tick_disk tick) (config d) w)
    as (r0 & cfg0 & w0 & evs1 & Hchk' & Htr1 & _ & Hq1 & Htrig & _).
  rewrite Hchk in Hchk'. apply Ret_inj in Hchk'. destruct Hchk' as [Hp <-].
  injection Hp as <- <-.
  destruct (Htrig Ht) as (-> & _ & _ & _ & Hlog). rewrite Hv in *.
  rewrite environment_reload_returns in Hreload.
  apply Ret_inj in Hreload. destruct Hreload as [<- Hw].
  apply emits_inj_nil in Hw. subst evs2.
  do 3 eexists. exists (evs1 ++ [e])%list.
  split; [exact Hrun|]. split; [simpl; now rewrite Htr1, <- app_assoc|].
  split; [apply in_app_iff; left; now apply Hlog|].
  split; [apply Forall_app; split; [exact Hq1 | now constructor]|].
  repeat split.
Qed.

(** C9.  When a reload is triggered and the policy on disk is not valid,
    [CheckNewPromises] has cleared the reload request and stored the
    timestamp of the policy-validated file before it answers.  On a later
    tick it therefore asks [GenericAgentArePromisesValid] again exactly when
    the timestamp on disk is strictly above the one stored or a reload has
    been requested anew; otherwise it answers [RELOAD_ENVIRONMENT] without
    asking. *)
Theorem C9_rejected_policy_not_reexamined
    (disk : Disk) (cfg : GenericAgentConfig) (w : World) :
  reload_triggered disk cfg w ->
  promises_valid disk cfg = false ->
  exists cfg' w',
    CheckNewPromises disk cfg w = Ret (RELOAD_ENVIRONMENT, cfg') w' /\
    reload_requested w' = false /\
    last_validated_at cfg' = ReadTimestampFromPolicyValidatedFile disk cfg /\
    forall (later : Disk) (w2 : World),
    exists r cfg2 w3 evs,
      CheckNewPromises later cfg' w2 = Ret (r, cfg2) w3 /\
      trace w3 = (trace w2 ++ evs)%list /\
      ((exists v, In (EvArePromisesValid v) evs) <->
       ReadTimestampFromPolicyValidatedFile disk cfg
         < ReadTimestampFromPolicyValidatedFile later cfg' \/
       reload_requested w2 = true) /\
      (~ (ReadTimestampFromPolicyValidatedFile disk cfg
            < ReadTimestampFromPolicyValidatedFile later cfg' \/
          reload_requested w2 = true) ->
       r = RELOAD_ENVIRONMENT /\ cfg2 = cfg').
Proof.
  intros Ht Hv.
  destruct (CheckNewPromises_returns disk cfg w)
    as (r & cfg' & w' & evs & Hchk & _ & _ & _ & Htrig & _).
  destruct (Htrig Ht) as (-> & -> & Hreq & _). rewrite Hv in Hchk.
  do 2 eexists. split; [exact Hchk|]. split; [exact Hreq|]. split; [reflexivity|].
  intros later w2.
  set (cfg' := set_last_validated_at cfg (ReadTimestampFromPolicyValidatedFile disk cfg)).
  destruct (CheckNewPromises_returns later cfg' w2)
    as (r2 & cfg2 & w3 & evs2 & Hchk2 & Htr2 & _ & _ & Htrig2 & Hntrig2).
  exists r2, cfg2, w3, evs2. split; [exact Hchk2|]. split; [exact Htr2|].
  change (ReadTimestampFromPolicyValidatedFile disk cfg
            < ReadTimestampFromPolicyValidatedFile later cfg' \/ reload_requested w2 = true)
    with (reload_triggered later cfg' w2).
  split; [split|].
  - intros [v Hin]. destruct (reload_triggered_dec later cfg' w2) as [H|H]; [exact H|].
    destruct (Hntrig2 H) as (_ & _ & _ & Hno). now apply Hno in Hin.
  - intros H. destruct (Htrig2 H) as (_ & _ & _ & Hin & _). eauto.
  - intros H. destruct (Hntrig2 H) as (-> & -> & _). now split.
Qed.

(** *** The ACL on a full reload *)








(** *** The multiplexed sleep *)

(** One pass through the loop of [HandleRequestsOrSleep], branch by branch. *)
Lemma select_loop_step (seconds runagent_socket : Z) (cmd : option string)
    (sleep_started : Z) (remaining : timeval) (r : Round) (rest : list Round) (w : World) :
  select_loop seconds runagent_socket cmd sleep_started remaining (r :: rest) w
  = if tv_sec remaining =? 0 then Ret None w
    else
      let w1 := arrive (rd_async r) (emit (EvSelect (runagent_socket + 1) remaining) w) in
      let again := select_loop seconds runagent_socket cmd sleep_started in
      if (rd_ret r =? -1) && negb (rd_eintr r) then
        again (rd_left r) rest
              (emit (EvLog LOG_LEVEL_ERR "Failed to sleep for %s using select(): %s") w1)
      else if rd_ret r =? 0 then
        again (mk_timeval 0 (tv_usec (rd_left r))) rest w1
      else if termination_pending w1 then Ret (Some true) w1
      else
        let remaining' :=
          mk_timeval (seconds_left seconds sleep_started r) (tv_usec (rd_left r)) in
        if rd_ret r >? 0 then
          if rd_fork r =? 0
          then Exited EXIT_SUCCESS (handler_exit runagent_socket cmd r w1)
          else again remaining' rest (arrive (rd_service r) (handed_over runagent_socket r w1))
        else again remaining' rest (arrive (rd_service r) w1).
Proof.
  simpl. destruct (tv_sec remaining =? 0); [reflexivity|].
  unfold_m. cbv zeta. simpl.
  destruct ((rd_ret r =? -1) && negb (rd_eintr r)); [reflexivity|].
  destruct (rd_ret r =? 0); [reflexivity|].
  change (termination_pending
            (arrive (rd_async r) (emit (EvSelect (runagent_socket + 1) remaining) w)))
    with (termination_pending w || async_term (rd_async r)).
  destruct (termination_pending w || async_term (rd_async r)); [reflexivity|].
  unfold handed_over, handler_exit, effect, seconds_left.
  destruct (rd_ret r >? 0).
  - destruct (rd_fork r =? 0); [reflexivity|].
    destruct (rd_fork r =? -1); simpl;
      destruct (0 >? seconds - (rd_now r - sleep_started)); reflexivity.
  - simpl. destruct (0 >? seconds - (rd_now r - sleep_started)); reflexivity.
Qed.

Lemma MAX_max (a b : Z) : MAX a b = Z.max a b.
Proof. unfold MAX. destruct (Z.gtb_spec a b); lia. Qed.

Lemma HandleRequestsOrSleep_eq (seconds : Z) (reason : string) (runagent_socket : Z)
    (cmd : option string) (env : SleepEnv) (w : World) :
  HandleRequestsOrSleep seconds reason runagent_socket cmd env w
  = if termination_pending w then Ret true w
    else
      let w0 := emit (EvLog LOG_LEVEL_VERBOSE "Sleeping for %s %ju seconds") w in
      if runagent_socket >=? 0 then
        match select_loop seconds runagent_socket cmd (se_started env)
                          (mk_timeval seconds 0) (se_rounds env) w0 with
        | Ret (Some b) w' => Ret b w'
        | Ret None w' => Ret (termination_pending w') w'
        | Exited code w' => Exited code w'
        | Blocked w' => Blocked w'
        end
      else
        let w1 := arrive (se_sleep env) (emit (EvSleep seconds) w0) in
        Ret (termination_pending w1) w1.
Proof.
  unfold HandleRequestsOrSleep. unfold_m.
  destruct (termination_pending w) eqn:Hp; [reflexivity|]. cbv zeta.
  destruct (runagent_socket >=? 0).
  - destruct (select_loop _ _ _ _ _ _ _) as [[b|] w'| |]; try reflexivity.
    destruct (termination_pending w'); reflexivity.
  - cbn [termination_pending arrive emit]. rewrite Hp. simpl.
    destruct (async_term (se_sleep env)); reflexivity.
Qed.

(** An early exit from the loop is always the [return true] that follows
    a set flag. *)
Lemma select_loop_early (seconds runagent_socket : Z) (cmd : option string)
    (sleep_started : Z) (rounds : list Round) :
  forall (remaining : timeval) (w w' : World) (b : bool),
    select_loop seconds runagent_socket cmd sleep_started remaining rounds w
    = Ret (Some b) w' ->
    b = true /\ termination_pending w' = true.
Proof.
  induction rounds as [|r rest IH]; intros remaining w w' b.
  - simpl. destruct (tv_sec remaining =? 0); discriminate.
  - rewrite select_loop_step. cbv zeta.
    destruct (tv_sec remaining =? 0); [discriminate|].
    destruct ((rd_ret r =? -1) && negb (rd_eintr r)); [apply IH|].
    destruct (rd_ret r =? 0); [apply IH|].
    destruct (termination_pending (arrive _ _)) eqn:Hp.
    + intros H. apply Ret_inj in H. destruct H as [Hb <-]. injection Hb as <-. now split.
    + destruct (rd_ret r >? 0); [|apply IH].
      destruct (rd_fork r =? 0); [discriminate | apply IH].
Qed.

(** A pass of the loop in which [select] came back ready or interrupted,
    the flag is not set and the process is the parent. *)
Lemma select_loop_goes_on
    (seconds runagent_socket : Z) (cmd : option string) (sleep_started : Z)
    (remaining : timeval) (r : Round) (rest : list Round) (w : World) :
  tv_sec remaining <> 0 ->
  select_woke r = true ->
  termination_pending w || async_term (rd_async r) = false ->
  (rd_ret r > 0 -> rd_fork r <> 0) ->
  select_loop seconds runagent_socket cmd sleep_started remaining (r :: rest) w
  = select_loop seconds runagent_socket cmd sleep_started
      (mk_timeval (seconds_left seconds sleep_started r) (tv_usec (rd_left r)))
      rest
      (arrive (rd_service r)
         (if rd_ret r >? 0
          then handed_over runagent_socket r
                 (arrive (rd_async r) (emit (EvSelect (runagent_socket + 1) remaining) w))
          else arrive (rd_async r) (emit (EvSelect (runagent_socket + 1) remaining) w))).
Proof.
  intros Hrem Hwoke Hp Hparent.
  rewrite select_loop_step. cbv zeta.
  destruct (Z.eqb_spec (tv_sec remaining) 0) as [|_]; [contradiction|].
  unfold select_woke in Hwoke. apply andb_true_iff in Hwoke. destruct Hwoke as [H1 H2].
  apply negb_true_iff in H1, H2. rewrite H1, H2.
  change (termination_pending
            (arrive (rd_async r) (emit (EvSelect (runagent_socket + 1) remaining) w)))
    with (termination_pending w || async_term (rd_async r)).
  rewrite Hp.
  destruct (Z.gtb_spec (rd_ret r) 0) as [Hpos|_]; [|reflexivity].
  destruct (Z.eqb_spec (rd_fork r) 0) as [H0|_]; [|reflexivity].
  exfalso. apply Hparent; [lia | exact H0].
Qed.

(** With both readings of the clock the same, the expansion of [MAX] is
    the larger of its operands. *)
Lemma seconds_left_same_reading (seconds sleep_started : Z) (r : Round) :
  rd_now2 r = rd_now r ->
  seconds_left seconds sleep_started r = MAX 0 (seconds - (rd_now r - sleep_started)).
Proof. intros H. unfold seconds_left, MAX. now rewrite H. Qed.

(** What [seconds_left] is, by where the two readings of the clock fall. *)
Lemma seconds_left_cases (seconds sleep_started : Z) (r : Round) :
  let left := seconds_left seconds sleep_started r in
  (sleep_started + seconds < rd_now r -> left = 0) /\
  (rd_now r <= sleep_started + seconds -> rd_now2 r + left = sleep_started + seconds) /\
  (rd_now2 r = rd_now r -> left = Z.max 0 (seconds - (rd_now r - sleep_started))) /\
  (rd_now r <= rd_now2 r -> left <= Z.max 0 (seconds - (rd_now r - sleep_started))) /\
  (left < 0 <-> rd_now r <= sleep_started + seconds < rd_now2 r).
Proof.
  unfold seconds_left.
  destruct (Z.gtb_spec 0 (seconds - (rd_now r - sleep_started))); cbv zeta; lia.
Qed.

Lemma select_loop_out_of_time (seconds runagent_socket : Z) (cmd : option string)
    (sleep_started : Z) (remaining : timeval) (rounds : list Round) (w : World) :
  tv_sec remaining = 0 ->
  select_loop seconds runagent_socket cmd sleep_started remaining rounds w = Ret None w.
Proof. intros H. destruct rounds; simpl; rewrite H; reflexivity. Qed.

Lemma parent_round_spec (r : Round) :
  parent_round r = true ->
  select_woke r = true /\ async_term (rd_async r) = false /\
  async_term (rd_service r) = false /\ (rd_ret r > 0 -> rd_fork r <> 0).
Proof.
  unfold parent_round. rewrite !andb_true_iff, !negb_true_iff, andb_false_iff.
  intros [[[Hw Ha] Hs] Hc]. repeat split; auto.
  intros Hpos Hf. destruct Hc as [Hc|Hc].
  - destruct (Z.gtb_spec (rd_ret r) 0); [discriminate | lia].
  - rewrite Hf in Hc. discriminate.
Qed.

Lemma select_timeouts_app (evs1 evs2 : list Event) :
  select_timeouts (evs1 ++ evs2) = (select_timeouts evs1 ++ select_timeouts evs2)%list.
Proof. apply flat_map_app. Qed.

(** One pass of the parent. *)
Lemma select_loop_pass
    (seconds runagent_socket : Z) (cmd : option string) (sleep_started : Z)
    (remaining : timeval) (r : Round) (rest : list Round) (w : World) :
  tv_sec remaining <> 0 ->
  termination_pending w = false ->
  parent_round r = true ->
  let st := pass seconds runagent_socket sleep_started (remaining, w) r in
  select_loop seconds runagent_socket cmd sleep_started remaining (r :: rest) w
  = select_loop seconds runagent_socket cmd sleep_started (fst st) rest (snd st) /\
  termination_pending (snd st) = false /\
  select_timeouts (trace (snd st)) = (select_timeouts (trace w) ++ [remaining])%list.
Proof.
  intros Hrem Hp Hr. apply parent_round_spec in Hr. destruct Hr as (Hw & Ha & Hs & Hparent).
  cbv zeta. split; [|split].
  - rewrite (select_loop_goes_on seconds runagent_socket cmd sleep_started remaining r rest w
               Hrem Hw); [reflexivity | now rewrite Hp, Ha | exact Hparent].
  - unfold pass, handed_over. cbn [fst snd].
    destruct (rd_ret r >? 0); [destruct (rd_fork r =? -1)|]; simpl;
      rewrite Hp, Ha, Hs; reflexivity.
  - unfold pass, handed_over. cbn [fst snd].
    destruct (rd_ret r >? 0); [destruct (rd_fork r =? -1)|]; simpl;
      rewrite !select_timeouts_app; simpl; rewrite ?app_nil_r; reflexivity.
Qed.

(** The passes of the parent through the rounds [before]: the loop goes on
    with the rounds after them from the state [passes] computes, and the
    timeouts of the calls of [select] are the first one followed by what
    each pass has set. *)
Lemma select_loop_passes
    (seconds runagent_socket : Z) (cmd : option string) (sleep_started : Z)
    (before rest : list Round) :
  forall (remaining : timeval) (w : World),
    tv_sec remaining <> 0 ->
    termination_pending w = false ->
    Forall (fun r => parent_round r = true /\ seconds_left seconds sleep_started r <> 0)
           before ->
    let st := passes seconds runagent_socket sleep_started before (remaining, w) in
    select_loop seconds runagent_socket cmd sleep_started remaining (before ++ rest) w
    = select_loop seconds runagent_socket cmd sleep_started (fst st) rest (snd st) /\
    tv_sec (fst st) <> 0 /\
    termination_pending (snd st) = false /\
    (select_timeouts (trace (snd st)) ++ [fst st]
     = select_timeouts (trace w)
       ++ remaining :: map (next_timeout seconds sleep_started) before)%list.
Proof.
  induction before as [|r before IH]; intros remaining w Hrem Hp Hall.
  - cbv zeta. unfold passes. cbn [fold_left fst snd app map]. auto.
  - inversion Hall as [|r' l' [Hr Hleft] Hrest]; subst.
    pose (st1 := pass seconds runagent_socket sleep_started (remaining, w) r).
    destruct (select_loop_pass seconds runagent_socket cmd sleep_started remaining r
                (before ++ rest) w Hrem Hp Hr) as (Hstep & Hp1 & Htv).
    fold st1 in Hstep, Hp1, Htv.
    destruct (IH (fst st1) (snd st1) Hleft Hp1 Hrest) as (Hloop & Hrem' & Hp' & Htv').
    cbv zeta. unfold passes in *. cbn [fold_left app map].
    change (pass seconds runagent_socket sleep_started (remaining, w) r)
      with (fst st1, snd st1).
    split; [now rewrite Hstep|]. split; [exact Hrem'|]. split; [exact Hp'|].
    rewrite Htv', Htv, <- app_assoc. reflexivity.
Qed.

(** The loop comes back whenever the environment lets some [select] run
    into its timeout and the process is never the forked handler. *)
Lemma select_loop_returns
    (seconds runagent_socket : Z) (cmd : option string) (sleep_started : Z)
    (rounds : list Round) :
  Forall (fun r => rd_ret r > 0 -> rd_fork r <> 0) rounds ->
  Exists (fun r => rd_ret r = 0) rounds ->
  forall (remaining : timeval) (w : World),
  exists early w',
    select_loop seconds runagent_socket cmd sleep_started remaining rounds w = Ret early w'.
Proof.
  induction rounds as [|r rest IH]; intros Hall Hex remaining w.
  - inversion Hex.
  - inversion Hall as [|r' l' Hparent Hrest]; subst.
    rewrite select_loop_step. cbv zeta.
    destruct (tv_sec remaining =? 0); [eauto|].
    destruct (Z.eqb_spec (rd_ret r) 0) as [H0|Hne].
    + rewrite H0. cbn [Z.eqb andb]. rewrite select_loop_out_of_time by reflexivity. eauto.
    + assert (Hex' : Exists (fun r => rd_ret r = 0) rest)
        by (inversion Hex; [contradiction | assumption]).
      destruct ((rd_ret r =? -1) && negb (rd_eintr r)); [now apply IH|].
      destruct (termination_pending (arrive _ _)); [eauto|].
      destruct (Z.gtb_spec (rd_ret r) 0) as [Hpos|_]; [|now apply IH].
      destruct (Z.eqb_spec (rd_fork r) 0) as [Hf|_]; [|now apply IH].
      exfalso. apply Hparent; [lia | exact Hf].
Qed.

(** C4, as the code has it.  [HandleRequestsOrSleep] and the termination
    flag.
    - With the flag set at entry it returns [true] at once: no log line,
      no [select], no [sleep].
    - It comes back, and with the flag as its answer, when there is no
      listener, and with a listener whenever some [select] runs into its
      timeout and the process is not the forked handler; whenever it comes
      back, what it returns is the flag as it stands then, so a flag raised
      at any time before makes it return [true].
    - With a listener: when a handler raises the flag while the process is
      inside [select] and [select] comes back ready or interrupted, after
      any number of passes in which the parent served requests, the
      function returns [true] right there: nothing is accepted, no further
      [select] is called, the rounds that are left are not entered.
    - With a listener: when a handler raises the flag after that check,
      while the parent hands a connection over or before it reads the
      clock, the flag is not looked at: [select] is called again with the
      time that is left, and when it runs into its timeout the function
      returns [true] only then.
    - Without a listener it is one [sleep] of the whole time, and the
      answer is [true] exactly when the flag was raised while it slept. *)
Theorem C4_termination_honoured
    (seconds : Z) (reason : string) (runagent_socket : Z) (cmd : option string)
    (env : SleepEnv) (w : World) :
  (termination_pending w = true ->
   HandleRequestsOrSleep seconds reason runagent_socket cmd env w = Ret true w) /\
  (runagent_socket < 0 \/
   (Forall (fun r => rd_ret r > 0 -> rd_fork r <> 0) (se_rounds env) /\
    Exists (fun r => rd_ret r = 0) (se_rounds env)) ->
   exists w',
     HandleRequestsOrSleep seconds reason runagent_socket cmd env w
     = Ret (termination_pending w') w') /\
  (forall b w',
     HandleRequestsOrSleep seconds reason runagent_socket cmd env w = Ret b w' ->
     b = termination_pending w') /\
  (0 <= runagent_socket ->
   seconds <> 0 ->
   termination_pending w = false ->
   forall before r rest,
     se_rounds env = (before ++ r :: rest)%list ->
     Forall (fun r => parent_round r = true /\ seconds_left seconds (se_started env) r <> 0)
            before ->
     select_woke r = true ->
     async_term (rd_async r) = true ->
     let st := passes seconds runagent_socket (se_started env) before
                 (mk_timeval seconds 0,
                  emit (EvLog LOG_LEVEL_VERBOSE "Sleeping for %s %ju seconds") w) in
     HandleRequestsOrSleep seconds reason runagent_socket cmd env w
     = Ret true (arrive (rd_async r)
                   (emit (EvSelect (runagent_socket + 1) (fst st)) (snd st)))) /\
  (0 <= runagent_socket ->
   seconds <> 0 ->
   termination_pending w = false ->
   forall before r last rest,
     se_rounds env = (before ++ r :: last :: rest)%list ->
     Forall (fun r => parent_round r = true /\ seconds_left seconds (se_started env) r <> 0)
            before ->
     select_woke r = true ->
     async_term (rd_async r) = false ->
     (rd_ret r > 0 -> rd_fork r <> 0) ->
     async_term (rd_service r) = true ->
     seconds_left seconds (se_started env) r <> 0 ->
     rd_ret last = 0 ->
     let st := pass seconds runagent_socket (se_started env)
                 (passes seconds runagent_socket (se_started env) before
                    (mk_timeval seconds 0,
                     emit (EvLog LOG_LEVEL_VERBOSE "Sleeping for %s %ju seconds") w))
                 r in
     termination_pending (snd st) = true /\
     fst st = next_timeout seconds (se_started env) r /\
     HandleRequestsOrSleep seconds reason runagent_socket cmd env w
     = Ret true (arrive (rd_async last)
                   (emit (EvSelect (runagent_socket + 1) (fst st)) (snd st)))) /\
  (runagent_socket < 0 ->
   termination_pending w = false ->
   HandleRequestsOrSleep seconds reason runagent_socket cmd env w
   = Ret (async_term (se_sleep env))
         (arrive (se_sleep env)
            (emits [EvLog LOG_LEVEL_VERBOSE "Sleeping for %s %ju seconds"; EvSleep seconds]
                   w))).
Proof.
  assert (Hflag : forall b w',
             HandleRequestsOrSleep seconds reason runagent_socket cmd env w = Ret b w' ->
             b = termination_pending w').
  { intros b w'. rewrite HandleRequestsOrSleep_eq. cbv zeta.
    destruct (termination_pending w) eqn:Hp.
    { intros H. apply Ret_inj in H. destruct H as [<- <-]. now rewrite Hp. }
    destruct (runagent_socket >=? 0).
    + destruct (select_loop _ _ _ _ _ _ _) as [[b'|] w1| |] eqn:Hloop; try discriminate.
      * apply select_loop_early in Hloop. destruct Hloop as [-> Hw1].
        intros H. apply Ret_inj in H. destruct H as [<- <-]. now rewrite Hw1.
      * intros H. apply Ret_inj in H. destruct H as [<- <-]. reflexivity.
    + intros H. apply Ret_inj in H. destruct H as [<- <-]. reflexivity. }
  split; [|split; [|split; [exact Hflag|split; [|split]]]].
  - intros Hp. rewrite HandleRequestsOrSleep_eq, Hp. reflexivity.
  - intros Henv.
    assert (Hret : exists b w',
               HandleRequestsOrSleep seconds reason runagent_socket cmd env w = Ret b w').
    { rewrite HandleRequestsOrSleep_eq. cbv zeta.
      destruct (termination_pending w); [eauto|].
      destruct (Z.geb_spec runagent_socket 0) as [Hs|Hs]; [|eauto].
      destruct Henv as [|[Hall Hex]]; [lia|].
      destruct (select_loop_returns seconds runagent_socket cmd (se_started env)
                  (se_rounds env) Hall Hex (mk_timeval seconds 0)
                  (emit (EvLog LOG_LEVEL_VERBOSE "Sleeping for %s %ju seconds") w))
        as (early & w' & ->).
      destruct early; eauto. }
    destruct Hret as (b & w' & Hret). exists w'.
    now rewrite <- (Hflag b w' Hret).
  - intros Hs Hsec Hp before r rest Hrounds Hbefore Hwoke Hterm st.
    rewrite HandleRequestsOrSleep_eq, Hp. cbv zeta.
    destruct (Z.geb_spec runagent_socket 0) as [_|]; [|lia].
    rewrite Hrounds.
    destruct (select_loop_passes seconds runagent_socket cmd (se_started env) before
                (r :: rest) (mk_timeval seconds 0)
                (emit (EvLog LOG_LEVEL_VERBOSE "Sleeping for %s %ju seconds") w)
                Hsec Hp Hbefore) as (Hloop & Hrem & _ & _).
    fold st in Hloop, Hrem. rewrite Hloop, select_loop_step. cbv zeta.
    destruct (Z.eqb_spec (tv_sec (fst st)) 0) as [|_]; [contradiction|].
    unfold select_woke in Hwoke. apply andb_true_iff in Hwoke. destruct Hwoke as [H1 H2].
    apply negb_true_iff in H1, H2. rewrite H1, H2.
    change (termination_pending
              (arrive (rd_async r) (emit (EvSelect (runagent_socket + 1) (fst st)) (snd st))))
      with (termination_pending (snd st) || async_term (rd_async r)).
    rewrite Hterm, orb_true_r. reflexivity.
  - intros Hs Hsec Hp before r last rest Hrounds Hbefore Hwoke Hquiet Hparent Hlate Hleft
           Hlast.
    destruct (select_loop_passes seconds runagent_socket cmd (se_started env) before
                (r :: last :: rest) (mk_timeval seconds 0)
                (emit (EvLog LOG_LEVEL_VERBOSE "Sleeping for %s %ju seconds") w)
                Hsec Hp Hbefore) as (Hloop & Hrem & Hp0 & _).
    set (st0 := passes seconds runagent_socket (se_started env) before
                  (mk_timeval seconds 0,
                   emit (EvLog LOG_LEVEL_VERBOSE "Sleeping for %s %ju seconds") w)) in *.
    assert (Hflag1 : termination_pending
                       (snd (pass seconds runagent_socket (se_started env) st0 r)) = true).
    { unfold pass, handed_over. cbn [fst snd].
      destruct (rd_ret r >? 0); [destruct (rd_fork r =? -1)|]; simpl;
        rewrite Hlate; apply orb_true_r. }
    cbv zeta. split; [exact Hflag1|]. split; [reflexivity|].
    rewrite HandleRequestsOrSleep_eq, Hp. cbv zeta.
    destruct (Z.geb_spec runagent_socket 0) as [_|]; [|lia].
    rewrite Hrounds, Hloop.
    rewrite (select_loop_goes_on seconds runagent_socket cmd (se_started env) (fst st0) r
               (last :: rest) (snd st0) Hrem Hwoke);
      [|now rewrite Hp0, Hquiet | exact Hparent].
    change (select_loop seconds runagent_socket cmd (se_started env)
              (mk_timeval (seconds_left seconds (se_started env) r) (tv_usec (rd_left r)))
              (last :: rest)
              (arrive (rd_service r)
                 (if rd_ret r >? 0
                  then handed_over runagent_socket r
                         (arrive (rd_async r)
                            (emit (EvSelect (runagent_socket + 1) (fst st0)) (snd st0)))
                  else arrive (rd_async r)
                         (emit (EvSelect (runagent_socket + 1) (fst st0)) (snd st0)))))
      with (select_loop seconds runagent_socket cmd (se_started env)
              (fst (pass seconds runagent_socket (se_started env) st0 r)) (last :: rest)
              (snd (pass seconds runagent_socket (se_started env) st0 r))).
    set (st := pass seconds runagent_socket (se_started env) st0 r) in *.
    rewrite select_loop_step. cbv zeta.
    destruct (Z.eqb_spec (tv_sec (fst st)) 0) as [Hz|_]; [now apply Hleft in Hz|].
    rewrite Hlast. cbn [Z.eqb andb].
    rewrite select_loop_out_of_time by reflexivity.
    cbn [termination_pending arrive emit]. rewrite Hflag1. reflexivity.
  - intros Hs Hp. rewrite HandleRequestsOrSleep_eq, Hp. cbv zeta.
    destruct (Z.geb_spec runagent_socket 0) as [|_]; [lia|].
    cbn [termination_pending arrive emit]. rewrite Hp. simpl.
    rewrite !emit_emits, emits_emits. reflexivity.
Qed.


(** The timeouts of the calls of [select] in the loop: when [select] does
    not fail, the clock does not run backwards and every timeout [select]
    leaves has its microseconds in range, then so has every timeout it is
    called with, and none has more seconds than were requested. *)
Lemma select_loop_timeouts
    (seconds runagent_socket : Z) (cmd : option string) (sleep_started : Z)
    (rounds : list Round) :
  Forall (fun r => (rd_ret r =? -1) && negb (rd_eintr r) = false /\
                   sleep_started <= rd_now r <= rd_now2 r /\
                   0 <= tv_usec (rd_left r) < 1000000) rounds ->
  forall (remaining : timeval) (w : World),
    tv_sec remaining <= Z.max 0 seconds ->
    0 <= tv_usec remaining < 1000000 ->
    forall nfds tv,
      In (EvSelect nfds tv)
         (trace (final (select_loop seconds runagent_socket cmd sleep_started
                                    remaining rounds w))) ->
      In (EvSelect nfds tv) (trace w) \/
      (tv_sec tv <= Z.max 0 seconds /\ 0 <= tv_usec tv < 1000000).
Proof.
  assert (Hother : forall (e : Event) (l : list Event) nfds tv,
             (forall n t, e <> EvSelect n t) ->
             In (EvSelect nfds tv) (l ++ [e]) -> In (EvSelect nfds tv) l).
  { intros e l nfds tv He Hin. apply in_app_or in Hin. destruct Hin as [H|[H|[]]]; [exact H|].
    now apply He in H. }
  assert (Hsel : forall (l : list Event) n t nfds tv,
             In (EvSelect nfds tv) (l ++ [EvSelect n t]) ->
             In (EvSelect nfds tv) l \/ tv = t).
  { intros l n t nfds tv Hin. apply in_app_or in Hin. destruct Hin as [H|[H|[]]]; [now left|].
    right. now injection H. }
  induction rounds as [|r rest IH]; intros Hall remaining w Hrem Husec nfds tv.
  - simpl. destruct (tv_sec remaining =? 0); simpl; auto.
  - inversion Hall as [|r' rest' (Hok & Hclock & Hleft) Hrest]; subst.
    rewrite select_loop_step. cbv zeta. rewrite Hok.
    destruct (tv_sec remaining =? 0); [simpl; auto|].
    set (good := tv_sec tv <= Z.max 0 seconds /\ 0 <= tv_usec tv < 1000000).
    assert (Hfirst : forall w1,
               trace w1 = (trace w ++ [EvSelect (runagent_socket + 1) remaining])%list ->
               In (EvSelect nfds tv) (trace w1) ->
               In (EvSelect nfds tv) (trace w) \/ good).
    { intros w1 Heq Hin. rewrite Heq in Hin. apply Hsel in Hin.
      destruct Hin as [H| ->]; [now left | right; now split]. }
    destruct (rd_ret r =? 0).
    { intros H. apply IH in H; [|exact Hrest|simpl; lia|exact Hleft].
      destruct H as [H|H]; [|now right]. revert H. now apply Hfirst. }
    destruct (termination_pending (arrive _ _)).
    { simpl. intros H. revert H. now apply (Hfirst (emit _ w)). }
    assert (Hmax : seconds_left seconds sleep_started r <= Z.max 0 seconds).
    { pose proof (seconds_left_cases seconds sleep_started r) as Hc. cbv zeta in Hc.
      destruct Hc as (_ & _ & _ & Hle & _). lia. }
    destruct (rd_ret r >? 0).
    + destruct (rd_fork r =? 0) eqn:Hf.
      * unfold handler_exit. simpl. intros H.
        repeat (apply Hother in H; [|intros; discriminate]).
        revert H. now apply (Hfirst (emit _ w)).
      * intros H. apply IH in H; [|exact Hrest|exact Hmax|exact Hleft].
        destruct H as [H|H]; [|now right]. unfold handed_over in H.
        destruct (rd_fork r =? -1); simpl in H;
          repeat (apply Hother in H; [|intros; discriminate]);
          revert H; now apply (Hfirst (emit _ w)).
    + intros H. apply IH in H; [|exact Hrest|exact Hmax|exact Hleft].
      destruct H as [H|H]; [|now right]. revert H. now apply Hfirst.
Qed.

(** X11.  Over a whole call of [HandleRequestsOrSleep]: as long as [select]
    does not fail and the clock does not run backwards, no [select] is
    called with more whole seconds than were requested, however many
    connections come in; its microseconds are 0 or what an earlier
    [select] left, so every timeout is less than one second above the
    seconds requested. *)
Theorem HandleRequestsOrSleep_timeouts_bounded
    (seconds : Z) (reason : string) (runagent_socket : Z) (cmd : option string)
    (env : SleepEnv) (w : World) :
  Forall (fun r => (rd_ret r =? -1) && negb (rd_eintr r) = false /\
                   se_started env <= rd_now r <= rd_now2 r /\
                   0 <= tv_usec (rd_left r) < 1000000) (se_rounds env) ->
  forall nfds tv,
    In (EvSelect nfds tv)
       (trace (final (HandleRequestsOrSleep seconds reason runagent_socket cmd env w))) ->
    In (EvSelect nfds tv) (trace w) \/
    (tv_sec tv <= Z.max 0 seconds /\ 0 <= tv_usec tv < 1000000).
Proof.
  intros Hall nfds tv. rewrite HandleRequestsOrSleep_eq. cbv zeta.
  destruct (termination_pending w); [simpl; auto|].
  assert (Hlog : forall l : list Event,
             In (EvSelect nfds tv)
                (l ++ [EvLog LOG_LEVEL_VERBOSE "Sleeping for %s %ju seconds"]) ->
             In (EvSelect nfds tv) l).
  { intros l Hin. apply in_app_or in Hin. destruct Hin as [H|[H|[]]]; [exact H|discriminate]. }
  destruct (runagent_socket >=? 0).
  - pose proof (select_loop_timeouts seconds runagent_socket cmd (se_started env)
                  (se_rounds env) Hall (mk_timeval seconds 0)
                  (emit (EvLog LOG_LEVEL_VERBOSE "Sleeping for %s %ju seconds") w)) as Hloop.
    intros Hin.
    assert (Hin' : In (EvSelect nfds tv)
                      (trace (final (select_loop seconds runagent_socket cmd (se_started env)
                                       (mk_timeval seconds 0) (se_rounds env)
                                       (emit (EvLog LOG_LEVEL_VERBOSE
                                                "Sleeping for %s %ju seconds") w))))).
    { destruct (select_loop _ _ _ _ _ _ _) as [[b|] w'| |]; exact Hin. }
    apply Hloop in Hin'; [|simpl; lia|simpl; lia].
    destruct Hin' as [H|H]; [left; now apply Hlog | now right].
  - simpl. intros Hin. left.
    apply in_app_or in Hin. destruct Hin as [H|[H|[]]]; [now apply Hlog | discriminate].
Qed.

(** *** The handler of a runagent request *)

(** X10.  The child: when [fork] answers 0 after a connection has been
    accepted, the process sets SIGPIPE back to its default, runs
    [HandleRunagentRequest] on the accepted descriptor and leaves with
    [EXIT_SUCCESS]. *)
Lemma runagent_handler_child
    (seconds runagent_socket : Z) (cmd : option string) (sleep_started : Z)
    (remaining : timeval) (r : Round) (rest : list Round) (w : World) :
  tv_sec remaining <> 0 ->
  select_woke r = true ->
  termination_pending w || async_term (rd_async r) = false ->
  rd_ret r > 0 ->
  rd_fork r = 0 ->
  exists w',
    select_loop seconds runagent_socket cmd sleep_started remaining (r :: rest) w
    = Exited EXIT_SUCCESS w' /\
    sigpipe w' = SIG_DFL /\
    trace w' = (trace w ++ [EvSelect (runagent_socket + 1) remaining;
                            EvAccept runagent_socket (rd_accept r);
                            EvFork 0;
                            EvSignal SIGPIPE SIG_DFL;
                            EvHandleRunagentRequest (rd_accept r) cmd])%list.
Proof.
  intros Hrem Hwoke Hp Hpos Hchild.
  rewrite select_loop_step. cbv zeta.
  destruct (Z.eqb_spec (tv_sec remaining) 0) as [|_]; [contradiction|].
  unfold select_woke in Hwoke. apply andb_true_iff in Hwoke. destruct Hwoke as [H1 H2].
  apply negb_true_iff in H1, H2. rewrite H1, H2.
  change (termination_pending
            (arrive (rd_async r) (emit (EvSelect (runagent_socket + 1) remaining) w)))
    with (termination_pending w || async_term (rd_async r)).
  rewrite Hp.
  destruct (Z.gtb_spec (rd_ret r) 0) as [_|]; [|lia].
  rewrite Hchild. simpl. eexists. split; [reflexivity|]. split; [reflexivity|].
  unfold handler_exit. rewrite Hchild. simpl. rewrite <- !app_assoc. reflexivity.
Qed.

(** The parent: the accepted descriptor is still open when the parent
    goes back to the wait, and nothing has closed it. *)
Lemma runagent_handler_parent
    (seconds runagent_socket : Z) (cmd : option string) (sleep_started : Z)
    (remaining : timeval) (r : Round) (rest : list Round) (w : World) :
  tv_sec remaining <> 0 ->
  select_woke r = true ->
  termination_pending w || async_term (rd_async r) = false ->
  rd_ret r > 0 ->
  rd_fork r <> 0 ->
  0 <= rd_accept r ->
  exists w' remaining' evs,
    select_loop seconds runagent_socket cmd sleep_started remaining (r :: rest) w
    = select_loop seconds runagent_socket cmd sleep_started remaining' rest w' /\
    In (rd_accept r) (open_fds w') /\
    trace w' = (trace w ++ evs)%list /\
    forall fd, ~ In (EvClose fd) evs.
Proof.
  intros Hrem Hwoke Hp Hpos Hparent Hfd.
  pose proof (select_loop_goes_on seconds runagent_socket cmd sleep_started
                remaining r rest w Hrem Hwoke Hp (fun _ => Hparent)) as Hstep.
  destruct (Z.gtb_spec (rd_ret r) 0) as [_|]; [|lia].
  eexists; eexists. 
  exists (EvSelect (runagent_socket + 1) remaining :: EvAccept runagent_socket (rd_accept r)
          :: EvFork (rd_fork r)
          :: if rd_fork r =? -1
             then [EvLog LOG_LEVEL_ERR "Failed to fork runagent request handler: %s"]
             else []).
  split; [exact Hstep|].
  unfold handed_over, add_fd.
  destruct (Z.leb_spec 0 (rd_accept r)) as [_|]; [|lia].
  destruct (rd_fork r =? -1); simpl; (split; [now left|]);
    (split; [rewrite <- !app_assoc; reflexivity|]);
    intros fd Hin; intuition discriminate.
Qed.

(** The loop never closes a descriptor: every [EvClose] in the trace it
    ends with was there before. *)
Lemma select_loop_never_closes (seconds runagent_socket : Z) (cmd : option string)
    (sleep_started : Z) (rounds : list Round) :
  forall (remaining : timeval) (w : World) (fd : Z),
    In (EvClose fd)
       (trace (final (select_loop seconds runagent_socket cmd sleep_started
                                  remaining rounds w))) ->
    In (EvClose fd) (trace w).
Proof.
  assert (Hstep : forall (e : Event) (l : list Event) fd,
             (forall fd', e <> EvClose fd') -> In (EvClose fd) (l ++ [e]) -> In (EvClose fd) l).
  { intros e l fd He Hin. apply in_app_or in Hin. destruct Hin as [H|[H|[]]]; [exact H|].
    now apply He in H. }
  induction rounds as [|r rest IH]; intros remaining w fd.
  - simpl. destruct (tv_sec remaining =? 0); simpl; auto.
  - rewrite select_loop_step. cbv zeta.
    destruct (tv_sec remaining =? 0); [simpl; auto|].
    destruct ((rd_ret r =? -1) && negb (rd_eintr r)).
    { intros H. apply IH in H. simpl in H.
      repeat (apply Hstep in H; [|intros; discriminate]). exact H. }
    destruct (rd_ret r =? 0).
    { intros H. apply IH in H. simpl in H.
      repeat (apply Hstep in H; [|intros; discriminate]). exact H. }
    destruct (termination_pending (arrive _ _)).
    { simpl. intros H. repeat (apply Hstep in H; [|intros; discriminate]). exact H. }
    destruct (rd_ret r >? 0).
    + destruct (rd_fork r =? 0) eqn:Hf.
      * unfold handler_exit. simpl. intros H.
        repeat (apply Hstep in H; [|intros; discriminate]). exact H.
      * intros H. apply IH in H. unfold handed_over in H.
        destruct (rd_fork r =? -1); simpl in H;
          repeat (apply Hstep in H; [|intros; discriminate]); exact H.
    + intros H. apply IH in H. simpl in H.
      repeat (apply Hstep in H; [|intros; discriminate]). exact H.
Qed.

(** *** The main loop *)

Lemma reap_returns (answers : list Z) (w : World) :
  exists evs, reap answers w = Ret tt (emits evs w) /\
              Forall (fun e => match e with EvWaitpid _ | EvLog _ _ => True | _ => False end) evs.
Proof.
  revert w. induction answers as [|pid answers IH]; intros w.
  - exists [EvWaitpid 0]. split; [reflexivity | repeat constructor].
  - simpl. unfold_m. destruct (pid >? 0).
    + destruct (IH (emit (EvLog LOG_LEVEL_DEBUG "Reaped child process") (emit (EvWaitpid pid) w)))
        as (evs & Heq & Hall).
      rewrite Heq. rewrite !emit_emits, !emits_emits. eexists. split; [reflexivity|].
      repeat constructor. exact Hall.
    + exists [EvWaitpid pid]. split; [reflexivity | repeat constructor].
Qed.

(** [LocalExecInFork] when [fork] fails. *)
Lemma LocalExecInFork_fails (cfg : ExecConfig) (a : Async) (w : World) :
  LocalExecInFork cfg (-1) a w
  = Ret (-1) (emits [EvLog LOG_LEVEL_VERBOSE "Forking for exec_command execution";
                     EvFork (-1);
                     EvLog LOG_LEVEL_ERR "Failed to fork for exec_command execution: %s"] w).
Proof.
  unfold LocalExecInFork. unfold_m. simpl. rewrite !emit_emits, !emits_emits. reflexivity.
Qed.

(** C7.  In a turn of the main loop in which [ScheduleRun] says yes and
    the splay sleep does not ask to terminate, a negative pid from
    [LocalExecInFork] makes the daemon write the info line about the
    fallback and run [LocalExec] itself, in the same turn and before
    anything else; the turn then goes on with the pulse sleep of
    [CFPULSETIME] seconds, whose answer is the answer of the turn. *)
Theorem C7_fork_failure_runs_inline
    (g : Globals) (runagent_socket : Z) (te : TickEnv) (d d1 : Daemon)
    (w w0 w1 w2 w3 : World) (child_pid : Z) :
  reap (te_waitpid te) w = Ret tt w0 ->
  ScheduleRun g (te_tick te) d w0 = Ret (true, d1) w1 ->
  HandleRequestsOrSleep (splay_time (execd_config d1)) "splay time" runagent_socket
    (local_run_command (execd_config d1)) (te_splay te) w1 = Ret false w2 ->
  LocalExecInFork (exec_config d1) (te_fork te) (te_exec te) w2 = Ret child_pid w3 ->
  child_pid < 0 ->
  main_loop_body g runagent_socket te d w
  = bind (HandleRequestsOrSleep CFPULSETIME "pulse time" runagent_socket
            (local_run_command (execd_config d1)) (te_pulse te))
         (fun terminate => ret (terminate, d1))
         (arrive (te_exec te)
            (emits [EvLog LOG_LEVEL_INFO
                      "Unable to run agent in a fork, falling back to blocking execution";
                    EvLocalExec (exec_config d1)] w3)).
Proof.
  intros Hreap Hrun Hsplay Hfork Hneg.
  unfold main_loop_body.
  rewrite (bind_Ret _ _ _ _ _ Hreap).
  rewrite (bind_Ret _ _ _ _ _ Hrun). cbv beta iota.
  unfold bind at 1. unfold bind at 1. rewrite Hsplay.
  unfold bind at 1. rewrite Hfork.
  destruct (Z.ltb_spec child_pid 0) as [_|]; [|lia].
  unfold_m. simpl. rewrite !emit_emits, !emits_emits. reflexivity.
Qed.

(** *** The command line *)

Section CheckOptsProperties.

Variable GenericAgentConfigNewDefault : GenericAgentConfig.
Variable GenericAgentConfigSetInputFile : GenericAgentConfig -> string -> GenericAgentConfig.
Variable StringSetFromString : string -> ascii -> gset string.
Variable LogLevelFromString : string -> option LogLevel.
Variable GenericAgentConfigParseColor :
  GenericAgentConfig -> option string -> option GenericAgentConfig.
Variable GenericAgentConfigParseArguments :
  GenericAgentConfig -> list string -> option GenericAgentConfig.

Local Abbreviation case :=
  (CheckOpts_case GenericAgentConfigSetInputFile StringSetFromString
     LogLevelFromString GenericAgentConfigParseColor).
Local Abbreviation loop :=
  (getopt_loop GenericAgentConfigSetInputFile StringSetFromString
     LogLevelFromString GenericAgentConfigParseColor).
Local Abbreviation parse :=
  (CheckOpts GenericAgentConfigNewDefault GenericAgentConfigSetInputFile
     StringSetFromString LogLevelFromString GenericAgentConfigParseColor
     GenericAgentConfigParseArguments).

Ltac split_cases :=
  repeat match goal with
         | |- context [if Ascii.eqb ?c ?x then _ else _] => destruct (Ascii.eqb c x)
         | |- context [if String.eqb ?c ?x then _ else _] => destruct (String.eqb c x)
         | |- context [if StringEqual_IgnoreCase ?c ?x then _ else _] =>
             destruct (StringEqual_IgnoreCase c x)
         | H : context [if Ascii.eqb ?c ?x then _ else _] |- _ => destruct (Ascii.eqb c x)
         | H : context [if String.eqb ?c ?x then _ else _] |- _ => destruct (String.eqb c x)
         | H : context [if StringEqual_IgnoreCase ?c ?x then _ else _] |- _ =>
             destruct (StringEqual_IgnoreCase c x)
         end.

(** The case of [-v]: the level goes to verbose and [NO_FORK] is set,
    nothing else changes. *)
Lemma CheckOpts_case_v (optarg : option string) (st : OptState) :
  case (Short "v" optarg) st
  = inl (on_globals (with_NO_FORK true)
           (on_ambient (LogSetGlobalLevel LOG_LEVEL_VERBOSE) st)).
Proof. reflexivity. Qed.

Lemma CheckOpts_case_F (optarg : option string) (st : OptState) :
  case (Short "F" optarg) st = inl (on_globals (with_NO_FORK true) st).
Proof. reflexivity. Qed.

(** No case clears [NO_FORK]. *)
Lemma CheckOpts_case_keeps_NO_FORK (o : Getopt) (st st' : OptState) :
  case o st = inl st' ->
  NO_FORK (os_globals st) = true -> NO_FORK (os_globals st') = true.
Proof.
  unfold CheckOpts_case. intros H Hn.
  destruct o as [c optarg | name optarg]; split_cases;
    repeat match goal with
           | H : context [match ?x with _ => _ end] |- _ => destruct x
           end;
    try discriminate; injection H as <-; simpl; auto.
Qed.

Lemma getopt_loop_keeps_NO_FORK (opts : list Getopt) :
  forall st st', loop opts st = inl st' ->
  NO_FORK (os_globals st) = true -> NO_FORK (os_globals st') = true.
Proof.
  induction opts as [|o opts IH]; intros st st'; simpl.
  - now intros [= <-].
  - destruct (CheckOpts_case _ _ _ _ o st) as [st1|code] eqn:Hc; [|discriminate].
    intros Hl Hn. apply (IH _ _ Hl). now apply (CheckOpts_case_keeps_NO_FORK o st).
Qed.

Lemma getopt_loop_v_sets_NO_FORK (opts : list Getopt) (optarg : option string) :
  In (Short "v" optarg) opts ->
  forall st st', loop opts st = inl st' -> NO_FORK (os_globals st') = true.
Proof.
  induction opts as [|o opts IH]; intros Hin st st'; [destruct Hin|].
  simpl. destruct (CheckOpts_case _ _ _ _ o st) as [st1|code] eqn:Hc; [|discriminate].
  intros Hl. destruct Hin as [->|Hin].
  - apply (getopt_loop_keeps_NO_FORK opts _ _ Hl).
    change (case (Short "v" optarg) st = inl st1) in Hc. rewrite CheckOpts_case_v in Hc.
    now injection Hc as <-.
  - now apply (IH Hin st1).
Qed.

(** The cases do not look at [NO_FORK]. *)
Lemma CheckOpts_case_same (o : Getopt) (st1 st2 : OptState) :
  same_but_NO_FORK st1 st2 ->
  match case o st1, case o st2 with
  | inl a, inl b => same_but_NO_FORK a b
  | inr c1, inr c2 => c1 = c2
  | _, _ => False
  end.
Proof.
  unfold same_but_NO_FORK, CheckOpts_case.
  destruct st1 as [[p1 n1 o1 w1 r1] c1 a1], st2 as [[p2 n2 o2 w2 r2] c2 a2].
  unfold on_globals, with_NO_FORK. simpl. intros [= -> -> -> -> -> ->].
  destruct o as [c optarg | name optarg]; split_cases; simpl; try reflexivity;
    repeat match goal with
           | |- context [LogLevelFromString ?s] => destruct (LogLevelFromString s)
           | |- context [GenericAgentConfigParseColor ?c ?o] =>
               destruct (GenericAgentConfigParseColor c o)
           | |- context [match ?x with Some _ => _ | None => _ end] => is_var x; destruct x
           end; split_cases; simpl; try reflexivity.
Qed.

Lemma getopt_loop_same (opts : list Getopt) :
  forall st1 st2, same_but_NO_FORK st1 st2 ->
  match loop opts st1, loop opts st2 with
  | inl a, inl b => same_but_NO_FORK a b
  | inr c1, inr c2 => c1 = c2
  | _, _ => False
  end.
Proof.
  induction opts as [|o opts IH]; intros st1 st2 Hs; simpl; [exact Hs|].
  pose proof (CheckOpts_case_same o st1 st2 Hs) as Hc.
  destruct (CheckOpts_case _ _ _ _ o st1), (CheckOpts_case _ _ _ _ o st2);
    try contradiction; [now apply IH | exact Hc].
Qed.

Lemma getopt_loop_app (opts1 opts2 : list Getopt) (st : OptState) :
  loop (opts1 ++ opts2) st
  = match loop opts1 st with
    | inl st1 => loop opts2 st1
    | inr code => inr code
    end.
Proof.
  revert st. induction opts1 as [|o opts1 IH]; intros st; simpl; [reflexivity|].
  destruct (CheckOpts_case _ _ _ _ o st); [apply IH | reflexivity].
Qed.

Lemma same_but_NO_FORK_eq (st1 st2 : OptState) :
  same_but_NO_FORK st1 st2 ->
  NO_FORK (os_globals st1) = true -> NO_FORK (os_globals st2) = true -> st1 = st2.
Proof.
  unfold same_but_NO_FORK, on_globals, with_NO_FORK.
  destruct st1 as [[p1 n1 o1 w1 r1] c1 a1], st2 as [[p2 n2 o2 w2 r2] c2 a2]. simpl.
  intros [= -> -> -> -> -> ->] -> ->. reflexivity.
Qed.

Lemma NO_FORK_stays_in_foreground (g : Globals) :
  NO_FORK g = true -> stays_in_foreground g.
Proof.
  intros Hn fork_answer w. unfold StartServer_detach. rewrite Hn. unfold_m. simpl.
  destruct (ONCE g); simpl.
  - exists []. rewrite emits_nil. split; [reflexivity | intros e []].
  - exists [EvApoptosis]. split; [reflexivity|]. intros e [<-|[]]. reflexivity.
Qed.

(** C10.  When [-v] is among the options and option parsing does not
    leave the process, [NO_FORK] is set at the end, so [StartServer] neither
    forks nor detaches; and the outcome of option parsing is the one of the
    same command line with [-F] added anywhere.  The case of [-v] itself
    sets the log level to verbose and [NO_FORK] to true. *)
Theorem C10_verbose_sets_NO_FORK
    (a : Ambient) (opts : list Getopt) (operands : list string)
    (optarg : option string) (st : OptState) :
  In (Short "v" optarg) opts ->
  parse a opts operands = inl st ->
  NO_FORK (os_globals st) = true /\
  stays_in_foreground (os_globals st) /\
  (forall opts1 opts2,
     opts = (opts1 ++ opts2)%list ->
     parse a (opts1 ++ Short "F" None :: opts2)%list operands = parse a opts operands) /\
  (forall st0,
     exists st1,
       case (Short "v" optarg) st0 = inl st1 /\
       global_log_level (os_ambient st1) = LOG_LEVEL_VERBOSE /\
       NO_FORK (os_globals st1) = true).
Proof.
  intros Hin Hparse.
  assert (Hloop : forall l, In (Short "v" optarg) l ->
             forall s s', loop l s = inl s' -> NO_FORK (os_globals s') = true)
    by (intros l Hl; now apply getopt_loop_v_sets_NO_FORK with (optarg := optarg)).
  assert (Hn : NO_FORK (os_globals st) = true).
  { unfold CheckOpts in Hparse.
    destruct (getopt_loop _ _ _ _ opts _) as [s|code] eqn:Hl; [|discriminate].
    destruct (GenericAgentConfigParseArguments _ _); [|discriminate].
    injection Hparse as <-. simpl. exact (Hloop opts Hin _ _ Hl). }
  split; [exact Hn|]. split; [now apply NO_FORK_stays_in_foreground|]. split.
  - intros opts1 opts2 ->. unfold CheckOpts.
    rewrite !getopt_loop_app.
    destruct (loop opts1 _) as [s1|code] eqn:H1; [|reflexivity].
    change (loop (Short "F" None :: opts2) s1)
      with (match case (Short "F" None) s1 with
            | inl s => loop opts2 s
            | inr code => inr code
            end).
    rewrite CheckOpts_case_F.
    assert (Hs : same_but_NO_FORK (on_globals (with_NO_FORK true) s1) s1).
    { unfold same_but_NO_FORK. now destruct s1 as [[] ? ?]. }
    pose proof (getopt_loop_same opts2 _ _ Hs) as Hsame.
    destruct (loop opts2 (on_globals (with_NO_FORK true) s1)) as [sa|ca] eqn:Ha,
             (loop opts2 s1) as [sb|cb] eqn:Hb; try contradiction; [|now subst].
    assert (sa = sb) as ->; [|reflexivity].
    apply same_but_NO_FORK_eq; [exact Hsame| |].
    + apply (getopt_loop_keeps_NO_FORK opts2 _ _ Ha). now destruct s1 as [[] ? ?].
    + apply in_app_or in Hin. destruct Hin as [Hin|Hin].
      * apply (getopt_loop_keeps_NO_FORK opts2 _ _ Hb). exact (Hloop opts1 Hin _ _ H1).
      * exact (Hloop opts2 Hin _ _ Hb).
  - intros st0. eexists. split; [apply CheckOpts_case_v|]. split; reflexivity.
Qed.

(** *** What the flags are after parsing *)

Ltac name_cases :=
  repeat match goal with
         | |- context [Ascii.eqb ?c ?x] =>
             destruct (Ascii.eqb_spec c x); [subst; cbn [Ascii.eqb Bool.eqb andb orb] in * |]
         | |- context [String.eqb ?c ?x] =>
             destruct (String.eqb_spec c x); [subst; simpl in * |]
         | H : context [Ascii.eqb ?c ?x] |- _ =>
             destruct (Ascii.eqb_spec c x); [subst; cbn [Ascii.eqb Bool.eqb andb orb] in * |]
         | H : context [String.eqb ?c ?x] |- _ =>
             destruct (String.eqb_spec c x); [subst; simpl in * |]
         end.

Lemma CheckOpts_case_flags (o : Getopt) (st st' : OptState) :
  case o st = inl st' ->
  NO_FORK (os_globals st') = NO_FORK (os_globals st) || sets_NO_FORK o /\
  ONCE (os_globals st') = ONCE (os_globals st) || sets_ONCE o /\
  (PERFORM_DB_CHECK (os_globals st') = true ->
   PERFORM_DB_CHECK (os_globals st) = true \/ asks_for_db_check o = true).
Proof.
  unfold CheckOpts_case, sets_NO_FORK, sets_ONCE, asks_for_db_check. intros H.
  destruct o as [c optarg | name optarg].
  - name_cases;
      repeat match goal with
             | H : context [match ?x with _ => _ end] |- _ => destruct x
             end;
      try discriminate; injection H as <-; simpl;
      rewrite ?orb_false_r, ?orb_true_r; auto.
  - name_cases;
      repeat match goal with
             | H : context [match ?x with _ => _ end] |- _ => destruct x eqn:?
             | H : context [if ?x then _ else _] |- _ => destruct x eqn:?
             end;
      try discriminate; injection H as <-; simpl;
      rewrite ?orb_false_r, ?orb_true_r; auto; repeat split; auto; discriminate.
Qed.

Lemma getopt_loop_flags (opts : list Getopt) :
  forall st st', loop opts st = inl st' ->
  NO_FORK (os_globals st') = NO_FORK (os_globals st) || existsb sets_NO_FORK opts /\
  ONCE (os_globals st') = ONCE (os_globals st) || existsb sets_ONCE opts /\
  (PERFORM_DB_CHECK (os_globals st') = true ->
   PERFORM_DB_CHECK (os_globals st) = true \/ existsb asks_for_db_check opts = true).
Proof.
  induction opts as [|o opts IH]; intros st st'; simpl.
  - intros [= <-]. rewrite !orb_false_r. auto.
  - destruct (CheckOpts_case _ _ _ _ o st) as [st1|code] eqn:Hc; [|discriminate].
    intros Hl. destruct (IH _ _ Hl) as (Hn & Ho & Hd).
    destruct (CheckOpts_case_flags o st st1 Hc) as (Hn1 & Ho1 & Hd1).
    rewrite Hn, Ho, Hn1, Ho1, !orb_assoc. split; [reflexivity|]. split; [reflexivity|].
    intros Hp. destruct (Hd Hp) as [H1| ->]; [|right; apply orb_true_r].
    destruct (Hd1 H1) as [H0| ->]; [now left | now right].
Qed.

Lemma CheckOpts_flags (a : Ambient) (opts : list Getopt) (operands : list string)
    (st : OptState) :
  parse a opts operands = inl st ->
  NO_FORK (os_globals st) = existsb sets_NO_FORK opts /\
  ONCE (os_globals st) = existsb sets_ONCE opts /\
  (PERFORM_DB_CHECK (os_globals st) = true -> existsb asks_for_db_check opts = true).
Proof.
  unfold CheckOpts. intros Hparse.
  destruct (getopt_loop _ _ _ _ opts _) as [s|code] eqn:Hl; [|discriminate].
  destruct (GenericAgentConfigParseArguments _ _); [|discriminate].
  injection Hparse as <-. simpl.
  destruct (getopt_loop_flags opts _ _ Hl) as (Hn & Ho & Hd). simpl in Hn, Ho, Hd.
  split; [exact Hn|]. split; [exact Ho|].
  intros Hp. destruct (Hd Hp) as [H|H]; [discriminate | exact H].
Qed.

(** X4.  When option parsing does not leave the process, [NO_FORK] is set at
    the end exactly when [-v], [-F] or [-O] was among the options: no other
    option sets it and none clears it. *)
Theorem CheckOpts_NO_FORK_iff
    (a : Ambient) (opts : list Getopt) (operands : list string) (st : OptState) :
  parse a opts operands = inl st ->
  (NO_FORK (os_globals st) = true <->
   exists optarg, In (Short "v" optarg) opts \/ In (Short "F" optarg) opts \/
                  In (Short "O" optarg) opts).
Proof.
  intros Hparse. destruct (CheckOpts_flags _ _ _ _ Hparse) as (-> & _).
  rewrite existsb_exists. split.
  - intros ([c optarg|] & Hin & Hs); [|discriminate]. exists optarg.
    unfold sets_NO_FORK in Hs.
    destruct (Ascii.eqb_spec c "v") as [->|_]; [now left|].
    destruct (Ascii.eqb_spec c "F") as [->|_]; [now right; left|].
    destruct (Ascii.eqb_spec c "O") as [->|_]; [now right; right | discriminate].
  - intros (optarg & [H|[H|H]]); eexists; (split; [exact H | reflexivity]).
Qed.

(** X5.  A run-once instance stays alone in the foreground: [ONCE] is set only
    by [-O], which sets [NO_FORK] too, so whenever [ONCE] is set after
    parsing the start of the server neither looks for earlier instances to
    kill nor forks nor detaches; it does nothing at all. *)
Theorem CheckOpts_ONCE_starts_quietly
    (a : Ambient) (opts : list Getopt) (operands : list string) (st : OptState) :
  parse a opts operands = inl st ->
  ONCE (os_globals st) = true ->
  (exists optarg, In (Short "O" optarg) opts) /\
  NO_FORK (os_globals st) = true /\
  forall fork_answer w, StartServer_detach (os_globals st) fork_answer w = Ret tt w.
Proof.
  intros Hparse Honce. destruct (CheckOpts_flags _ _ _ _ Hparse) as (Hn & Ho & _).
  rewrite Ho in Honce. apply existsb_exists in Honce.
  destruct Honce as ([c optarg|] & Hin & Hs); [|discriminate].
  unfold sets_ONCE in Hs. apply Ascii.eqb_eq in Hs. subst c.
  assert (Hfg : NO_FORK (os_globals st) = true).
  { rewrite Hn. apply existsb_exists. eexists. split; [exact Hin | reflexivity]. }
  split; [now exists optarg|]. split; [exact Hfg|].
  intros fork_answer w. unfold StartServer_detach.
  rewrite Hfg, Ho.
  replace (existsb sets_ONCE opts) with true
    by (symmetry; apply existsb_exists; eexists; split; [exact Hin | reflexivity]).
  reflexivity.
Qed.

(** X6.  The check of the databases at start is off unless the command line
    asks for it: [PERFORM_DB_CHECK] is set after parsing only if
    [--skip-db-check] was given with an argument that is "no" in some
    spelling. *)
Theorem CheckOpts_db_check_only_on_request
    (a : Ambient) (opts : list Getopt) (operands : list string) (st : OptState) :
  parse a opts operands = inl st ->
  PERFORM_DB_CHECK (os_globals st) = true ->
  exists arg, In (LongOnly "skip-db-check" (Some arg)) opts /\
              StringEqual_IgnoreCase arg "no" = true.
Proof.
  intros Hparse Hp. destruct (CheckOpts_flags _ _ _ _ Hparse) as (_ & _ & Hd).
  apply Hd, existsb_exists in Hp. destruct Hp as ([|name [arg|]] & Hin & Hs); try discriminate.
  unfold asks_for_db_check in Hs. apply andb_true_iff in Hs. destruct Hs as [Hname Harg].
  apply String.eqb_eq in Hname. subst name. now exists arg.
Qed.

(** *** How option parsing leaves the process *)

Lemma CheckOpts_case_exit (o : Getopt) (st : OptState) (code : Z) :
  case o st = inr code ->
  code = EXIT_FAILURE \/ (code = EXIT_SUCCESS /\ informational o = true).
Proof.
  unfold CheckOpts_case, informational. intros H.
  destruct o as [c optarg | name optarg].
  - name_cases;
      repeat match goal with
             | H : context [match ?x with _ => _ end] |- _ => destruct x
             end;
      try discriminate; injection H as <-; auto.
  - name_cases;
      repeat match goal with
             | H : context [match ?x with _ => _ end] |- _ => destruct x eqn:?
             | H : context [if ?x then _ else _] |- _ => destruct x eqn:?
             end;
      try discriminate; injection H as <-; auto.
Qed.

Lemma CheckOpts_case_informational (o : Getopt) (st : OptState) :
  informational o = true -> case o st = inr EXIT_SUCCESS.
Proof.
  unfold CheckOpts_case, informational.
  destruct o as [c optarg | name optarg]; [|discriminate].
  intros H. name_cases; try reflexivity; discriminate.
Qed.

(** X7.  Option parsing leaves the process with [EXIT_SUCCESS] only through
    [-V], [-h], [-M] or [-x]; every other way out of it is
    [EXIT_FAILURE]. *)
Theorem CheckOpts_exit_codes
    (a : Ambient) (opts : list Getopt) (operands : list string) (code : Z) :
  parse a opts operands = inr code ->
  code = EXIT_FAILURE \/
  (code = EXIT_SUCCESS /\ exists o, In o opts /\ informational o = true).
Proof.
  unfold CheckOpts.
  generalize (mk_opt_state initial_globals GenericAgentConfigNewDefault a).
  induction opts as [|o opts IH]; intros st; simpl.
  - destruct (GenericAgentConfigParseArguments _ _); [discriminate|]. intros [= <-]. now left.
  - destruct (CheckOpts_case _ _ _ _ o st) as [st1|c] eqn:Hc.
    + intros H. destruct (IH _ H) as [Hf|(Hs & o' & Hin & Hi)]; [now left|].
      right. split; [exact Hs|]. exists o'. split; [now right | exact Hi].
    + intros [= <-]. destruct (CheckOpts_case_exit _ _ _ Hc) as [Hf|(Hs & Hi)]; [now left|].
      right. split; [exact Hs|]. exists o. split; [now left | exact Hi].
Qed.

(** X8.  An informational option ends option parsing on the spot: once the
    options before it have been accepted the process leaves with
    [EXIT_SUCCESS], and neither the options after it nor the operands are
    looked at, however wrong they are. *)
Theorem CheckOpts_informational_wins
    (a : Ambient) (before after : list Getopt) (o : Getopt) (operands : list string)
    (st : OptState) :
  informational o = true ->
  parse a before [] = inl st ->
  parse a (before ++ o :: after)%list operands = inr EXIT_SUCCESS.
Proof.
  intros Hi Hbefore. unfold CheckOpts in *. rewrite getopt_loop_app.
  destruct (getopt_loop _ _ _ _ before _) as [s|code]; [|discriminate].
  simpl. now rewrite CheckOpts_case_informational.
Qed.

End CheckOptsProperties.

(** *** The path of the runagent socket *)

Lemma substring_whole (s : string) (m : nat) :
  (String.length s <= m)%nat -> substring 0 m s = s.
Proof.
  revert m. induction s as [|c s IH]; intros m Hm.
  - destruct m; reflexivity.
  - destruct m; simpl in *; [lia|]. f_equal. apply IH. lia.
Qed.

Lemma substring_length (s : string) (m : nat) :
  String.length (substring 0 m s) = Nat.min m (String.length s).
Proof.
  revert m. induction s as [|c s IH]; intros m.
  - destruct m; reflexivity.
  - destruct m; simpl; [reflexivity|]. now rewrite IH.
Qed.

Lemma GetRunagentSocketInfo_eq (g : Globals) :
  GetRunagentSocketInfo g
  = ((0 <? String.length (runagent_socket_text g))%nat &&
     (String.length (runagent_socket_text g) <=? SUN_PATH_SIZE - 1)%nat,
     substring 0 (SUN_PATH_SIZE - 2) (runagent_socket_text g)).
Proof.
  unfold GetRunagentSocketInfo, runagent_socket_text, snprintf.
  assert (H : forall text : string,
             ((Z.of_nat (String.length text) >? 0)
              && (Z.of_nat (String.length text) <=? Z.of_nat (SUN_PATH_SIZE - 1)),
              substring 0 (SUN_PATH_SIZE - 1 - 1) text)
             = ((0 <? String.length text)%nat && (String.length text <=? SUN_PATH_SIZE - 1)%nat,
                substring 0 (SUN_PATH_SIZE - 2) text)).
  { intros text. f_equal; [|f_equal; lia].
    f_equal.
    - destruct (Z.gtb_spec (Z.of_nat (String.length text)) 0),
               (Nat.ltb_spec 0 (String.length text)); try reflexivity; lia.
    - destruct (Z.leb_spec (Z.of_nat (String.length text)) (Z.of_nat (SUN_PATH_SIZE - 1))),
               (Nat.leb_spec (String.length text) (SUN_PATH_SIZE - 1)); try reflexivity; lia. }
  destruct (RUNAGENT_SOCKET_DIR g); apply H.
Qed.

Lemma runagent_socket_text_nonempty (g : Globals) :
  (0 < String.length (runagent_socket_text g))%nat.
Proof.
  assert (H : forall a b : string, (0 < String.length b)%nat -> (0 < String.length (a ++ b))%nat).
  { intros a b Hb. induction a; simpl; [exact Hb | lia]. }
  unfold runagent_socket_text. destruct (RUNAGENT_SOCKET_DIR g); apply H; simpl; lia.
Qed.

(** X1.  [GetRunagentSocketInfo] reports success exactly when the whole path is
    at most [sizeof(sun_path) - 1] characters long; what it stores is the
    path cut to [sizeof(sun_path) - 2] characters, which is the whole path
    whenever that is not longer. *)
Theorem GetRunagentSocketInfo_success (g : Globals) :
  (fst (GetRunagentSocketInfo g) = true <->
   (String.length (runagent_socket_text g) <= SUN_PATH_SIZE - 1)%nat) /\
  snd (GetRunagentSocketInfo g) = substring 0 (SUN_PATH_SIZE - 2) (runagent_socket_text g) /\
  ((String.length (runagent_socket_text g) <= SUN_PATH_SIZE - 2)%nat ->
   snd (GetRunagentSocketInfo g) = runagent_socket_text g).
Proof.
  rewrite GetRunagentSocketInfo_eq. simpl.
  pose proof (runagent_socket_text_nonempty g) as Hpos.
  split; [|split].
  - rewrite andb_true_iff, Nat.ltb_lt, Nat.leb_le. tauto.
  - reflexivity.
  - apply substring_whole.
Qed.

(** X2.  At the limit the check is one off: a path of exactly
    [sizeof(sun_path) - 1] characters is reported as fitting, but [snprintf]
    was given [sizeof(sun_path) - 1] as the size and has dropped its last
    character. *)
Theorem GetRunagentSocketInfo_cut_at_limit (g : Globals) :
  (2 <= SUN_PATH_SIZE)%nat ->
  String.length (runagent_socket_text g) = (SUN_PATH_SIZE - 1)%nat ->
  fst (GetRunagentSocketInfo g) = true /\
  String.length (snd (GetRunagentSocketInfo g)) = (SUN_PATH_SIZE - 2)%nat /\
  snd (GetRunagentSocketInfo g) <> runagent_socket_text g.
Proof.
  intros Hsize Hlen. rewrite GetRunagentSocketInfo_eq. simpl.
  assert (Hcut : String.length (substring 0 (SUN_PATH_SIZE - 2) (runagent_socket_text g))
                 = (SUN_PATH_SIZE - 2)%nat).
  { rewrite substring_length, Hlen. lia. }
  split; [|split].
  - rewrite andb_true_iff, Nat.ltb_lt, Nat.leb_le. lia.
  - exact Hcut.
  - intros Heq. rewrite Heq in Hcut. lia.
Qed.

(** *** Going to the background *)

(** X3.  When the daemon is to go to the background, [Apoptosis] is called
    first unless [ONCE] is set, then [fork].  For every answer of [fork]
    other than 0, the answer -1 of a failed fork included, the process
    writes the info line about the start and leaves with [EXIT_SUCCESS]:
    a failed fork is not told apart, no error line is written for it, and
    [ActAsDaemon] is not called.  The process that got 0 calls
    [ActAsDaemon] and goes on. *)
Theorem StartServer_detach_fork_answers (g : Globals) (fork_answer : Z) (w : World) :
  NO_FORK g = false ->
  let pruning := if ONCE g then [] else [EvApoptosis] in
  (fork_answer <> 0 ->
   StartServer_detach g fork_answer w
   = Exited EXIT_SUCCESS
       (emits (pruning ++ [EvFork fork_answer;
                           EvLog LOG_LEVEL_INFO "cf-execd starting %.24s"]) w)) /\
  (fork_answer = 0 ->
   StartServer_detach g fork_answer w
   = Ret tt (emits (pruning ++ [EvFork 0; EvActAsDaemon]) w)).
Proof.
  intros Hn. unfold StartServer_detach. rewrite Hn. unfold_m. simpl.
  destruct (Z.eqb_spec fork_answer 0) as [->|Hne]; simpl.
  - split; [intros H; now contradiction H|]. intros _.
    destruct (ONCE g); simpl; rewrite ?emit_emits, ?emits_emits; reflexivity.
  - split; [|intros H; now contradiction Hne]. intros _.
    destruct (ONCE g); simpl; rewrite ?emit_emits, ?emits_emits; reflexivity.
Qed.

(** *** When [select] keeps failing *)

(** X9.  While [select] fails with an error other than [EINTR] and leaves
    time on the clock, the loop writes an error line and calls [select]
    again; the termination flag is not looked at on this path, so the wait
    does not end, whether or not a handler has raised the flag
    meanwhile. *)
Theorem select_loop_failing_select_goes_on
    (seconds runagent_socket : Z) (cmd : option string) (sleep_started : Z)
    (rounds : list Round) :
  Forall (fun r => rd_ret r = -1 /\ rd_eintr r = false /\ tv_sec (rd_left r) <> 0) rounds ->
  forall (remaining : timeval) (w : World),
    tv_sec remaining <> 0 ->
    exists w' evs,
      select_loop seconds runagent_socket cmd sleep_started remaining rounds w = Blocked w' /\
      termination_pending w'
      = termination_pending w || existsb (fun r => async_term (rd_async r)) rounds /\
      trace w' = (trace w ++ evs)%list /\
      length evs = (2 * length rounds)%nat /\
      Forall (fun e => (exists nfds tv, e = EvSelect nfds tv) \/
                       e = EvLog LOG_LEVEL_ERR "Failed to sleep for %s using select(): %s")
             evs.
Proof.
  induction rounds as [|r rest IH]; intros Hall remaining w Hrem.
  - exists w, []. simpl.
    destruct (Z.eqb_spec (tv_sec remaining) 0) as [|_]; [contradiction|].
    rewrite orb_false_r, app_nil_r. repeat split. constructor.
  - inversion Hall as [|r' rest' (Hret & Heintr & Hleft) Hrest]; subst.
    rewrite select_loop_step. cbv zeta.
    destruct (Z.eqb_spec (tv_sec remaining) 0) as [|_]; [contradiction|].
    rewrite Hret, Heintr. simpl.
    destruct (IH Hrest (rd_left r)
                (emit (EvLog LOG_LEVEL_ERR "Failed to sleep for %s using select(): %s")
                   (arrive (rd_async r) (emit (EvSelect (runagent_socket + 1) remaining) w)))
                Hleft) as (w' & evs & Heq & Hterm & Htrace & Hlen & Hevs).
    exists w', (EvSelect (runagent_socket + 1) remaining
                :: EvLog LOG_LEVEL_ERR "Failed to sleep for %s using select(): %s" :: evs).
    split; [exact Heq|]. split; [|split; [|split]].
    + rewrite Hterm. simpl. now rewrite orb_assoc.
    + rewrite Htrace. simpl. rewrite <- !app_assoc. reflexivity.
    + simpl. rewrite Hlen. lia.
    + constructor; [left; eauto|]. constructor; [now right | exact Hevs].
Qed.

(** *** Leaving the main loop *)

Lemma HandleRequestsOrSleep_returns_flag
    (seconds : Z) (reason : string) (runagent_socket : Z) (cmd : option string)
    (env : SleepEnv) (w w' : World) (b : bool) :
  HandleRequestsOrSleep seconds reason runagent_socket cmd env w = Ret b w' ->
  b = termination_pending w'.
Proof.
  rewrite HandleRequestsOrSleep_eq. cbv zeta.
  destruct (termination_pending w) eqn:Hp.
  { intros H. apply Ret_inj in H. destruct H as [<- <-]. now rewrite Hp. }
  destruct (runagent_socket >=? 0).
  - destruct (select_loop _ _ _ _ _ _ _) as [[b'|] w1| |] eqn:Hloop; try discriminate.
    + apply select_loop_early in Hloop. destruct Hloop as [-> Hw1].
      intros H. apply Ret_inj in H. destruct H as [<- <-]. now rewrite Hw1.
    + intros H. apply Ret_inj in H. destruct H as [<- <-]. reflexivity.
  - intros H. apply Ret_inj in H. destruct H as [<- <-]. reflexivity.
Qed.

Lemma bind_Ret_inv {A B} (m : M A) (k : A -> M B) (w w' : World) (b : B) :
  bind m k w = Ret b w' -> exists a w1, m w = Ret a w1 /\ k a w1 = Ret b w'.
Proof.
  unfold bind. destruct (m w) as [a w1| |]; try discriminate. intros H. now exists a, w1.
Qed.

Lemma main_loop_body_stop
    (g : Globals) (runagent_socket : Z) (te : TickEnv) (d d' : Daemon) (w w' : World)
    (stop : bool) :
  main_loop_body g runagent_socket te d w = Ret (stop, d') w' ->
  stop = termination_pending w'.
Proof.
  unfold main_loop_body. intros H.
  apply bind_Ret_inv in H. destruct H as ([] & w0 & _ & H).
  apply bind_Ret_inv in H. destruct H as ([wake d1] & w1 & _ & H).
  apply bind_Ret_inv in H. destruct H as (terminate & w2 & Hterm & H).
  destruct terminate.
  - apply Ret_inj in H. destruct H as [[= <- <-] <-].
    destruct wake; [|discriminate].
    apply bind_Ret_inv in Hterm. destruct Hterm as (t & w3 & Hsplay & Hterm).
    destruct t.
    + apply Ret_inj in Hterm. destruct Hterm as [_ <-].
      exact (HandleRequestsOrSleep_returns_flag _ _ _ _ _ _ _ _ Hsplay).
    + apply bind_Ret_inv in Hterm. destruct Hterm as (pid & w4 & _ & Hterm).
      apply bind_Ret_inv in Hterm. destruct Hterm as ([] & w5 & _ & Hterm). discriminate.
  - apply bind_Ret_inv in H. destruct H as (t & w3 & Hpulse & H).
    apply Ret_inj in H. destruct H as [[= <- <-] <-].
    exact (HandleRequestsOrSleep_returns_flag _ _ _ _ _ _ _ _ Hpulse).
Qed.

Lemma main_loop_returns_on_termination
    (g : Globals) (runagent_socket : Z) (ticks : list TickEnv) :
  forall (d d' : Daemon) (w w' : World),
    main_loop g runagent_socket ticks d w = Ret d' w' -> termination_pending w' = true.
Proof.
  induction ticks as [|te ticks IH]; intros d d' w w'; simpl; unfold bind at 1;
    unfold IsPendingTermination; destruct (termination_pending w) eqn:Hp.
  - intros H. apply Ret_inj in H. destruct H as [_ <-]. exact Hp.
  - discriminate.
  - intros H. apply Ret_inj in H. destruct H as [_ <-]. exact Hp.
  - intros H. apply bind_Ret_inv in H. destruct H as ([stop d1] & w1 & Hbody & H).
    destruct stop.
    + apply Ret_inj in H. destruct H as [_ <-].
      symmetry. exact (main_loop_body_stop _ _ _ _ _ _ _ _ Hbody).
    + exact (IH _ _ _ _ H).
Qed.

(** X12.  The daemon comes back from [CFExecdMainLoop] only with the
    termination flag raised: no turn of the loop ends it otherwise.  What
    it does last is remove the socket file, and it does so exactly when the
    socket is in use and [GetRunagentSocketInfo] reports its path as
    fitting. *)
Theorem CFExecdMainLoop_returns_on_termination
    (g : Globals) (runagent_socket : Z) (ticks : list TickEnv) (d d' : Daemon)
    (w w' : World) :
  CFExecdMainLoop g runagent_socket ticks d w = Ret d' w' ->
  termination_pending w' = true /\
  exists w1,
    main_loop g runagent_socket ticks d w = Ret d' w1 /\
    w' = if UsingRunagentSocket g && fst (GetRunagentSocketInfo g)
         then emit (EvUnlink (snd (GetRunagentSocketInfo g))) w1
         else w1.
Proof.
  unfold CFExecdMainLoop. intros H.
  apply bind_Ret_inv in H. destruct H as (d1 & w1 & Hloop & H).
  apply bind_Ret_inv in H. destruct H as ([] & w2 & Hunlink & H).
  apply Ret_inj in H. destruct H as [<- <-].
  pose proof (main_loop_returns_on_termination _ _ _ _ _ _ _ Hloop) as Hp.
  assert (Hw2 : w2 = if UsingRunagentSocket g && fst (GetRunagentSocketInfo g)
                     then emit (EvUnlink (snd (GetRunagentSocketInfo g))) w1
                     else w1).
  { destruct (UsingRunagentSocket g); simpl in *.
    - destruct (GetRunagentSocketInfo g) as [ok sun_path]. simpl.
      destruct ok; apply Ret_inj in Hunlink; now destruct Hunlink.
    - apply Ret_inj in Hunlink. now destruct Hunlink. }
  split.
  - rewrite Hw2. destruct (_ && _); [simpl|]; exact Hp.
  - exists w1. split; [exact Hloop | exact Hw2].
Qed.

(** X13.  A termination signal that arrives during the splay wait keeps the
    agent from being launched: the turn ends with [break] right after the
    wait, without a fork, without [LocalExec] and without the pulse sleep,
    and the main loop returns. *)
Theorem termination_during_splay_skips_the_run
    (g : Globals) (runagent_socket : Z) (te : TickEnv) (rest : list TickEnv)
    (d d1 : Daemon) (w w0 w1 w2 : World) :
  termination_pending w = false ->
  reap (te_waitpid te) w = Ret tt w0 ->
  ScheduleRun g (te_tick te) d w0 = Ret (true, d1) w1 ->
  HandleRequestsOrSleep (splay_time (execd_config d1)) "splay time" runagent_socket
    (local_run_command (execd_config d1)) (te_splay te) w1 = Ret true w2 ->
  main_loop_body g runagent_socket te d w = Ret (true, d1) w2 /\
  main_loop g runagent_socket (te :: rest) d w = Ret d1 w2.
Proof.
  intros Hp Hreap Hrun Hsplay.
  assert (Hbody : main_loop_body g runagent_socket te d w = Ret (true, d1) w2).
  { unfold main_loop_body.
    rewrite (bind_Ret _ _ _ _ _ Hreap).
    rewrite (bind_Ret _ _ _ _ _ Hrun). cbv beta iota.
    unfold bind at 1. unfold bind at 1. rewrite Hsplay. reflexivity. }
  split; [exact Hbody|].
  simpl. unfold bind at 1. unfold IsPendingTermination. rewrite Hp.
  rewrite (bind_Ret _ _ _ _ _ Hbody). reflexivity.
Qed.

(** X14.  The process forked for the run is a child for good: it runs the
    agent once, writes its last line and leaves with [_exit(0)]; it never
    reaches the pulse sleep, and the main loop it was forked from does not
    go on in it. *)
Theorem forked_child_leaves_after_the_run
    (g : Globals) (runagent_socket : Z) (te : TickEnv) (rest : list TickEnv)
    (d d1 : Daemon) (w w0 w1 w2 : World) :
  termination_pending w = false ->
  reap (te_waitpid te) w = Ret tt w0 ->
  ScheduleRun g (te_tick te) d w0 = Ret (true, d1) w1 ->
  HandleRequestsOrSleep (splay_time (execd_config d1)) "splay time" runagent_socket
    (local_run_command (execd_config d1)) (te_splay te) w1 = Ret false w2 ->
  te_fork te = 0 ->
  exists w',
    main_loop g runagent_socket (te :: rest) d w = Exited 0 w' /\
    trace w' = (trace w2 ++
                [EvLog LOG_LEVEL_VERBOSE "Forking for exec_command execution";
                 EvFork 0;
                 EvLocalExec (exec_config d1);
                 EvLog LOG_LEVEL_VERBOSE
                   "Finished exec_command execution, terminating the forked process"])%list.
Proof.
  intros Hp Hreap Hrun Hsplay Hfork.
  eexists. split.
  - simpl. unfold bind at 1. unfold IsPendingTermination. rewrite Hp.
    unfold main_loop_body. unfold bind at 1.
    rewrite (bind_Ret _ _ _ _ _ Hreap).
    rewrite (bind_Ret _ _ _ _ _ Hrun). cbv beta iota.
    unfold bind at 1. unfold bind at 1. rewrite Hsplay.
    unfold LocalExecInFork. rewrite Hfork. unfold_m. simpl. reflexivity.
  - simpl. rewrite <- !app_assoc. reflexivity.
Qed.

(** The parent of the fork does not run the agent and does not wait for
    it: with a positive pid from [fork] the turn goes straight on to the
    pulse sleep, whose answer is the answer of the turn. *)
Lemma parent_goes_on_to_the_pulse_sleep
    (g : Globals) (runagent_socket : Z) (te : TickEnv) (d d1 : Daemon)
    (w w0 w1 w2 : World) :
  reap (te_waitpid te) w = Ret tt w0 ->
  ScheduleRun g (te_tick te) d w0 = Ret (true, d1) w1 ->
  HandleRequestsOrSleep (splay_time (execd_config d1)) "splay time" runagent_socket
    (local_run_command (execd_config d1)) (te_splay te) w1 = Ret false w2 ->
  0 < te_fork te ->
  main_loop_body g runagent_socket te d w
  = bind (HandleRequestsOrSleep CFPULSETIME "pulse time" runagent_socket
            (local_run_command (execd_config d1)) (te_pulse te))
         (fun terminate => ret (terminate, d1))
         (emits [EvLog LOG_LEVEL_VERBOSE "Forking for exec_command execution";
                 EvFork (te_fork te)] w2).
Proof.
  intros Hreap Hrun Hsplay Hpid.
  unfold main_loop_body.
  rewrite (bind_Ret _ _ _ _ _ Hreap).
  rewrite (bind_Ret _ _ _ _ _ Hrun). cbv beta iota.
  unfold bind at 1. unfold bind at 1. rewrite Hsplay.
  unfold LocalExecInFork.
  unfold bind at 1. unfold bind at 1. unfold bind at 1. unfold bind at 1.
  unfold Log at 1. unfold effect at 1. unfold fork. unfold bind at 1. unfold effect at 1.
  unfold ret at 1.
  destruct (Z.eqb_spec (te_fork te) (-1)) as [|_]; [lia|].
  destruct (Z.eqb_spec (te_fork te) 0) as [|_]; [lia|].
  unfold ret at 1.
  destruct (Z.ltb_spec (te_fork te) 0) as [|_]; [lia|].
  unfold ret at 1. unfold ret at 1.
  rewrite !emit_emits, !emits_emits. reflexivity.
Qed.

(** When nothing of the schedule matches, the turn is the pulse sleep
    alone: no splay wait, no fork, no run. *)
Lemma unscheduled_turn_only_sleeps
    (g : Globals) (runagent_socket : Z) (te : TickEnv) (d d1 : Daemon) (w w0 w1 : World) :
  reap (te_waitpid te) w = Ret tt w0 ->
  ScheduleRun g (te_tick te) d w0 = Ret (false, d1) w1 ->
  main_loop_body g runagent_socket te d w
  = bind (HandleRequestsOrSleep CFPULSETIME "pulse time" runagent_socket
            (local_run_command (execd_config d1)) (te_pulse te))
         (fun terminate => ret (terminate, d1)) w1.
Proof.
  intros Hreap Hrun.
  unfold main_loop_body.
  rewrite (bind_Ret _ _ _ _ _ Hreap).
  rewrite (bind_Ret _ _ _ _ _ Hrun). reflexivity.
Qed.

(** *** A tick on which nothing has changed *)

Lemma schedule_decision_logs (d : Daemon) (w : World) :
  exists level fmt,
    schedule_decision d w
    = Ret (existsb (IsDefinedClass (ctx d)) (elements (schedule (execd_config d))), d)
          (emit (EvLog level fmt) w).
Proof.
  unfold schedule_decision.
  rewrite (bind_Ret _ _ _ _ _ (schedule_scan_spec _ _ _)).
  destruct (existsb _ _); unfold_m; simpl.
  - do 2 eexists. reflexivity.
  - rewrite emits_nil. do 2 eexists. reflexivity.
Qed.

(** X15.  With no newer validation stamp on disk and no reload requested, a
    tick leaves the policy and all three configurations as they are,
    rebuilds the context as an environment reload does, and does nothing
    that can be seen but write log lines: the validity of the policy is not
    even asked for. *)
Theorem ScheduleRun_quiet_tick (g : Globals) (tick : Tick) (d : Daemon) (w : World) :
  ~ reload_triggered (tick_disk tick) (config d) w ->
  exists b w' evs,
    ScheduleRun g tick d w
    = Ret (b, mk_daemon
                (UpdateTimeClasses (DetectEnvironment (EvalContextClear (ctx d)))
                                   (tick_now tick))
                (policy d) (config d) (execd_config d) (exec_config d)) w' /\
    trace w' = (trace w ++ evs)%list /\
    Forall (fun e => exists level fmt, e = EvLog level fmt) evs /\
    reload_requested w' = reload_requested w /\
    termination_pending w' = termination_pending w.
Proof.
  intros Hn.
  destruct (CheckNewPromises_returns (tick_disk tick) (config d) w)
    as (r0 & cfg0 & w0 & evs1 & Hchk & Htr1 & Hterm & Hq1 & _ & Hquiet).
  destruct (Hquiet Hn) as (-> & -> & Hreq & Hask).
  destruct (schedule_decision_logs
              (mk_daemon
                 (UpdateTimeClasses (DetectEnvironment (EvalContextClear (ctx d)))
                    (tick_now tick))
                 (policy d) (config d) (execd_config d) (exec_config d)) w0)
    as (level & fmt & Hdec).
  eexists. exists (emit (EvLog level fmt) w0), (evs1 ++ [EvLog level fmt])%list.
  split; [|split; [|split; [|split]]].
  - unfold ScheduleRun. rewrite (bind_Ret _ _ _ _ _ Hchk). cbv beta iota.
    rewrite (bind_Ret _ _ _ _ _ (environment_reload_returns _ _ _ _)). exact Hdec.
  - simpl. now rewrite Htr1, <- app_assoc.
  - apply Forall_app. split; [|constructor; [eauto | constructor]].
    apply List.Forall_forall. intros e0 Hin.
    pose proof (proj1 (List.Forall_forall _ _) Hq1 e0 Hin) as Hq.
    destruct e0; try contradiction; [eauto|]. exfalso. eapply Hask. exact Hin.
  - exact Hreq.
  - exact Hterm.
Qed.

(** *** Killing earlier instances *)

Lemma signalled_app (evs1 evs2 : list StartupEvent) :
  signalled (evs1 ++ evs2) = (signalled evs1 ++ signalled evs2)%list.
Proof. apply flat_map_app. Qed.

Lemma error_lines_app (evs1 evs2 : list StartupEvent) :
  error_lines (evs1 ++ evs2) = (error_lines evs1 ++ error_lines evs2)%list.
Proof. apply flat_map_app. Qed.

Lemma kill_loop_signalled (getpid : Z) (killlist : list KillEntry) :
  signalled (kill_loop getpid killlist)
  = List.filter (fun pid => negb (pid =? getpid)) (map ke_pid killlist).
Proof.
  induction killlist as [|ip next IH]; [reflexivity|].
  cbn [kill_loop map]. rewrite signalled_app, IH.
  cbn [List.filter]. 
  destruct (ke_pid ip =? getpid); simpl; [reflexivity|].
  destruct (ke_kill ip <? 0); [destruct (ke_esrch ip)|]; reflexivity.
Qed.

Lemma kill_loop_SIGTERM (getpid : Z) (killlist : list KillEntry) :
  Forall (fun e => forall pid sig ret, e = EvKill pid sig ret -> sig = SIGTERM)
         (kill_loop getpid killlist).
Proof.
  induction killlist as [|ip next IH]; [constructor|].
  cbn [kill_loop]. apply Forall_app. split; [|exact IH].
  destruct (ke_pid ip =? getpid); simpl; [constructor|].
  constructor; [now intros pid sig ret [= _ <- _]|].
  destruct (ke_kill ip <? 0); [destruct (ke_esrch ip)|]; repeat constructor; discriminate.
Qed.

Lemma kill_loop_error_lines (getpid : Z) (killlist : list KillEntry) :
  error_lines (kill_loop getpid killlist)
  = map (fun _ => "Unable to kill stale cf-execd process pid=%d. (kill: %s)")
        (List.filter (kill_refused getpid) killlist).
Proof.
  induction killlist as [|ip next IH]; [reflexivity|].
  cbn [kill_loop]. rewrite error_lines_app, IH. cbn [List.filter]. unfold kill_refused at 2.
  destruct (ke_pid ip =? getpid); simpl; [reflexivity|].
  destruct (ke_kill ip <? 0); [destruct (ke_esrch ip)|]; reflexivity.
Qed.

(** X16.  [Apoptosis] sends SIGTERM to every process of the list that is not
    the caller, once per entry and in the order of the list, and to
    nothing else; it never signals its own process, and it signals nobody
    when the process table cannot be loaded. *)
Theorem Apoptosis_signals_the_other_instances (pt : ProcessTable) :
  signalled (Apoptosis pt)
  = (if pt_load pt
     then List.filter (fun pid => negb (pid =? pt_getpid pt)) (map ke_pid (pt_killlist pt))
     else []) /\
  ~ In (pt_getpid pt) (signalled (Apoptosis pt)) /\
  Forall (fun e => forall pid sig ret, e = EvKill pid sig ret -> sig = SIGTERM)
         (Apoptosis pt).
Proof.
  assert (Hsig : signalled (Apoptosis pt)
                 = (if pt_load pt
                    then List.filter (fun pid => negb (pid =? pt_getpid pt))
                                (map ke_pid (pt_killlist pt))
                    else [])).
  { unfold Apoptosis. change (signalled (?e :: ?l)) with (signalled [e] ++ signalled l)%list.
    rewrite signalled_app. simpl. rewrite app_nil_r.
    destruct (pt_load pt); [apply kill_loop_signalled | reflexivity]. }
  split; [exact Hsig|]. split.
  - rewrite Hsig. destruct (pt_load pt); [|intros []].
    rewrite filter_In. intros [_ H]. now rewrite Z.eqb_refl in H.
  - unfold Apoptosis. constructor; [discriminate|].
    apply Forall_app. split; [|repeat constructor; discriminate].
    destruct (pt_load pt); [apply kill_loop_SIGTERM | constructor].
Qed.

(** X17.  A process of the list that has gone already ([ESRCH]) is passed over
    in silence; every other failure of [kill] gets one error line, and
    nothing else does.  Whatever happened before, the process table is
    cleared and the last line is "Pruning complete". *)
Theorem Apoptosis_error_lines (pt : ProcessTable) :
  error_lines (Apoptosis pt)
  = map (fun _ => "Unable to kill stale cf-execd process pid=%d. (kill: %s)")
        (if pt_load pt then List.filter (kill_refused (pt_getpid pt)) (pt_killlist pt) else []) /\
  exists evs,
    Apoptosis pt
    = (evs ++ [EvClearProcessTable;
               EvDaemon (EvLog LOG_LEVEL_VERBOSE "Pruning complete")])%list.
Proof.
  split.
  - unfold Apoptosis.
    change (error_lines (?e :: ?l)) with (error_lines [e] ++ error_lines l)%list.
    rewrite error_lines_app. simpl. rewrite app_nil_r.
    destruct (pt_load pt); [apply kill_loop_error_lines | reflexivity].
  - unfold Apoptosis. eexists. rewrite app_comm_cons. reflexivity.
Qed.

(** *** Setting up the runagent socket *)

Lemma daemon_SetRunagentSocketACLs (disk : Disk) (path : string) (users : gset string) :
  daemon (SetRunagentSocketACLs disk path users)
  = (map EvDaemon
         (EvAllowAccessForUsers path users true false ::
          if AllowAccessForUsers disk path users true false
          then [EvAllowAccessForUsers (ChopLastNode path) users false true] else []),
     inl (acl_succeeds disk path users)).
Proof. unfold daemon. rewrite SetRunagentSocketACLs_spec. reflexivity. Qed.

Ltac setup_step :=
  match goal with
  | |- context [so_created ?e] => destruct (so_created e) eqn:?
  | |- context [strrchr ?s ?c] => destruct (strrchr s c) eqn:?
  | |- context [so_NDEBUG ?e] => destruct (so_NDEBUG e) eqn:?
  | |- context [so_socket ?e >=? ?b] => destruct (Z.geb_spec (so_socket e) b)
  | |- context [so_socket ?e <? ?b] => destruct (Z.ltb_spec (so_socket e) b)
  | |- context [so_bind ?e =? ?b] => destruct (Z.eqb_spec (so_bind e) b)
  | |- context [so_listen ?e =? ?b] => destruct (Z.eqb_spec (so_listen e) b)
  | |- context [(0 <? size ?u)%nat] => destruct (Nat.ltb_spec 0 (size u))
  | |- context [acl_succeeds ?d ?p ?u] => destruct (acl_succeeds d p u) eqn:?
  | |- context [AllowAccessForUsers ?d ?p ?u ?a ?b] =>
      destruct (AllowAccessForUsers d p u a b) eqn:?
  end.

Ltac setup_cases :=
  rewrite ?daemon_SetRunagentSocketACLs;
  unfold slog, assert, call, stop, sret, sbind;
  repeat (cbn -[acl_succeeds Nat.ltb]; setup_step); cbn -[acl_succeeds Nat.ltb].

Lemma string_app_cons (x : ascii) (a b : string) : String x a ++ b = String x (a ++ b).
Proof. reflexivity. Qed.

Lemma string_app_nil (b : string) : "" ++ b = b.
Proof. reflexivity. Qed.

Lemma string_length_app (a b : string) :
  String.length (a ++ b) = (String.length a + String.length b)%nat.
Proof.
  induction a as [|c a IH]; [reflexivity|].
  rewrite string_app_cons. cbn [String.length]. now rewrite IH.
Qed.

Lemma string_app_assoc (a b c : string) : (a ++ b) ++ c = a ++ (b ++ c).
Proof.
  induction a as [|x a IH]; [reflexivity|]. rewrite !string_app_cons. now rewrite IH.
Qed.

Lemma substring_app (a b : string) (n : nat) :
  (String.length a <= n)%nat ->
  substring 0 n (a ++ b) = a ++ substring 0 (n - String.length a) b.
Proof.
  revert n. induction a as [|c a IH]; intros n Hn.
  - rewrite !string_app_nil. cbn [String.length]. now rewrite Nat.sub_0_r.
  - cbn [String.length] in *. destruct n; [lia|].
    rewrite !string_app_cons. cbn [substring]. f_equal. rewrite Nat.sub_succ. apply IH. lia.
Qed.

Lemma strrchr_substring (s : string) (c : ascii) (n : nat) :
  strrchr s c = None -> strrchr (substring 0 n s) c = None.
Proof.
  revert n. induction s as [|x s IH]; intros n; cbn [strrchr].
  - destruct n; reflexivity.
  - destruct (strrchr s c) eqn:Hs; [discriminate|].
    destruct (Ascii.eqb x c) eqn:Hx; [discriminate|]. intros _.
    destruct n; cbn [substring strrchr]; [reflexivity|]. now rewrite IH, Hx.
Qed.

Lemma strrchr_last (a leaf : string) (c : ascii) :
  strrchr leaf c = None -> strrchr (a ++ String c leaf) c = Some (String.length a).
Proof.
  intros Hleaf. induction a as [|x a IH].
  - rewrite string_app_nil. cbn [strrchr String.length]. now rewrite Hleaf, Ascii.eqb_refl.
  - rewrite string_app_cons. cbn [strrchr String.length]. now rewrite IH.
Qed.

Lemma substring_prefix (a b : string) : substring 0 (String.length a) (a ++ b) = a.
Proof.
  induction a as [|c a IH].
  - rewrite string_app_nil. cbn [String.length]. destruct b; reflexivity.
  - rewrite string_app_cons. cbn [String.length substring]. now rewrite IH.
Qed.

Lemma runagent_socket_text_directory (g : Globals) :
  runagent_socket_text g
  = runagent_socket_directory g ++ String "/" CF_EXECD_RUNAGENT_SOCKET_NAME.
Proof.
  unfold runagent_socket_text, runagent_socket_directory.
  destruct (RUNAGENT_SOCKET_DIR g); [reflexivity|].
  now rewrite string_app_assoc.
Qed.

(** When [GetRunagentSocketInfo] succeeds, the path it has stored is the
    socket directory, a slash, and a name without a slash. *)
Lemma GetRunagentSocketInfo_shape (g : Globals) (sun_path : string) :
  GetRunagentSocketInfo g = (true, sun_path) ->
  exists leaf,
    sun_path = runagent_socket_directory g ++ String "/" leaf /\
    strrchr leaf "/" = None.
Proof.
  rewrite GetRunagentSocketInfo_eq. intros [= Hok <-].
  apply andb_true_iff in Hok. destruct Hok as [_ Hlen]. apply Nat.leb_le in Hlen.
  rewrite runagent_socket_text_directory in *.
  rewrite string_length_app in Hlen. simpl in Hlen.
  rewrite substring_app by lia.
  replace (SUN_PATH_SIZE - 2 - String.length (runagent_socket_directory g))%nat
    with (S (SUN_PATH_SIZE - 3 - String.length (runagent_socket_directory g))) by lia.
  cbn [substring]. eexists. split; [reflexivity|].
  now apply strrchr_substring.
Qed.

Lemma size_positive (users : gset string) : (0 < size users)%nat <-> users <> ∅.
Proof.
  split.
  - intros H ->. rewrite size_empty in H. lia.
  - intros H. destruct (size users) eqn:Hs; [|lia].
    exfalso. apply H. apply leibniz_equiv. now apply size_empty_inv.
Qed.

(** X18.  When the path of the socket does not fit, [SetupRunagentSocket] gives
    up before it has touched anything: one error line, and -1. *)
Theorem SetupRunagentSocket_path_too_long
    (g : Globals) (env : SocketEnv) (execd_config : ExecdConfig) :
  (SUN_PATH_SIZE - 1 < String.length (runagent_socket_text g))%nat ->
  SetupRunagentSocket g env execd_config
  = ([EvDaemon (EvLog LOG_LEVEL_ERR "Failed to create socket for runagent requests")],
     inl (-1)).
Proof.
  intros Hlong. unfold SetupRunagentSocket. rewrite GetRunagentSocketInfo_eq.
  destruct (Nat.leb_spec (String.length (runagent_socket_text g)) (SUN_PATH_SIZE - 1));
    [lia|].
  rewrite andb_false_r. reflexivity.
Qed.

(** X19.  The descriptor [SetupRunagentSocket] returns is not negative exactly
    when the path fits and [socket], [bind] and [listen] all went well, and
    it is then the descriptor of the socket, which nothing has closed.
    When a socket was made and the function returns a negative value, the
    socket has been closed: no descriptor is left behind. *)
Theorem SetupRunagentSocket_descriptor
    (g : Globals) (env : SocketEnv) (execd_config : ExecdConfig)
    (evs : list StartupEvent) (fd : Z) :
  SetupRunagentSocket g env execd_config = (evs, inl fd) ->
  (0 <= fd <->
   fst (GetRunagentSocketInfo g) = true /\ 0 <= so_socket env /\
   so_bind env <> -1 /\ so_listen env <> -1) /\
  (0 <= fd -> fd = so_socket env /\ forall fd', ~ In (EvDaemon (EvClose fd')) evs) /\
  (fd < 0 -> forall ret, In (EvSocket ret) evs -> 0 <= ret -> In (EvDaemon (EvClose ret)) evs).
Proof.
  revert evs fd.
  destruct (GetRunagentSocketInfo g) as [ok sun_path] eqn:Hinfo.
  unfold SetupRunagentSocket. rewrite Hinfo. destruct ok; setup_cases;
    intros evs fd [= <- <-]; (split; [|split]).
  all: try (split; [intros ?; repeat split; first [lia | discriminate | assumption | reflexivity]
                   | intros (? & ? & ? & ?); first [lia | discriminate | assumption]]).
  all: try (intros Hfd; first [lia | split; [reflexivity|];
                                     intros fd' Hin; simpl in Hin; intuition discriminate]).
  all: try (intros Hfd ret Hin Hret; simpl in Hin |- *;
            repeat match goal with
                   | H : _ \/ _ |- _ => destruct H
                   | H : EvSocket _ = EvSocket _ |- _ => injection H as <-
                   | H : False |- _ => destruct H
                   end; try discriminate; try lia; auto 12).
Qed.

(** X20.  The ACL of the socket is set whenever a socket has been made and the
    allow-list is not empty, whether or not [bind] and [listen] went well
    afterwards: with a failed [bind] the function still calls
    [AllowAccessForUsers] on the path, and returns -1.  The first call is
    the one for the socket itself. *)
Theorem SetupRunagentSocket_acl_follows_socket
    (g : Globals) (env : SocketEnv) (execd_config : ExecdConfig)
    (evs : list StartupEvent) (fd : Z) :
  SetupRunagentSocket g env execd_config = (evs, inl fd) ->
  (startup_acl_calls evs <> [] <->
   fst (GetRunagentSocketInfo g) = true /\ 0 <= so_socket env /\
   runagent_allow_users execd_config <> ∅) /\
  (startup_acl_calls evs <> [] ->
   hd_error (startup_acl_calls evs)
   = Some (EvAllowAccessForUsers (snd (GetRunagentSocketInfo g))
             (runagent_allow_users execd_config) true false)).
Proof.
  revert evs fd.
  pose proof (size_positive (runagent_allow_users execd_config)) as Hsz.
  destruct (GetRunagentSocketInfo g) as [ok sun_path] eqn:Hinfo.
  unfold SetupRunagentSocket. rewrite Hinfo. destruct ok; setup_cases;
    intros evs fd [= <- <-]; cbn [fst snd]; split.
  all: try (split; [intros Hne; repeat split;
                    first [lia | discriminate | assumption | reflexivity
                          | apply Hsz; assumption | exfalso; now apply Hne]
                   | intros (? & ? & Hu); apply Hsz in Hu;
                     first [lia | discriminate]]).
  all: try (intros Hacl; first [reflexivity | exfalso; now apply Hacl]).
Qed.


(** X22.  The mode of the socket directory is set exactly when
    [MakeParentDirectory] has just created it, to 0750 and on the socket
    directory itself; and the slash the code looks for in the path is
    always there, so no null pointer is written through. *)
Theorem SetupRunagentSocket_directory_mode
    (g : Globals) (env : SocketEnv) (execd_config : ExecdConfig) :
  snd (SetupRunagentSocket g env execd_config) <> inr NullPointer /\
  forall path mode,
    In (EvChmod path mode) (fst (SetupRunagentSocket g env execd_config)) <->
    fst (GetRunagentSocketInfo g) = true /\ so_created env = true /\
    path = runagent_socket_directory g /\ mode = 488.
Proof.
  destruct (GetRunagentSocketInfo g) as [ok sun_path] eqn:Hinfo.
  pose proof (GetRunagentSocketInfo_shape g sun_path) as Hshape.
  unfold SetupRunagentSocket. rewrite Hinfo. destruct ok.
  - destruct (Hshape Hinfo) as (leaf & -> & Hleaf).
    rewrite (strrchr_last _ _ _ Hleaf), substring_prefix. clear Hshape.
    setup_cases; cbn [fst snd]; (split; [discriminate|]); intros path mode; simpl;
      (split; [intros Hin; repeat match goal with
                                  | H : _ \/ _ |- _ => destruct H
                                  | H : False |- _ => destruct H
                                  | H : EvChmod _ _ = EvChmod _ _ |- _ => injection H as <- <-
                                  end; try discriminate; auto
              | intros (_ & Hc & -> & ->); first [discriminate | auto]]).
  - setup_cases; (split; [discriminate|]); intros path mode; simpl;
      (split; [intros [H|[]]; discriminate | intros (H & _); discriminate]).
Qed.


Lemma GetRunagentSocketInfo_shape_name (g : Globals) (sun_path : string) :
  GetRunagentSocketInfo g = (true, sun_path) ->
  exists k,
    sun_path = runagent_socket_directory g
               ++ String "/" (substring 0 k CF_EXECD_RUNAGENT_SOCKET_NAME).
Proof.
  rewrite GetRunagentSocketInfo_eq. intros [= Hok <-].
  apply andb_true_iff in Hok. destruct Hok as [_ Hlen]. apply Nat.leb_le in Hlen.
  rewrite runagent_socket_text_directory in Hlen |- *.
  rewrite string_length_app in Hlen. simpl in Hlen.
  rewrite substring_app by lia.
  replace (SUN_PATH_SIZE - 2 - String.length (runagent_socket_directory g))%nat
    with (S (SUN_PATH_SIZE - 3 - String.length (runagent_socket_directory g))) by lia.
  cbn [substring]. eexists. reflexivity.
Qed.

End Properties.

(* ===================================================================== *)
(** ** Properties of the path names *)
(* ===================================================================== *)

Section PathNameProperties.

Import files_names.

(** *** Strings and buffers *)

Lemma char_at_skipn (str : list ascii) (i : nat) :
  char_at str i = hd NUL (skipn i str).
Proof.
  unfold char_at. revert str. induction i as [|i IH]; intros [|c str]; simpl; auto.
Qed.

Lemma skipn_S_tl (str : list ascii) (i : nat) : skipn (S i) str = tl (skipn i str).
Proof.
  revert str. induction i as [|i IH]; intros [|c str]; simpl; auto.
Qed.

Lemma c_string_cons (c : ascii) (s : list ascii) :
  c_string (c :: s) <-> c <> NUL /\ c_string s.
Proof. unfold c_string. simpl. intuition congruence. Qed.

Lemma c_string_app (a b : list ascii) : c_string (a ++ b) <-> c_string a /\ c_string b.
Proof. unfold c_string. rewrite in_app_iff. tauto. Qed.

Lemma c_string_skipn (s : list ascii) (i : nat) : c_string s -> c_string (skipn i s).
Proof.
  intros H. rewrite <- (firstn_skipn i s) in H. now apply c_string_app in H.
Qed.

Lemma c_string_firstn (s : list ascii) (i : nat) : c_string s -> c_string (firstn i s).
Proof.
  intros H. rewrite <- (firstn_skipn i s) in H. now apply c_string_app in H.
Qed.

Lemma leading_le (P : ascii -> bool) (l : list ascii) : (leading P l <= length l)%nat.
Proof. induction l as [|c l IH]; simpl; [lia|]. destruct (P c); lia. Qed.

Lemma leading_stops (P : ascii -> bool) (l : list ascii) :
  skipn (leading P l) l = [] \/ P (hd NUL (skipn (leading P l) l)) = false.
Proof.
  induction l as [|c l IH]; [now left|]. cbn [leading].
  destruct (P c) eqn:Hc; [exact IH|]. right. exact Hc.
Qed.

Lemma memmove_length (str : list ascii) (dst src len : nat) :
  (dst + len <= length str)%nat -> (src + len <= length str)%nat ->
  length (memmove str dst src len) = length str.
Proof.
  intros Hd Hs. unfold memmove.
  rewrite !length_app, !length_firstn, !length_skipn. lia.
Qed.

Lemma memmove_firstn (str : list ascii) (dst src len : nat) :
  (dst <= length str)%nat -> (src + len <= length str)%nat ->
  firstn (dst + len) (memmove str dst src len)
  = (firstn dst str ++ firstn len (skipn src str))%list.
Proof.
  intros Hd Hs. unfold memmove. rewrite app_assoc.
  rewrite firstn_app.
  assert (Hlen : length (firstn dst str ++ firstn len (skipn src str)) = (dst + len)%nat).
  { rewrite length_app, !length_firstn, length_skipn. lia. }
  rewrite Hlen, Nat.sub_diag. cbn [firstn]. rewrite app_nil_r.
  apply firstn_all2. lia.
Qed.

Lemma memmove_skipn (str : list ascii) (dst src len p : nat) :
  (dst + len <= p)%nat -> (dst <= length str)%nat -> (src + len <= length str)%nat ->
  skipn p (memmove str dst src len) = skipn p str.
Proof.
  intros Hp Hd Hs. unfold memmove. rewrite app_assoc.
  assert (Hlen : length (firstn dst str ++ firstn len (skipn src str)) = (dst + len)%nat).
  { rewrite length_app, !length_firstn, length_skipn. lia. }
  rewrite skipn_app, Hlen.
  rewrite (skipn_all2 (n := p)) by lia. cbn [app].
  rewrite skipn_skipn. f_equal. lia.
Qed.

Lemma char_at_app_r (pre rest : list ascii) (i : nat) :
  char_at (pre ++ rest) (length pre + i) = char_at rest i.
Proof.
  unfold char_at. rewrite app_nth2 by lia. f_equal. lia.
Qed.

Lemma Forall_char_at (P : ascii -> bool) (l : list ascii) :
  Forall (fun c => P c = false) l ->
  forall j, (j < length l)%nat -> P (char_at l j) = false.
Proof.
  intros H j Hj. rewrite List.Forall_forall in H. apply H.
  unfold char_at. now apply nth_In.
Qed.

Lemma Forall_skipn_char_at (P : ascii -> bool) (str : list ascii) (k : nat) :
  (forall j, (k <= j < length str)%nat -> P (char_at str j) = true) ->
  Forall (fun c => P c = true) (skipn k str).
Proof.
  intros H. apply List.Forall_forall. intros x Hin.
  destruct (In_nth _ _ NUL Hin) as (n & Hn & <-).
  rewrite length_skipn in Hn. rewrite nth_skipn. apply H. lia.
Qed.

Lemma last_char_at (l : list ascii) :
  (0 < length l)%nat -> List.last l NUL = nth (length l - 1) l NUL.
Proof.
  induction l as [|c l IH]; cbn [length]; [lia|]. intros _.
  destruct l as [|c' l]; [reflexivity|].
  change (List.last (c :: c' :: l) NUL) with (List.last (c' :: l) NUL).
  rewrite IH by (cbn; lia). cbn [length].
  replace (S (length l) - 1)%nat with (length l) by lia.
  replace (S (S (length l)) - 1)%nat with (S (length l)) by lia. reflexivity.
Qed.

Section Separators.

Variable IsFileSep : ascii -> bool.

Local Abbreviation in_component :=
  (fun c : ascii => negb (Ascii.eqb c NUL) && negb (IsFileSep c)).

Local Abbreviation is_name := (fun c : ascii => negb (IsFileSep c)).

(** *** Separators and names: [LastFileSeparator], [ReadLastNode], [DeleteSlash] *)

Lemma squeeze_leading_separators (rest : list ascii) :
  squeeze IsFileSep true rest
  = squeeze IsFileSep true (skipn (leading IsFileSep rest) rest).
Proof.
  induction rest as [|c rest IH]; [reflexivity|]. cbn [leading squeeze].
  destruct (IsFileSep c) eqn:Hc; [exact IH|]. cbn [skipn squeeze]. now rewrite Hc.
Qed.

Lemma squeeze_names (s : list ascii) (b : bool) :
  List.filter is_name (squeeze IsFileSep b s) = List.filter is_name s.
Proof.
  revert b. induction s as [|c s IH]; intros b; [reflexivity|].
  cbn [squeeze List.filter].
  destruct (IsFileSep c) eqn:Hc; cbn [negb].
  - destruct b; [apply IH|]. cbn [List.filter]. rewrite Hc. apply IH.
  - cbn [List.filter]. rewrite Hc. cbn [negb]. f_equal. apply IH.
Qed.

Lemma squeeze_length (s : list ascii) (b : bool) :
  (length (squeeze IsFileSep b s) <= length s)%nat.
Proof.
  revert b. induction s as [|c s IH]; intros b; [reflexivity|].
  pose proof (IH true). pose proof (IH false).
  cbn [squeeze]. destruct (IsFileSep c); [destruct b|]; cbn [length]; lia.
Qed.

Lemma squeeze_In (s : list ascii) (b : bool) (x : ascii) :
  In x (squeeze IsFileSep b s) -> In x s.
Proof.
  revert b. induction s as [|c s IH]; intros b; [auto|].
  cbn [squeeze]. destruct (IsFileSep c); [destruct b|]; cbn [In]; intuition eauto.
Qed.

Lemma squeeze_c_string (s : list ascii) (b : bool) :
  c_string s -> c_string (squeeze IsFileSep b s).
Proof. unfold c_string. intros H Hin. apply H. now apply squeeze_In in Hin. Qed.

Lemma squeeze_separators (s : list ascii) :
  existsb IsFileSep (squeeze IsFileSep false s) = existsb IsFileSep s.
Proof.
  assert (H : forall s b, (b = false \/ existsb IsFileSep (squeeze IsFileSep b s) = true
                           -> existsb IsFileSep (squeeze IsFileSep b s) = existsb IsFileSep s)).
  { clear s. induction s as [|c s IH]; intros b Hb; [reflexivity|].
    revert Hb. cbn [squeeze existsb]. destruct (IsFileSep c) eqn:Hc.
    - destruct b; [|cbn [existsb]; now rewrite Hc].
      intros [|H]; [discriminate | exact H].
    - cbn [existsb]. rewrite Hc. cbn [orb]. intros _. apply IH. now left. }
  apply H. now left.
Qed.

Lemma squeeze_nil (s : list ascii) : squeeze IsFileSep false s = [] <-> s = [].
Proof.
  split; [|now intros ->]. destruct s as [|c s]; [reflexivity|].
  cbn [squeeze]. destruct (IsFileSep c); discriminate.
Qed.

Lemma last_separator_none (str : list ascii) (n : nat) :
  (forall j, (j < n)%nat -> IsFileSep (char_at str j) = false) ->
  last_separator IsFileSep str n = None.
Proof.
  induction n as [|n IH]; intros H; [reflexivity|]. cbn [last_separator].
  rewrite (H n) by lia. apply IH. intros j Hj. apply H. lia.
Qed.

Lemma LastFileSeparator_none (s : list ascii) :
  Forall (fun c => IsFileSep c = false) s -> LastFileSeparator IsFileSep s = None.
Proof.
  intros H. apply last_separator_none. now apply Forall_char_at.
Qed.

Lemma LastFileSeparator_some (pre leaf : list ascii) (c : ascii) :
  IsFileSep c = true ->
  Forall (fun c => IsFileSep c = false) leaf ->
  LastFileSeparator IsFileSep (pre ++ c :: leaf) = Some (length pre).
Proof.
  intros Hc Hleaf. unfold LastFileSeparator, strlen.
  rewrite length_app. cbn [length].
  assert (H : forall m, (m <= length leaf)%nat ->
            last_separator IsFileSep (pre ++ c :: leaf) (length pre + S m)
            = Some (length pre)).
  { induction m as [|m IH]; intros Hm.
    - replace (length pre + 1)%nat with (S (length pre)) by lia. cbn [last_separator].
      replace (length pre) with (length pre + 0)%nat at 1 by lia.
      rewrite char_at_app_r. cbn. now rewrite Hc.
    - replace (length pre + S (S m))%nat with (S (length pre + S m)) by lia.
      cbn [last_separator]. rewrite char_at_app_r. cbn [char_at nth].
      fold (char_at leaf m). rewrite (Forall_char_at IsFileSep leaf Hleaf) by lia.
      apply IH. lia. }
  apply H. lia.
Qed.

(** Every string is either free of separators or made of a part that
    ends with one and a part that has none. *)
Lemma last_node_split (s : list ascii) :
  Forall (fun c => IsFileSep c = false) s \/
  exists pre c leaf,
    s = (pre ++ c :: leaf)%list /\ IsFileSep c = true /\
    Forall (fun c => IsFileSep c = false) leaf.
Proof.
  induction s as [|x s IH]; [left; constructor|].
  destruct IH as [Hs|(pre & c & leaf & -> & Hc & Hleaf)].
  - destruct (IsFileSep x) eqn:Hx.
    + right. exists [], x, s. auto.
    + left. now constructor.
  - right. exists (x :: pre), c, leaf. auto.
Qed.

(** X25.  [ReadLastNode] points at what follows the last separator: the string
    is a part that is empty or ends with a separator, and then the node,
    which has no separator in it. *)
Theorem ReadLastNode_is_the_last_node (s : list ascii) :
  exists pre,
    s = (pre ++ ReadLastNode IsFileSep s)%list /\
    Forall (fun c => IsFileSep c = false) (ReadLastNode IsFileSep s) /\
    (pre = [] \/ IsFileSep (List.last pre NUL) = true) /\
    (pre = [] <-> LastFileSeparator IsFileSep s = None).
Proof.
  unfold ReadLastNode.
  destruct (last_node_split s) as [Hnone|(pre & c & leaf & -> & Hc & Hleaf)].
  - rewrite (LastFileSeparator_none s Hnone). exists []. repeat split; auto.
  - rewrite (LastFileSeparator_some pre leaf c Hc Hleaf).
    exists (pre ++ [c])%list. rewrite <- app_assoc. cbn [app].
    replace (skipn (S (length pre)) (pre ++ c :: leaf)) with leaf.
    2:{ replace (S (length pre)) with (length (pre ++ [c])) by (rewrite length_app; cbn; lia).
        change (c :: leaf) with ([c] ++ leaf)%list. rewrite app_assoc.
        now rewrite skipn_app, skipn_all, Nat.sub_diag. }
    split; [reflexivity|]. split; [exact Hleaf|]. split.
    + right. now rewrite List.last_last.
    + split; [intros H; now destruct pre | discriminate].
Qed.

Lemma first_separator_in_prefix (dir rest : list ascii) :
  c_string dir ->
  existsb IsFileSep dir = true ->
  forall p, exists i, (i < length dir)%nat /\
                      first_separator IsFileSep (dir ++ rest) p = Some (p + i)%nat.
Proof.
  induction dir as [|x dir IH]; intros Hdir Hex p; [discriminate|].
  apply c_string_cons in Hdir. destruct Hdir as [Hx Hdir].
  cbn [app first_separator]. destruct (Ascii.eqb_spec x NUL) as [|_]; [contradiction|].
  cbn [existsb] in Hex. destruct (IsFileSep x).
  - exists 0%nat. cbn. split; [lia | f_equal; lia].
  - destruct (IH Hdir Hex (S p)) as (i & Hi & Heq). exists (S i). cbn [length].
    split; [lia|]. rewrite Heq. f_equal. lia.
Qed.

Lemma DeleteSlash_loop_spec (str : list ascii) (root : nat) :
  forall fuel size : nat,
    (size <= fuel)%nat ->
    let size' := DeleteSlash_loop IsFileSep fuel str root size in
    (size' <= size)%nat /\
    (forall j, (size' <= j < size)%nat -> IsFileSep (char_at str j) = true) /\
    (IsFileSep (char_at str (size' - 1)) = false \/ (size' - 1 <= root)%nat) /\
    (root + 1 <= size -> root + 1 <= size')%nat.
Proof.
  induction fuel as [|fuel IH]; intros size Hfuel; cbn [DeleteSlash_loop].
  - repeat split; try lia; right; lia.
  - destruct (IsFileSep (char_at str (size - 1))) eqn:Hsep; cbn [andb].
    + destruct (Nat.ltb_spec root (size - 1)) as [Hroot|Hroot].
      * destruct (IH (size - 1)%nat) as (Hle & Hall & Hstop & Hkeep); [lia|].
        cbv zeta in Hle, Hall, Hstop, Hkeep |- *. split; [lia|]. split; [|split; [exact Hstop | lia]].
        intros j Hj. destruct (Nat.eq_dec j (size - 1)%nat) as [->|Hne]; [exact Hsep|].
        apply Hall. lia.
      * repeat split; try lia; right; lia.
    + repeat split; try lia; now left.
Qed.

(** X29.  [DeleteSlash] takes separators off the end and nothing else, until
    the string ends with something else or only the root and one more
    character are left: a root slash is never taken, and neither is the
    separator right after it, so that [//] stays [//]. *)
Theorem DeleteSlash_removes_trailing_separators (s : list ascii) :
  exists removed,
    s = (DeleteSlash IsFileSep s ++ removed)%list /\
    Forall (fun c => IsFileSep c = true) removed /\
    (IsFileSep (List.last (DeleteSlash IsFileSep s) NUL) = true ->
     (length (DeleteSlash IsFileSep s) <= RootDirLength IsFileSep s + 1)%nat) /\
    (RootDirLength IsFileSep s + 1 <= length s ->
     RootDirLength IsFileSep s + 1 <= length (DeleteSlash IsFileSep s))%nat.
Proof.
  unfold DeleteSlash, strlen, terminate.
  destruct (Nat.eqb_spec (length s) 0) as [Hz|Hnz].
  - exists []. rewrite app_nil_r. repeat split; auto; lia.
  - destruct (DeleteSlash_loop_spec s (RootDirLength IsFileSep s) (S (length s)) (length s))
      as (Hle & Hall & Hstop & Hkeep); [lia|]. cbv zeta in Hle, Hall, Hstop, Hkeep |- *.
    set (size' := DeleteSlash_loop IsFileSep (S (length s)) s (RootDirLength IsFileSep s)
                    (length s)) in Hle, Hall, Hstop, Hkeep |- *.
    exists (skipn size' s). split; [now rewrite firstn_skipn|].
    split; [now apply Forall_skipn_char_at|].
    rewrite length_firstn. split; [|lia].
    intros Hlast. destruct Hstop as [Hstop|Hstop]; [|lia].
    destruct (Nat.eq_dec size' 0%nat) as [Hz|Hpos]; [lia|]. exfalso.
    assert (Hl : List.last (firstn size' s) NUL = char_at s (size' - 1)).
    { rewrite last_char_at by (rewrite length_firstn; lia).
      rewrite length_firstn. replace (Nat.min size' (length s)) with size' by lia.
      rewrite <- (firstn_skipn size' s) at 2. unfold char_at.
      rewrite app_nth1 by (rewrite length_firstn; lia). reflexivity. }
    congruence.
Qed.

Section Terminator.

(** The terminator is no separator. *)
Hypothesis IsFileSep_NUL : IsFileSep NUL = false.

(** *** [DeleteRedundantSlashes] *)

Lemma skip_separators_leading (rest : list ascii) :
  forall (fuel : nat) (str : list ascii) (oldpos : nat),
    skipn oldpos str = rest ->
    (length rest < fuel)%nat ->
    skip_separators IsFileSep fuel str oldpos = (oldpos + leading IsFileSep rest)%nat.
Proof.
  induction rest as [|c rest IH]; intros fuel str oldpos Hrest Hfuel;
    (destruct fuel as [|fuel]; [simpl in Hfuel; lia|]);
    cbn [skip_separators]; rewrite char_at_skipn, Hrest; cbn [hd leading].
  - rewrite IsFileSep_NUL. lia.
  - destruct (IsFileSep c); [|lia].
    rewrite (IH fuel str (S oldpos)); [lia | | simpl in Hfuel; lia].
    now rewrite skipn_S_tl, Hrest.
Qed.

Lemma skip_component_leading (rest : list ascii) :
  forall (fuel : nat) (str : list ascii) (oldpos : nat),
    skipn oldpos str = rest ->
    (length rest < fuel)%nat ->
    skip_component IsFileSep fuel str oldpos = (oldpos + leading in_component rest)%nat.
Proof.
  induction rest as [|c rest IH]; intros fuel str oldpos Hrest Hfuel;
    (destruct fuel as [|fuel]; [simpl in Hfuel; lia|]);
    cbn [skip_component]; rewrite char_at_skipn, Hrest; cbn [hd leading].
  - rewrite Ascii.eqb_refl. simpl. lia.
  - destruct (negb (Ascii.eqb c NUL) && negb (IsFileSep c)); [|lia].
    rewrite (IH fuel str (S oldpos)); [lia | | simpl in Hfuel; lia].
    now rewrite skipn_S_tl, Hrest.
Qed.

Lemma squeeze_component (l : list ascii) (b : bool) :
  c_string l ->
  (l = [] \/ IsFileSep (hd NUL l) = false) ->
  let k2 := leading in_component l in
  let k3 := if IsFileSep (hd NUL (skipn k2 l)) then 1%nat else 0%nat in
  squeeze IsFileSep b l
  = (firstn (k2 + k3) l ++ squeeze IsFileSep true (skipn (k2 + k3) l))%list /\
  (l <> [] -> (0 < k2 + k3)%nat) /\ (k2 + k3 <= length l)%nat.
Proof.
  intros Hl Hhead.
  assert (Hgen : forall (l : list ascii) (b : bool), c_string l ->
            let k2 := leading in_component l in
            let k3 := if IsFileSep (hd NUL (skipn k2 l)) then 1%nat else 0%nat in
            (l = [] \/ IsFileSep (hd NUL l) = false \/ b = false) ->
            squeeze IsFileSep b l
            = (firstn (k2 + k3) l ++ squeeze IsFileSep true (skipn (k2 + k3) l))%list /\
            (k2 + k3 <= length l)%nat).
  { clear l b Hl Hhead. induction l as [|c l IH]; intros b Hl k2 k3 Hb.
    - subst k2 k3. cbn. rewrite IsFileSep_NUL. cbn. split; [reflexivity | lia].
    - apply c_string_cons in Hl. destruct Hl as [Hc Hl].
      subst k2 k3. cbn [leading].
      destruct (Ascii.eqb_spec c NUL) as [|_]; [contradiction|]. cbn [negb andb].
      destruct (IsFileSep c) eqn:Hsep; cbn [negb].
      + cbn [skipn hd Nat.add firstn app squeeze length]. rewrite Hsep.
        destruct Hb as [Hb|[Hb|Hb]]; [discriminate | cbn in Hb; congruence|]. subst b.
        split; [reflexivity | lia].
      + cbn [skipn Nat.add firstn squeeze length]. rewrite Hsep.
        destruct (IH false Hl) as [Heq Hle]; [now right; right|].
        cbv zeta in Heq, Hle. rewrite Heq. split; [reflexivity | lia]. }
  destruct (Hgen l b Hl) as [Heq Hle]; [tauto|]. cbv zeta in Heq, Hle |- *.
  split; [exact Heq|]. split; [|exact Hle].
  intros Hne. destruct l as [|c l]; [contradiction|].
  destruct Hhead as [|Hhead]; [discriminate|]. cbn in Hhead.
  apply c_string_cons in Hl. destruct Hl as [Hc _].
  cbn [leading]. destruct (Ascii.eqb_spec c NUL) as [|_]; [contradiction|].
  rewrite Hhead. cbn. lia.
Qed.

Lemma DeleteRedundantSlashes_loop_spec (s : list ascii) :
  c_string s ->
  forall (fuel : nat) (str : list ascii) (oldpos newpos : nat),
    length str = length s ->
    (newpos <= oldpos)%nat -> (oldpos <= length s)%nat ->
    skipn oldpos str = skipn oldpos s ->
    (length s - oldpos < fuel)%nat ->
    firstn (snd (DeleteRedundantSlashes_loop IsFileSep fuel str oldpos newpos))
           (fst (DeleteRedundantSlashes_loop IsFileSep fuel str oldpos newpos))
    = (firstn newpos str ++ squeeze IsFileSep true (skipn oldpos s))%list.
Proof.
  intros Hs. induction fuel as [|fuel IH]; intros str oldpos newpos Hlen Hnew Hold Hrest Hfuel;
    [lia|].
  cbn [DeleteRedundantSlashes_loop]. rewrite char_at_skipn, Hrest.
  destruct (skipn oldpos s) as [|c r] eqn:Hs_rest.
  { cbn [hd]. rewrite Ascii.eqb_refl. cbn. now rewrite app_nil_r. }
  assert (Hc : c_string (c :: r)) by (rewrite <- Hs_rest; now apply c_string_skipn).
  cbn [hd]. destruct (Ascii.eqb_spec c NUL) as [->|_];
    [apply c_string_cons in Hc; now destruct Hc|].
  set (rest := c :: r) in Hs_rest, Hrest, Hc |- *.
  assert (Hrest_len : (oldpos + length rest = length s)%nat).
  { rewrite <- Hs_rest, length_skipn. lia. }
  set (k1 := leading IsFileSep rest).
  set (rest1 := skipn k1 rest).
  pose proof (leading_le IsFileSep rest) as Hk1. fold k1 in Hk1.
  assert (Hrest1 : skipn (oldpos + k1) str = rest1).
  { unfold rest1. rewrite <- Hrest, skipn_skipn. f_equal. lia. }
  assert (Hrest1_len : (k1 + length rest1 = length rest)%nat).
  { unfold rest1. rewrite length_skipn. lia. }
  unfold strlen.
  rewrite (skip_separators_leading rest) by (auto; lia). fold k1.
  rewrite (skip_component_leading rest1) by (auto; lia).
  set (k2 := leading in_component rest1).
  rewrite char_at_skipn.
  replace (skipn (oldpos + k1 + k2) str) with (skipn k2 rest1)
    by (rewrite <- Hrest1, skipn_skipn; f_equal; lia).
  set (k3 := if IsFileSep (hd NUL (skipn k2 rest1)) then 1%nat else 0%nat).
  replace (if IsFileSep (hd NUL (skipn k2 rest1)) then S (oldpos + k1 + k2) else (oldpos + k1 + k2)%nat)
    with (oldpos + k1 + (k2 + k3))%nat.
  2:{ unfold k3. destruct (IsFileSep (hd NUL (skipn k2 rest1))); lia. }
  replace (oldpos + k1 + (k2 + k3) - (oldpos + k1))%nat with (k2 + k3)%nat by lia.
  assert (Hc1 : c_string rest1) by (now apply c_string_skipn).
  destruct (squeeze_component rest1 true Hc1 (leading_stops IsFileSep rest))
    as (Hsq & Hpos & Hle). fold k2 k3 in Hsq, Hpos, Hle.
  assert (Hmove : (0 < k1 + (k2 + k3))%nat).
  { destruct (Nat.eq_dec k1 0%nat) as [Hk|Hk]; [|lia].
    assert (Hne : rest1 <> []) by (unfold rest1; rewrite Hk; discriminate).
    specialize (Hpos Hne). lia. }
  rewrite IH.
  - rewrite memmove_firstn by lia. rewrite Hrest1, <- app_assoc. f_equal.
    rewrite (squeeze_leading_separators rest). fold k1 rest1. rewrite Hsq. f_equal. f_equal.
    unfold rest1. rewrite skipn_skipn, <- Hs_rest, skipn_skipn. f_equal. lia.
  - rewrite memmove_length; lia.
  - lia.
  - lia.
  - rewrite memmove_skipn by lia.
    replace (oldpos + k1 + (k2 + k3))%nat with ((k1 + (k2 + k3)) + oldpos)%nat by lia.
    rewrite <- !skipn_skipn. now rewrite Hrest, Hs_rest.
  - lia.
Qed.

Lemma DeleteRedundantSlashes_squeeze (s : list ascii) :
  c_string s -> DeleteRedundantSlashes IsFileSep s = squeeze IsFileSep false s.
Proof.
  intros Hs. unfold DeleteRedundantSlashes, terminate, RootDirLength, UnixRootDirLength, strlen.
  pose proof (DeleteRedundantSlashes_loop_spec s Hs (S (length s)) s) as Hloop.
  destruct s as [|c r].
  - cbn. rewrite IsFileSep_NUL. reflexivity.
  - cbn [char_at nth]. destruct (IsFileSep c) eqn:Hc.
    + specialize (Hloop 1%nat 1%nat eq_refl (le_n _)).
      destruct (DeleteRedundantSlashes_loop _ _ _ _ _) as [str' newpos'].
      cbn [fst snd] in Hloop. rewrite Hloop; [|cbn; lia | reflexivity | cbn; lia].
      cbn. now rewrite Hc.
    + specialize (Hloop 0%nat 0%nat eq_refl (le_n _)).
      destruct (DeleteRedundantSlashes_loop _ _ _ _ _) as [str' newpos'].
      cbn [fst snd] in Hloop. rewrite Hloop; [|cbn; lia | reflexivity | cbn; lia].
      cbn. now rewrite Hc.
Qed.

Lemma squeeze_clean (s : list ascii) :
  forall b : bool,
    no_redundant_separators IsFileSep (squeeze IsFileSep b s) /\
    (b = true -> IsFileSep (hd NUL (squeeze IsFileSep b s)) = false).
Proof.
  induction s as [|c s IH]; intros b; cbn [squeeze].
  - cbn. auto.
  - destruct (IsFileSep c) eqn:Hc.
    + destruct b.
      * apply IH.
      * destruct (IH true) as [Hclean Hhd]. split; [|discriminate].
        cbn [no_redundant_separators]. split; [|exact Hclean].
        specialize (Hhd eq_refl).
        destruct (squeeze IsFileSep true s); [exact I|]. cbn in Hhd. intros [_ H]. congruence.
    + destruct (IH false) as [Hclean _]. split; [|intros _; exact Hc].
      cbn [no_redundant_separators]. split; [|exact Hclean].
      destruct (squeeze IsFileSep false s); [exact I|]. intros [H _]. congruence.
Qed.

Lemma squeeze_id (s : list ascii) :
  forall b : bool,
    no_redundant_separators IsFileSep s ->
    (b = true -> IsFileSep (hd NUL s) = false) ->
    squeeze IsFileSep b s = s.
Proof.
  induction s as [|c s IH]; intros b Hclean Hb; [reflexivity|].
  cbn [squeeze]. cbn [no_redundant_separators] in Hclean. destruct Hclean as [Hpair Hclean].
  destruct (IsFileSep c) eqn:Hc.
  - destruct b; [cbn in Hb; specialize (Hb eq_refl); congruence|].
    f_equal. apply IH; [exact Hclean|]. intros _.
    destruct s as [|c' s]; [exact IsFileSep_NUL|]. cbn.
    destruct (IsFileSep c') eqn:Hc'; [|reflexivity]. exfalso. now apply Hpair.
  - f_equal. apply IH; [exact Hclean | discriminate].
Qed.

Lemma DeleteRedundantSlashes_leaves_single_separators_aux (s : list ascii) :
  c_string s ->
  no_redundant_separators IsFileSep (DeleteRedundantSlashes IsFileSep s) /\
  (no_redundant_separators IsFileSep s -> DeleteRedundantSlashes IsFileSep s = s) /\
  c_string (DeleteRedundantSlashes IsFileSep s).
Proof.
  intros Hs. rewrite (DeleteRedundantSlashes_squeeze s Hs).
  split; [apply squeeze_clean|]. split; [|now apply squeeze_c_string].
  intros Hclean. apply squeeze_id; [exact Hclean | discriminate].
Qed.

(** X23.  What [DeleteRedundantSlashes] leaves behind has no separator that
    follows a separator; a string that is like that already is left as it
    is, so doing it twice is doing it once. *)
Theorem DeleteRedundantSlashes_leaves_single_separators (s : list ascii) :
  c_string s ->
  no_redundant_separators IsFileSep (DeleteRedundantSlashes IsFileSep s) /\
  (no_redundant_separators IsFileSep s -> DeleteRedundantSlashes IsFileSep s = s) /\
  DeleteRedundantSlashes IsFileSep (DeleteRedundantSlashes IsFileSep s)
  = DeleteRedundantSlashes IsFileSep s.
Proof.
  intros Hs. rewrite (DeleteRedundantSlashes_squeeze s Hs).
  rewrite (DeleteRedundantSlashes_squeeze _ (squeeze_c_string s false Hs)).
  split; [apply squeeze_clean|]. split.
  - intros Hclean. apply squeeze_id; [exact Hclean | discriminate].
  - apply squeeze_id; [apply squeeze_clean | discriminate].
Qed.

(** X24.  [DeleteRedundantSlashes] removes separators and nothing else, and of
    a run of separators it keeps the first: the characters that are not
    separators stay, in their order; the string does not get longer, keeps
    its first character, and has a separator left if it had one. *)
Theorem DeleteRedundantSlashes_removes_separators_only (s : list ascii) :
  c_string s ->
  List.filter (fun c => negb (IsFileSep c)) (DeleteRedundantSlashes IsFileSep s)
  = List.filter (fun c => negb (IsFileSep c)) s /\
  (length (DeleteRedundantSlashes IsFileSep s) <= length s)%nat /\
  hd_error (DeleteRedundantSlashes IsFileSep s) = hd_error s /\
  existsb IsFileSep (DeleteRedundantSlashes IsFileSep s) = existsb IsFileSep s.
Proof.
  intros Hs. rewrite (DeleteRedundantSlashes_squeeze s Hs).
  split; [apply squeeze_names|]. split; [apply squeeze_length|].
  split; [|apply squeeze_separators].
  destruct s as [|c s]; [reflexivity|]. cbn [squeeze]. destruct (IsFileSep c); reflexivity.
Qed.

Lemma RootDirLength_relative (r : list ascii) :
  Forall (fun c => IsFileSep c = false) r -> RootDirLength IsFileSep r = 0%nat.
Proof.
  intros H. unfold RootDirLength, UnixRootDirLength.
  destruct r as [|c r]; cbn.
  - now rewrite IsFileSep_NUL.
  - inversion H as [|? ? Hc _]; subst. now rewrite Hc.
Qed.

Section Absolute.

Variable IsAbsoluteFileName : list ascii -> bool.

(** *** [ChopLastNode] *)

(** X26.  [ChopLastNode] says no only to the empty string, which it leaves
    empty; every other string it changes or leaves is reported as chopped.
    What it leaves is never longer than what it was given. *)
Theorem ChopLastNode_refuses_only_the_empty_string (s : list ascii) :
  c_string s ->
  (fst (ChopLastNode IsFileSep IsAbsoluteFileName s) = false <-> s = []) /\
  (s = [] -> snd (ChopLastNode IsFileSep IsAbsoluteFileName s) = []) /\
  (length (snd (ChopLastNode IsFileSep IsAbsoluteFileName s)) <= length s)%nat.
Proof.
  intros Hs. unfold ChopLastNode. rewrite (DeleteRedundantSlashes_squeeze s Hs).
  pose proof (squeeze_c_string s false Hs) as Hr.
  pose proof (squeeze_length s false) as Hlen.
  pose proof (squeeze_nil s) as Hnil.
  destruct (last_node_split (squeeze IsFileSep false s))
    as [Hnone|(pre & c & leaf & Heq & Hc & Hleaf)].
  - rewrite (LastFileSeparator_none _ Hnone), (RootDirLength_relative _ Hnone).
    destruct (squeeze IsFileSep false s) as [|x r] eqn:Hsq.
    + cbn. split; [tauto|]. split; [reflexivity | lia].
    + apply c_string_cons in Hr. destruct Hr as [Hx _].
      cbn [char_at nth]. destruct (Ascii.eqb_spec x NUL) as [|_]; [contradiction|].
      cbn [fst snd firstn app length] in Hlen |- *. split; [|split; [|lia]].
      * split; [discriminate|]. intros Hs0. apply Hnil in Hs0. discriminate.
      * intros Hs0. apply Hnil in Hs0. discriminate.
  - rewrite Heq in Hr, Hlen, Hnil |- *. rewrite (LastFileSeparator_some pre leaf c Hc Hleaf).
    assert (Hne : s <> []).
    { intros Hs0. apply Hnil in Hs0. destruct pre; discriminate. }
    destruct (_ && _); cbn [fst snd]; unfold terminate;
      (split; [split; [discriminate | contradiction]|]);
      (split; [contradiction|]); rewrite length_firstn; lia.
Qed.

Lemma ChopLastNode_cuts_the_leaf (dir leaf : list ascii) (c : ascii) :
  c_string (dir ++ c :: leaf) ->
  no_redundant_separators IsFileSep (dir ++ c :: leaf) ->
  IsFileSep c = true ->
  Forall (fun c => IsFileSep c = false) leaf ->
  existsb IsFileSep dir = true \/ IsAbsoluteFileName (dir ++ c :: leaf) = false ->
  ChopLastNode IsFileSep IsAbsoluteFileName (dir ++ c :: leaf) = (true, dir).
Proof.
  intros Hs Hclean Hc Hleaf Hcase. unfold ChopLastNode.
  rewrite (proj1 (proj2 (DeleteRedundantSlashes_leaves_single_separators_aux _ Hs)) Hclean).
  rewrite (LastFileSeparator_some dir leaf c Hc Hleaf).
  replace (terminate (dir ++ c :: leaf) (length dir)) with dir
    by (unfold terminate; now rewrite firstn_app, firstn_all, Nat.sub_diag, app_nil_r).
  destruct (IsAbsoluteFileName (dir ++ c :: leaf)) eqn:Habs; [|reflexivity].
  destruct Hcase as [Hex|]; [|discriminate].
  rewrite bool_decide_eq_false_2; [reflexivity|].
  unfold FirstFileSeparator.
  destruct (Ascii.eqb (char_at (dir ++ c :: leaf) 0) "\"
            && Ascii.eqb (char_at (dir ++ c :: leaf) 1) "\") eqn:Hshare.
  - intros [= Hlen]. destruct dir as [|d [|? ?]]; try discriminate.
    cbn in Hex. rewrite orb_false_r in Hex.
    cbn in Hclean. destruct Hclean as [Hpair _]. now apply Hpair.
  - apply c_string_app in Hs. destruct Hs as [Hdir _].
    destruct (first_separator_in_prefix dir (c :: leaf) Hdir Hex 0%nat) as (i & Hi & ->).
    intros [= H]. lia.
Qed.

(** X27.  For a path without redundant separators, [ChopLastNode] cuts at the
    last separator and leaves the directory part: [dir/leaf] becomes [dir].
    This is so whenever the directory part has a separator of its own, as
    in [/var/state/socket], or the name is not absolute. *)
Theorem ChopLastNode_leaves_the_directory (dir leaf : list ascii) (c : ascii) :
  c_string (dir ++ c :: leaf) ->
  no_redundant_separators IsFileSep (dir ++ c :: leaf) ->
  IsFileSep c = true ->
  Forall (fun c => IsFileSep c = false) leaf ->
  existsb IsFileSep dir = true \/ IsAbsoluteFileName (dir ++ c :: leaf) = false ->
  ChopLastNode IsFileSep IsAbsoluteFileName (dir ++ c :: leaf) = (true, dir).
Proof. exact (ChopLastNode_cuts_the_leaf dir leaf c). Qed.

(** X28.  The root slash of an absolute path is not chopped: [/leaf] becomes
    [/], not the empty string. *)
Theorem ChopLastNode_keeps_the_root (leaf : list ascii) (c : ascii) :
  c_string (c :: leaf) ->
  IsFileSep c = true ->
  Forall (fun c => IsFileSep c = false) leaf ->
  IsAbsoluteFileName (c :: leaf) = true ->
  ChopLastNode IsFileSep IsAbsoluteFileName (c :: leaf) = (true, [c]).
Proof.
  intros Hs Hc Hleaf Habs. unfold ChopLastNode.
  assert (Hclean : no_redundant_separators IsFileSep (c :: leaf)).
  { cbn [no_redundant_separators]. split.
    - destruct leaf as [|x leaf]; [exact I|]. inversion Hleaf; subst. intros [_ H]. congruence.
    - clear Hs Habs. induction leaf as [|x leaf IH]; [exact I|].
      inversion Hleaf as [|? ? Hx Hrest]; subst. cbn [no_redundant_separators]. split; [|auto].
      destruct leaf; [exact I|]. intros [H _]. congruence. }
  rewrite (proj1 (proj2 (DeleteRedundantSlashes_leaves_single_separators_aux _ Hs)) Hclean).
  pose proof (LastFileSeparator_some [] leaf c Hc Hleaf) as Hlast.
  cbn [length app] in Hlast. rewrite Hlast.
  rewrite Habs. cbn [andb].
  rewrite bool_decide_eq_true_2; [reflexivity|].
  unfold FirstFileSeparator. apply c_string_cons in Hs. destruct Hs as [Hnul _].
  assert (Hshare : Ascii.eqb (char_at (c :: leaf) 0) "\"
                   && Ascii.eqb (char_at (c :: leaf) 1) "\" = false).
  { cbn [char_at nth]. destruct (Ascii.eqb_spec c "\") as [->|]; [|reflexivity].
    destruct leaf as [|x leaf]; [reflexivity|]. cbn [andb nth].
    destruct (Ascii.eqb_spec x "\") as [->|]; [|reflexivity].
    inversion Hleaf; subst. congruence. }
  rewrite Hshare. cbn [first_separator].
  destruct (Ascii.eqb_spec c NUL) as [|_]; [contradiction|]. now rewrite Hc.
Qed.

End Absolute.

End Terminator.

End Separators.

End PathNameProperties.

(* ===================================================================== *)
(** ** The folder of the runagent socket *)
(* ===================================================================== *)

Section SocketDirectory.

Context `{C : Collaborators}.

Lemma list_ascii_of_string_app (a b : string) :
  list_ascii_of_string (a ++ b) = (list_ascii_of_string a ++ list_ascii_of_string b)%list.
Proof.
  induction a as [|x a IH]; [reflexivity|].
  change (String x a ++ b) with (String x (a ++ b)). cbn [list_ascii_of_string app].
  now rewrite IH.
Qed.

Lemma list_ascii_of_substring (s : string) (k : nat) :
  list_ascii_of_string (substring 0 k s) = firstn k (list_ascii_of_string s).
Proof.
  revert k. induction s as [|x s IH]; intros [|k]; cbn; try reflexivity. now rewrite IH.
Qed.

Lemma Forall_firstn_ascii (P : ascii -> Prop) (l : list ascii) (k : nat) :
  Forall P l -> Forall P (firstn k l).
Proof.
  intros H. rewrite <- (firstn_skipn k l) in H. now apply Forall_app in H.
Qed.

Lemma no_redundant_separators_app (dir leaf : list ascii) (c : ascii) :
  no_redundant_separators IsFileSep dir ->
  IsFileSep (List.last dir files_names.NUL) = false ->
  Forall (fun c => IsFileSep c = false) leaf ->
  no_redundant_separators IsFileSep (dir ++ c :: leaf).
Proof.
  intros Hdir Hlast Hleaf.
  assert (Htail : forall x l, Forall (fun c => IsFileSep c = false) l ->
                              no_redundant_separators IsFileSep (x :: l)).
  { intros x l Hl. revert x. induction l as [|y l IH]; intros x; cbn; [auto|].
    inversion Hl as [|? ? Hy Hl']; subst. split; [intros [_ H]; congruence|].
    apply (IH Hl'). }
  induction dir as [|x dir IH]; [now apply Htail|].
  cbn [app no_redundant_separators] in Hdir |- *. destruct Hdir as [Hpair Hdir].
  destruct dir as [|y dir].
  - cbn [app]. split; [|now apply Htail]. cbn in Hlast. intros [H _]. congruence.
  - split; [exact Hpair|]. apply IH; [exact Hdir | exact Hlast].
Qed.

(** X30.  The folder [SetRunagentSocketACLs] opens to the allowed users is
    the socket directory.  Whenever [GetRunagentSocketInfo] has stored a
    path, [SetRunagentSocketACLs] asks for read and write access to that
    path and, when this went well, for read and execute access to what
    [ChopLastNode] of files_names.c leaves of it, which is the directory
    the socket is in; what it returns is the answer to the last call it
    made.  This holds provided the directory is written without redundant
    or trailing separators and has a separator in it, and a slash is a
    separator while the characters of the socket's name are not. *)
Theorem runagent_socket_parent_is_the_socket_directory
    (g : Globals) (disk : Disk) (sun_path : string) (users : gset string) (w : World) :
  IsFileSep files_names.NUL = false ->
  IsFileSep "/" = true ->
  Forall (fun c => IsFileSep c = false)
         (list_ascii_of_string CF_EXECD_RUNAGENT_SOCKET_NAME) ->
  GetRunagentSocketInfo g = (true, sun_path) ->
  c_string (list_ascii_of_string (runagent_socket_directory g)) ->
  no_redundant_separators IsFileSep (list_ascii_of_string (runagent_socket_directory g)) ->
  IsFileSep (List.last (list_ascii_of_string (runagent_socket_directory g)) files_names.NUL)
  = false ->
  existsb IsFileSep (list_ascii_of_string (runagent_socket_directory g)) = true ->
  ChopLastNode sun_path = runagent_socket_directory g /\
  SetRunagentSocketACLs disk sun_path users w
  = if AllowAccessForUsers disk sun_path users true false
    then Ret (AllowAccessForUsers disk (runagent_socket_directory g) users false true)
             (emits [EvAllowAccessForUsers sun_path users true false;
                     EvAllowAccessForUsers (runagent_socket_directory g) users false true] w)
    else Ret false (emit (EvAllowAccessForUsers sun_path users true false) w).
Proof.
  intros Hnul Hslash Hname Hinfo Hdir Hclean Hlast Hsep.
  assert (Hchop : ChopLastNode sun_path = runagent_socket_directory g).
  { destruct (GetRunagentSocketInfo_shape_name g sun_path Hinfo) as (k & ->).
    unfold ChopLastNode.
    rewrite list_ascii_of_string_app. cbn [list_ascii_of_string].
    rewrite list_ascii_of_substring.
    assert (Hleaf : Forall (fun c => IsFileSep c = false)
                           (firstn k (list_ascii_of_string CF_EXECD_RUNAGENT_SOCKET_NAME)))
      by (now apply Forall_firstn_ascii).
    rewrite (ChopLastNode_cuts_the_leaf IsFileSep Hnul IsAbsoluteFileName).
    - cbn [snd]. apply string_of_list_ascii_of_string.
    - apply c_string_app. split; [exact Hdir|]. apply c_string_cons. split.
      + intros H. rewrite H, Hnul in Hslash. discriminate.
      + apply c_string_firstn. unfold c_string. cbn. intuition discriminate.
    - now apply no_redundant_separators_app.
    - exact Hslash.
    - exact Hleaf.
    - now left. }
  split; [exact Hchop|].
  unfold SetRunagentSocketACLs, bind, ret, effect. rewrite Hchop.
  destruct (AllowAccessForUsers disk sun_path users true false); [|reflexivity].
  simpl. rewrite !emit_emits, emits_emits. reflexivity.
Qed.

End SocketDirectory.


(* ===================================================================== *)
(** ** The properties on the small host *)
(* ===================================================================== *)

Lemma C1_schedule_witness :
  (exists w',
     @ScheduleRun sample_host initial_globals (narrowed_tick true) stale_daemon sample_world
     = Ret (true, ticked_daemon) w') /\
  (exists d' w',
     @ScheduleRun sample_host initial_globals (narrowed_tick true) idle_daemon sample_world
     = Ret (false, d') w').
Proof.
  split.
  - destruct (@C1_schedule_decision_existential sample_host initial_globals
                (narrowed_tick true) stale_daemon sample_world)
      as (b & w' & Hrun & Hiff & _).
    exists w'. rewrite Hrun.
    replace b with true; [reflexivity|].
    symmetry. apply Hiff. exists "Min00_05". split; [|reflexivity].
    change ("Min00_05" ∈ (list_to_set ["Min00_05"] : gset string)). set_solver.
  - destruct (@C1_schedule_decision_existential sample_host initial_globals
                (narrowed_tick true) idle_daemon sample_world)
      as (b & w' & Hrun & _ & Hempty & _).
    do 2 eexists. rewrite Hrun. rewrite (Hempty eq_refl). reflexivity.
Defined.

Lemma C3_rejected_reload_witness :
  exists b d' w' evs,
    @ScheduleRun sample_host initial_globals (narrowed_tick false)
                 (sample_daemon ["Min00_05"] ["alice"; "bob"] 30) sample_world
    = Ret (b, d') w' /\
    trace w' = (trace sample_world ++ evs)%list /\
    In (EvLog LOG_LEVEL_INFO "New promises file contains syntax errors -- ignoring") evs /\
    Forall quiet_event evs /\
    policy d' = policy (sample_daemon ["Min00_05"] ["alice"; "bob"] 30) /\
    execd_config d' = execd_config (sample_daemon ["Min00_05"] ["alice"; "bob"] 30) /\
    exec_config d' = exec_config (sample_daemon ["Min00_05"] ["alice"; "bob"] 30) /\
    ctx d' = UpdateTimeClasses
               (DetectEnvironment
                  (EvalContextClear (ctx (sample_daemon ["Min00_05"] ["alice"; "bob"] 30))))
               (tick_now (narrowed_tick false)).
Proof.
  apply (@C3_rejected_reload_keeps_policy sample_host).
  - left. reflexivity.
  - reflexivity.
Defined.

Lemma C9_rejected_policy_witness :
  exists cfg' w',
    @CheckNewPromises sample_host (narrowed_disk false) sample_config sample_world
    = Ret (RELOAD_ENVIRONMENT, cfg') w' /\
    reload_requested w' = false /\
    last_validated_at cfg' = 2000 /\
    forall (later : SampleDisk) (w2 : @World sample_host),
    exists r cfg2 w3 evs,
      @CheckNewPromises sample_host later cfg' w2 = Ret (r, cfg2) w3 /\
      trace w3 = (trace w2 ++ evs)%list /\
      ((exists v, In (EvArePromisesValid v) evs) <->
       2000 < sd_validated_at later \/ reload_requested w2 = true) /\
      (~ (2000 < sd_validated_at later \/ reload_requested w2 = true) ->
       r = RELOAD_ENVIRONMENT /\ cfg2 = cfg').
Proof.
  apply (@C9_rejected_policy_not_reexamined sample_host (narrowed_disk false)
           sample_config sample_world).
  - left. reflexivity.
  - reflexivity.
Defined.


(** C6 fails on the parent's side.  A client connects during a splay
    sleep; the parent accepts the connection on descriptor 7, forks the
    handler and goes back to [select] with 27 seconds left.  When
    [HandleRequestsOrSleep] returns, descriptor 7 is still open in the
    parent and the trace has no [close]. *)
Theorem C6_parent_leaves_descriptor_open :
  let w' := @mk_world sample_host false false SIG_IGN [7]
              [EvLog LOG_LEVEL_VERBOSE "Sleeping for %s %ju seconds";
               EvSelect 6 (mk_timeval 30 0);
               EvAccept 5 7;
               EvFork 4242;
               EvSelect 6 (mk_timeval 27 600000)] in
  @HandleRequestsOrSleep sample_host 30 "splay time" 5 None request_env sample_world
  = Ret false w' /\
  In 7 (open_fds w') /\
  forall fd, ~ In (EvClose fd) (trace w').
Proof.
  intros w'. split; [reflexivity|]. split; [now left|].
  intros fd Hin. cbn [In trace w'] in Hin. intuition discriminate.
Qed.

Lemma C4_termination_witness :
  @HandleRequestsOrSleep sample_host 60 "pulse time" 5 None request_env terminating_world
  = Ret true terminating_world /\
  (exists w',
     @HandleRequestsOrSleep sample_host 30 "splay time" 5 None request_env sample_world
     = Ret (termination_pending w') w') /\
  @HandleRequestsOrSleep sample_host 30 "splay time" 5 None busy_terminate_env sample_world
  = Ret true
        (@mk_world sample_host true false SIG_IGN [7; 7]
           [EvLog LOG_LEVEL_VERBOSE "Sleeping for %s %ju seconds";
            EvSelect 6 (mk_timeval 30 0);
            EvAccept 5 7;
            EvFork 4242;
            EvSelect 6 (mk_timeval 27 600000);
            EvAccept 5 7;
            EvFork 4242;
            EvSelect 6 (mk_timeval 27 600000)]) /\
  (let w1 := @mk_world sample_host true false SIG_IGN [7]
               [EvLog LOG_LEVEL_VERBOSE "Sleeping for %s %ju seconds";
                EvSelect 6 (mk_timeval 60 0);
                EvAccept 5 7;
                EvFork 4242] in
   termination_pending w1 = true /\
   mk_timeval 57 600000 = next_timeout 60 1000 late_signal_round /\
   @HandleRequestsOrSleep sample_host 60 "pulse time" 5 None late_signal_env sample_world
   = Ret true (arrive quiet (emit (EvSelect 6 (mk_timeval 57 600000)) w1))) /\
  @HandleRequestsOrSleep sample_host 60 "pulse time" (-1) None terminate_env sample_world
  = Ret true
        (arrive (mk_async true false)
           (emits [EvLog LOG_LEVEL_VERBOSE "Sleeping for %s %ju seconds"; EvSleep 60]
                  sample_world)).
Proof.
  split; [|split; [|split; [|split]]].
  - apply (proj1 (@C4_termination_honoured sample_host 60 "pulse time" 5 None request_env
                    terminating_world)).
    reflexivity.
  - apply (proj1 (proj2 (@C4_termination_honoured sample_host 30 "splay time" 5 None
                           request_env sample_world))).
    right. split.
    + repeat constructor; simpl; discriminate.
    + right. left. reflexivity.
  - apply (proj1 (proj2 (proj2 (proj2
             (@C4_termination_honoured sample_host 30 "splay time" 5 None
                busy_terminate_env sample_world))))
            ltac:(lia) ltac:(discriminate) eq_refl
            [request_round; request_round] terminate_round [timeout_round]).
    + reflexivity.
    + repeat constructor; discriminate.
    + reflexivity.
    + reflexivity.
  - apply (proj1 (proj2 (proj2 (proj2 (proj2
             (@C4_termination_honoured sample_host 60 "pulse time" 5 None
                late_signal_env sample_world)))))
            ltac:(lia) ltac:(discriminate) eq_refl
            [] late_signal_round timeout_round []).
    + reflexivity.
    + constructor.
    + reflexivity.
    + reflexivity.
    + intros _. discriminate.
    + reflexivity.
    + discriminate.
    + reflexivity.
  - apply (proj2 (proj2 (proj2 (proj2 (proj2
             (@C4_termination_honoured sample_host 60 "pulse time" (-1)
                None terminate_env sample_world)))))).
    + reflexivity.
    + reflexivity.
Defined.

(** C4, as stated, fails when the termination signal arrives after the
    flag has been looked at.  A client connects 3.4 seconds into a pulse
    sleep of 60 seconds and [SIGTERM] comes while the parent hands the
    connection over: the flag is raised, and yet the parent calls [select]
    again with the 57.6 seconds that are left, and comes back, with
    [true], only when that [select] has run into its timeout. *)
Lemma C4_counterexample_signal_after_the_check :
  let w0 := emit (EvLog LOG_LEVEL_VERBOSE "Sleeping for %s %ju seconds") sample_world in
  let w1 := @mk_world sample_host true false SIG_IGN [7]
              [EvLog LOG_LEVEL_VERBOSE "Sleeping for %s %ju seconds";
               EvSelect 6 (mk_timeval 60 0);
               EvAccept 5 7;
               EvFork 4242] in
  @select_loop sample_host 60 5 None 1000 (mk_timeval 60 0) [late_signal_round] w0
  = Blocked w1 /\
  termination_pending w1 = true /\
  rd_ret timeout_round = 0 /\
  @HandleRequestsOrSleep sample_host 60 "pulse time" 5 None late_signal_env sample_world
  = Ret true (emit (EvSelect 6 (mk_timeval 57 600000)) w1).
Proof. repeat split. Qed.



Lemma C7_fork_failure_witness :
  let d1 := @mk_daemon sample_host (∅ ∪ {["linux"]} ∪ {["Min00_05"]})
              (policy stale_daemon) (config stale_daemon) (execd_config stale_daemon) true in
  exists w3,
    @main_loop_body sample_host initial_globals (-1) fork_failure_turn stale_daemon
                    sample_world
    = @bind sample_host _ _
        (@HandleRequestsOrSleep sample_host CFPULSETIME "pulse time" (-1)
           (local_run_command (execd_config d1)) quiet_env)
        (fun terminate => @ret sample_host _ (terminate, d1))
        w3.
Proof.
  intros d1. eexists.
  eapply (@C7_fork_failure_runs_inline sample_host initial_globals (-1) fork_failure_turn
            stale_daemon d1).
  - reflexivity.
  - reflexivity.
  - reflexivity.
  - reflexivity.
  - reflexivity.
Defined.

Lemma C10_verbose_witness :
  NO_FORK (os_globals verbose_state) = true /\
  @stays_in_foreground sample_host (os_globals verbose_state) /\
  (forall opts1 opts2,
     [Short "v" None; Short "K" None] = (opts1 ++ opts2)%list ->
     sample_CheckOpts sample_ambient (opts1 ++ Short "F" None :: opts2)%list []
     = sample_CheckOpts sample_ambient [Short "v" None; Short "K" None] []) /\
  (forall st0,
     exists st1,
       CheckOpts_case sample_set_input_file (fun s _ => {[s]}) sample_log_level
                      (fun c _ => Some c) (Short "v" None) st0 = inl st1 /\
       global_log_level (os_ambient st1) = LOG_LEVEL_VERBOSE /\
       NO_FORK (os_globals st1) = true).
Proof.
  apply (@C10_verbose_sets_NO_FORK sample_host sample_config sample_set_input_file
           (fun s _ => {[s]}) sample_log_level (fun c _ => Some c) sample_parse_arguments
           sample_ambient [Short "v" None; Short "K" None] [] None verbose_state).
  - left. reflexivity.
  - reflexivity.
Defined.

Lemma GetRunagentSocketInfo_cut_witness :
  fst (@GetRunagentSocketInfo sample_host edge_dir_globals) = true /\
  String.length (snd (@GetRunagentSocketInfo sample_host edge_dir_globals)) = 106%nat /\
  snd (@GetRunagentSocketInfo sample_host edge_dir_globals)
  <> @runagent_socket_text sample_host edge_dir_globals.
Proof.
  apply (@GetRunagentSocketInfo_cut_at_limit sample_host edge_dir_globals).
  - simpl. lia.
  - reflexivity.
Defined.

Lemma CheckOpts_NO_FORK_witness :
  NO_FORK (os_globals (on_globals (with_NO_FORK true)
                         (mk_opt_state initial_globals sample_config sample_ambient))) = true <->
  exists optarg, In (Short "v" optarg) [Short "F" None] \/
                 In (Short "F" optarg) [Short "F" None] \/
                 In (Short "O" optarg) [Short "F" None].
Proof.
  apply (CheckOpts_NO_FORK_iff sample_config sample_set_input_file
           (fun s _ => {[s]}) sample_log_level (fun c _ => Some c) sample_parse_arguments
           sample_ambient [Short "F" None] []).
  reflexivity.
Defined.

Lemma CheckOpts_ONCE_witness :
  let st := on_globals (with_NO_FORK true)
              (on_globals (with_ONCE true)
                 (mk_opt_state initial_globals sample_config sample_ambient)) in
  (exists optarg, In (Short "O" optarg) [Short "O" None]) /\
  NO_FORK (os_globals st) = true /\
  forall fork_answer w,
    @StartServer_detach sample_host (os_globals st) fork_answer w = Ret tt w.
Proof.
  intros st.
  apply (@CheckOpts_ONCE_starts_quietly sample_host sample_config sample_set_input_file
           (fun s _ => {[s]}) sample_log_level (fun c _ => Some c) sample_parse_arguments
           sample_ambient [Short "O" None] [] st).
  - reflexivity.
  - reflexivity.
Defined.

Lemma CheckOpts_db_check_witness :
  exists arg, In (LongOnly "skip-db-check" (Some arg)) [LongOnly "skip-db-check" (Some "No")] /\
              StringEqual_IgnoreCase arg "no" = true.
Proof.
  apply (CheckOpts_db_check_only_on_request sample_config sample_set_input_file
           (fun s _ => {[s]}) sample_log_level (fun c _ => Some c) sample_parse_arguments
           sample_ambient [LongOnly "skip-db-check" (Some "No")] []
           (on_globals (with_PERFORM_DB_CHECK true)
              (mk_opt_state initial_globals sample_config sample_ambient))).
  - reflexivity.
  - reflexivity.
Defined.

Lemma CheckOpts_exit_codes_witness :
  EXIT_SUCCESS = EXIT_FAILURE \/
  (EXIT_SUCCESS = EXIT_SUCCESS /\
   exists o, In o [Short "K" None; Short "h" None] /\ informational o = true).
Proof.
  apply (CheckOpts_exit_codes sample_config sample_set_input_file
           (fun s _ => {[s]}) sample_log_level (fun c _ => Some c) sample_parse_arguments
           sample_ambient [Short "K" None; Short "h" None] []).
  reflexivity.
Defined.

Lemma CheckOpts_informational_witness :
  sample_CheckOpts sample_ambient
    ([Short "K" None] ++ Short "V" None :: [Short "?" None])%list ["a.cf"; "b.cf"]
  = inr EXIT_SUCCESS.
Proof.
  apply (CheckOpts_informational_wins sample_config sample_set_input_file
           (fun s _ => {[s]}) sample_log_level (fun c _ => Some c) sample_parse_arguments
           sample_ambient [Short "K" None] [Short "?" None] (Short "V" None)
           ["a.cf"; "b.cf"]
           (on_config (with_ignore_locks true)
              (mk_opt_state initial_globals sample_config sample_ambient))).
  - reflexivity.
  - reflexivity.
Defined.

Lemma StartServer_detach_fork_witness :
  (-1 <> 0 ->
   @StartServer_detach sample_host initial_globals (-1) sample_world
   = Exited EXIT_SUCCESS
       (emits [EvApoptosis; EvFork (-1); EvLog LOG_LEVEL_INFO "cf-execd starting %.24s"]
              sample_world)) /\
  (-1 = 0 ->
   @StartServer_detach sample_host initial_globals (-1) sample_world
   = Ret tt (emits [EvApoptosis; EvFork 0; EvActAsDaemon] sample_world)).
Proof.
  apply (@StartServer_detach_fork_answers sample_host initial_globals (-1) sample_world).
  reflexivity.
Defined.

Lemma select_loop_failing_witness :
  exists w' evs,
    @select_loop sample_host 60 5 None 1000 (mk_timeval 60 0)
                 [failing_round; failing_round] sample_world = Blocked w' /\
    termination_pending w'
    = termination_pending sample_world
      || existsb (fun r => async_term (rd_async r)) [failing_round; failing_round] /\
    trace w' = (trace sample_world ++ evs)%list /\
    length evs = (2 * length [failing_round; failing_round])%nat /\
    Forall (fun e => (exists nfds tv, e = EvSelect nfds tv) \/
                     e = EvLog LOG_LEVEL_ERR "Failed to sleep for %s using select(): %s")
           evs.
Proof.
  apply (@select_loop_failing_select_goes_on sample_host 60 5 None 1000
           [failing_round; failing_round]).
  - repeat constructor; discriminate.
  - discriminate.
Defined.

Lemma CFExecdMainLoop_witness :
  let turn :=
    [EvWaitpid 0;
     EvLog LOG_LEVEL_DEBUG "Checking file updates for input file '%s'";
     EvLog LOG_LEVEL_DEBUG "No new promises found";
     EvLog LOG_LEVEL_VERBOSE "Waking up the agent at %s ~ %s";
     EvLog LOG_LEVEL_VERBOSE "Sleeping for %s %ju seconds";
     EvSelect 6 (mk_timeval 30 0);
     EvLog LOG_LEVEL_VERBOSE "Forking for exec_command execution";
     EvFork 4243;
     EvLog LOG_LEVEL_VERBOSE "Sleeping for %s %ju seconds";
     EvSelect 6 (mk_timeval 60 0)] in
  let w1 := @mk_world sample_host true false SIG_IGN [] (turn ++ turn) in
  let w' := emit (EvUnlink "/var/cfengine/state/cf-execd.sockets/runagent.socket") w1 in
  @CFExecdMainLoop sample_host initial_globals 5 [parent_turn; pulse_terminate_turn]
                   stale_daemon sample_world
  = Ret ticked_daemon w' /\
  termination_pending w' = true /\
  exists w1,
    @main_loop sample_host initial_globals 5 [parent_turn; pulse_terminate_turn]
               stale_daemon sample_world
    = Ret ticked_daemon w1 /\
    w' = if UsingRunagentSocket initial_globals
            && fst (@GetRunagentSocketInfo sample_host initial_globals)
         then emit (EvUnlink (snd (@GetRunagentSocketInfo sample_host initial_globals))) w1
         else w1.
Proof.
  intros turn w1 w'.
  assert (Hrun : @CFExecdMainLoop sample_host initial_globals 5
                   [parent_turn; pulse_terminate_turn] stale_daemon sample_world
                 = Ret ticked_daemon w') by reflexivity.
  split; [exact Hrun|].
  exact (@CFExecdMainLoop_returns_on_termination sample_host initial_globals 5
           [parent_turn; pulse_terminate_turn] stale_daemon ticked_daemon sample_world w'
           Hrun).
Defined.

Lemma termination_during_splay_witness :
  exists w2,
    @main_loop_body sample_host initial_globals (-1) splay_terminate_turn stale_daemon
                    sample_world = Ret (true, ticked_daemon) w2 /\
    @main_loop sample_host initial_globals (-1) [splay_terminate_turn; parent_turn]
               stale_daemon sample_world = Ret ticked_daemon w2.
Proof.
  eexists.
  eapply (@termination_during_splay_skips_the_run sample_host initial_globals (-1)
            splay_terminate_turn [parent_turn] stale_daemon ticked_daemon).
  - reflexivity.
  - reflexivity.
  - reflexivity.
  - reflexivity.
Defined.

Lemma forked_child_witness :
  exists w2 w',
    @main_loop sample_host initial_globals (-1) [forked_child_turn; parent_turn]
               stale_daemon sample_world = Exited 0 w' /\
    trace w' = (trace w2 ++
                [EvLog LOG_LEVEL_VERBOSE "Forking for exec_command execution";
                 EvFork 0;
                 EvLocalExec (exec_config ticked_daemon);
                 EvLog LOG_LEVEL_VERBOSE
                   "Finished exec_command execution, terminating the forked process"])%list.
Proof.
  eexists.
  eapply (@forked_child_leaves_after_the_run sample_host initial_globals (-1)
            forked_child_turn [parent_turn] stale_daemon ticked_daemon).
  - reflexivity.
  - reflexivity.
  - reflexivity.
  - reflexivity.
  - reflexivity.
Defined.

Lemma ScheduleRun_quiet_tick_witness :
  exists b w' evs,
    @ScheduleRun sample_host initial_globals (narrowed_tick true) stale_daemon sample_world
    = Ret (b, @mk_daemon sample_host
                (UpdateTimeClasses
                   (DetectEnvironment (EvalContextClear (ctx stale_daemon)))
                   (tick_now (narrowed_tick true)))
                (policy stale_daemon) (config stale_daemon) (execd_config stale_daemon)
                (exec_config stale_daemon)) w' /\
    trace w' = (trace sample_world ++ evs)%list /\
    Forall (fun e => exists level fmt, e = EvLog level fmt) evs /\
    reload_requested w' = reload_requested sample_world /\
    termination_pending w' = termination_pending sample_world.
Proof.
  apply (@ScheduleRun_quiet_tick sample_host initial_globals (narrowed_tick true)
           stale_daemon sample_world).
  intros [H|H]; [exact (Z.lt_irrefl _ H) | discriminate H].
Defined.

Lemma SetupRunagentSocket_path_too_long_witness :
  @SetupRunagentSocket sample_host long_dir_globals sample_socket_env
                       (sample_execd [] ["alice"] 30)
  = ([EvDaemon (EvLog LOG_LEVEL_ERR "Failed to create socket for runagent requests")],
     inl (-1)).
Proof.
  apply (@SetupRunagentSocket_path_too_long sample_host long_dir_globals sample_socket_env
           (sample_execd [] ["alice"] 30)).
  simpl. lia.
Defined.

Lemma SetupRunagentSocket_descriptor_witness :
  let evs := fst (@SetupRunagentSocket sample_host initial_globals bind_failure_env
                    (sample_execd [] ["alice"] 30)) in
  (0 <= -1 <->
   fst (@GetRunagentSocketInfo sample_host initial_globals) = true /\
   0 <= so_socket bind_failure_env /\
   so_bind bind_failure_env <> -1 /\ so_listen bind_failure_env <> -1) /\
  (0 <= -1 -> -1 = so_socket bind_failure_env /\
              forall fd', ~ In (EvDaemon (EvClose fd')) evs) /\
  (-1 < 0 -> forall ret, In (EvSocket ret) evs -> 0 <= ret -> In (EvDaemon (EvClose ret)) evs).
Proof.
  intros evs.
  apply (@SetupRunagentSocket_descriptor sample_host initial_globals bind_failure_env
           (sample_execd [] ["alice"] 30) evs (-1)).
  reflexivity.
Defined.

Lemma SetupRunagentSocket_acl_witness :
  let evs := fst (@SetupRunagentSocket sample_host initial_globals bind_failure_env
                    (sample_execd [] ["alice"] 30)) in
  (startup_acl_calls evs <> [] <->
   fst (@GetRunagentSocketInfo sample_host initial_globals) = true /\
   0 <= so_socket bind_failure_env /\
   runagent_allow_users (sample_execd [] ["alice"] 30) <> ∅) /\
  (startup_acl_calls evs <> [] ->
   hd_error (startup_acl_calls evs)
   = Some (EvAllowAccessForUsers (snd (@GetRunagentSocketInfo sample_host initial_globals))
             (runagent_allow_users (sample_execd [] ["alice"] 30)) true false)).
Proof.
  intros evs.
  apply (@SetupRunagentSocket_acl_follows_socket sample_host initial_globals bind_failure_env
           (sample_execd [] ["alice"] 30) evs (-1)).
  reflexivity.
Defined.


Lemma runagent_handler_child_witness :
  exists w',
    @select_loop sample_host 30 5 None 1000 (mk_timeval 30 0)
                 [child_round; timeout_round] sample_world
    = Exited EXIT_SUCCESS w' /\
    sigpipe w' = SIG_DFL /\
    trace w' = (trace sample_world ++
                [EvSelect (5 + 1) (mk_timeval 30 0);
                 EvAccept 5 (rd_accept child_round);
                 EvFork 0;
                 EvSignal SIGPIPE SIG_DFL;
                 EvHandleRunagentRequest (rd_accept child_round) None])%list.
Proof.
  apply (@runagent_handler_child sample_host 30 5 None 1000 (mk_timeval 30 0)
           child_round [timeout_round] sample_world).
  - discriminate.
  - reflexivity.
  - reflexivity.
  - reflexivity.
  - reflexivity.
Defined.

Lemma HandleRequestsOrSleep_timeouts_witness :
  In (EvSelect 6 (mk_timeval 27 600000)) (trace sample_world) \/
  (tv_sec (mk_timeval 27 600000) <= Z.max 0 30 /\
   0 <= tv_usec (mk_timeval 27 600000) < 1000000).
Proof.
  apply (@HandleRequestsOrSleep_timeouts_bounded sample_host 30 "splay time" 5 None
           request_env sample_world).
  - repeat constructor; simpl; lia.
  - simpl. auto 10.
Defined.

Lemma DeleteRedundantSlashes_single_witness :
  no_redundant_separators unix_IsFileSep
    (files_names.DeleteRedundantSlashes unix_IsFileSep doubled_path) /\
  (no_redundant_separators unix_IsFileSep doubled_path ->
   files_names.DeleteRedundantSlashes unix_IsFileSep doubled_path = doubled_path) /\
  files_names.DeleteRedundantSlashes unix_IsFileSep
    (files_names.DeleteRedundantSlashes unix_IsFileSep doubled_path)
  = files_names.DeleteRedundantSlashes unix_IsFileSep doubled_path.
Proof.
  apply (DeleteRedundantSlashes_leaves_single_separators unix_IsFileSep eq_refl).
  unfold c_string, doubled_path. simpl. intuition discriminate.
Defined.

Lemma DeleteRedundantSlashes_removes_witness :
  List.filter (fun c => negb (unix_IsFileSep c))
              (files_names.DeleteRedundantSlashes unix_IsFileSep doubled_path)
  = List.filter (fun c => negb (unix_IsFileSep c)) doubled_path /\
  (length (files_names.DeleteRedundantSlashes unix_IsFileSep doubled_path)
   <= length doubled_path)%nat /\
  hd_error (files_names.DeleteRedundantSlashes unix_IsFileSep doubled_path)
  = hd_error doubled_path /\
  existsb unix_IsFileSep (files_names.DeleteRedundantSlashes unix_IsFileSep doubled_path)
  = existsb unix_IsFileSep doubled_path.
Proof.
  apply (DeleteRedundantSlashes_removes_separators_only unix_IsFileSep eq_refl).
  unfold c_string, doubled_path. simpl. intuition discriminate.
Defined.

Lemma ChopLastNode_refuses_witness :
  (fst (files_names.ChopLastNode unix_IsFileSep unix_IsAbsoluteFileName doubled_path) = false
   <-> doubled_path = []) /\
  (doubled_path = [] ->
   snd (files_names.ChopLastNode unix_IsFileSep unix_IsAbsoluteFileName doubled_path) = []) /\
  (length (snd (files_names.ChopLastNode unix_IsFileSep unix_IsAbsoluteFileName doubled_path))
   <= length doubled_path)%nat.
Proof.
  apply (ChopLastNode_refuses_only_the_empty_string unix_IsFileSep eq_refl
           unix_IsAbsoluteFileName).
  unfold c_string, doubled_path. simpl. intuition discriminate.
Defined.

Lemma ChopLastNode_directory_witness :
  files_names.ChopLastNode unix_IsFileSep unix_IsAbsoluteFileName
    (socket_path_dir ++ "/"%char :: socket_path_leaf)
  = (true, socket_path_dir).
Proof.
  apply (ChopLastNode_leaves_the_directory unix_IsFileSep eq_refl unix_IsAbsoluteFileName).
  - unfold c_string. simpl. intuition discriminate.
  - simpl. intuition discriminate.
  - reflexivity.
  - repeat constructor.
  - left. reflexivity.
Defined.

Lemma ChopLastNode_root_witness :
  files_names.ChopLastNode unix_IsFileSep unix_IsAbsoluteFileName
    ("/"%char :: list_ascii_of_string "tmp")
  = (true, ["/"%char]).
Proof.
  apply (ChopLastNode_keeps_the_root unix_IsFileSep eq_refl unix_IsAbsoluteFileName).
  - unfold c_string. simpl. intuition discriminate.
  - reflexivity.
  - repeat constructor.
  - reflexivity.
Defined.

Lemma runagent_socket_parent_witness :
  @ChopLastNode sample_host "/var/cfengine/state/cf-execd.sockets/runagent.socket"
  = "/var/cfengine/state/cf-execd.sockets" /\
  @SetRunagentSocketACLs sample_host (narrowed_disk true)
    "/var/cfengine/state/cf-execd.sockets/runagent.socket" {["alice"]} sample_world
  = Ret true
        (emits [EvAllowAccessForUsers "/var/cfengine/state/cf-execd.sockets/runagent.socket"
                  {["alice"]} true false;
                EvAllowAccessForUsers "/var/cfengine/state/cf-execd.sockets"
                  {["alice"]} false true] sample_world).
Proof.
  apply (@runagent_socket_parent_is_the_socket_directory sample_host initial_globals
           (narrowed_disk true) "/var/cfengine/state/cf-execd.sockets/runagent.socket"
           {["alice"]} sample_world).
  - reflexivity.
  - reflexivity.
  - repeat constructor.
  - reflexivity.
  - unfold c_string. simpl. intuition discriminate.
  - simpl. intuition discriminate.
  - reflexivity.
  - reflexivity.
Defined.
